(** * SeoInspector: the page analysis pipeline of [server/routes.ts]

    A shallow embedding of the seven extractors, the per-category scoring
    functions, the aggregator, the classifier and the report assembly, with
    the in-memory store of [server/storage.ts] and the two routes of
    [registerRoutes], whose handlers run from [await] to [await].

    Conventions of the embedding.
    - A JavaScript string is the list of its UTF-16 code units ([jsstring]);
      [s.length] is the length of that list.
    - A JavaScript number is an IEEE-754 binary64 value, Rocq's primitive
      [float]; [+], [-], [*], [/], [<] are the primitive operations.  Array
      lengths and the counters derived from them are exact integers below
      [2^32]; they are kept in [Z] and enter the floating-point computations
      through [Z2f].
    - An exception is a [Throw] in the [result] type.
    - The parsed document ([cheerio.load]), the WHATWG [URL] class and a few
      string built-ins are host functions: variables of the section
      [Analysis]. *)

From Stdlib Require Import ZArith NArith List String Ascii Bool Lia.
From Stdlib Require Import Floats Reals Lra.
From Stdlib Require Import Permutation Sorted.
Import ListNotations.

Set Warnings "-inexact-float".
Local Open Scope string_scope.
Local Open Scope list_scope.
Local Open Scope Z_scope.

(** ** JavaScript strings *)

Definition jsstring := list N.

Definition lit (s : string) : jsstring :=
  map N_of_ascii (list_ascii_of_string s).

Definition len (s : jsstring) : Z := Z.of_nat (List.length s).

(** [if (s)], [s ? a : b] and [!s] on a string test that it is not empty. *)
Definition truthy (s : jsstring) : bool :=
  match s with [] => false | _ :: _ => true end.

Fixpoint jseqb (a b : jsstring) : bool :=
  match a, b with
  | [], [] => true
  | x :: a', y :: b' => N.eqb x y && jseqb a' b'
  | _, _ => false
  end.

Fixpoint startsWith (s p : jsstring) : bool :=
  match p, s with
  | [], _ => true
  | y :: p', x :: s' => N.eqb x y && startsWith s' p'
  | _ :: _, [] => false
  end.

Fixpoint includes (s p : jsstring) : bool :=
  startsWith s p ||
  match s with
  | [] => false
  | _ :: s' => includes s' p
  end.

(** The class [\s] of a regular expression, which is also what [trim]
    strips: WhiteSpace and LineTerminator code points. *)
Definition is_space (c : N) : bool :=
  let c := Z.of_N c in
  ((9 <=? c) && (c <=? 13)) || (c =? 32) || (c =? 160) || (c =? 5760)
  || ((8192 <=? c) && (c <=? 8202)) || (c =? 8232) || (c =? 8233)
  || (c =? 8239) || (c =? 8287) || (c =? 12288) || (c =? 65279).

Fixpoint trimStart (s : jsstring) : jsstring :=
  match s with
  | c :: s' => if is_space c then trimStart s' else s
  | [] => []
  end.

Definition trim (s : jsstring) : jsstring :=
  rev (trimStart (rev (trimStart s))).

(** [s.replace(/\s+/g, ' ')]: every maximal run of white space becomes one
    space.  [inrun] tells that the previous code unit was white space. *)
Fixpoint collapse_from (inrun : bool) (s : jsstring) : jsstring :=
  match s with
  | [] => []
  | c :: s' =>
      if is_space c
      then (if inrun then collapse_from true s' else 32%N :: collapse_from true s')
      else c :: collapse_from false s'
  end.

Definition replace_spaces (s : jsstring) : jsstring := collapse_from false s.

(** [s.split(/[class]+/)] for a character class [sep]: the pieces between the
    maximal runs of separators, an empty first or last piece included, and
    [[""]] for the empty string.  [cur] is the piece being read, reversed. *)
Fixpoint split_from (sep : N -> bool) (inrun : bool) (cur : jsstring)
    (s : jsstring) : list jsstring :=
  match s with
  | [] => [rev cur]
  | c :: s' =>
      if sep c
      then (if inrun then split_from sep true cur s'
            else rev cur :: split_from sep true [] s')
      else split_from sep false (c :: cur) s'
  end.

Definition split (sep : N -> bool) (s : jsstring) : list jsstring :=
  split_from sep false [] s.

(** The class [[.!?]]. *)
Definition is_sentence_end (c : N) : bool :=
  (c =? 46)%N || (c =? 33)%N || (c =? 63)%N.

(** ** JavaScript numbers *)

(** The double nearest to an integer; exact below [2^53]. *)
Definition Z2f (z : Z) : float :=
  SF2Prim (binary_normalize prec emax z 0 false).

(** [Math.round]: the nearest integer, a tie going towards [+Infinity];
    NaN, the infinities and the zeros are returned unchanged, and a value in
    [[-0.5, 0)] gives [-0]. *)
Definition Math_round (x : float) : float :=
  match Prim2SF x with
  | S754_finite s m e =>
      if 0 <=? e then x
      else
        let k := - e in
        let n := ((2 * cond_Zopp s (Zpos m) + 2 ^ k) / 2 ^ (k + 1)) in
        if n =? 0 then (if s then neg_zero else zero) else Z2f n
  | _ => x
  end.

Definition Math_max (a b : float) : float :=
  if is_nan a || is_nan b then nan
  else if (a <? b)%float then b
  else if (b <? a)%float then a
  else if get_sign a then b else a.

Definition Math_min (a b : float) : float :=
  if is_nan a || is_nan b then nan
  else if (a <? b)%float then a
  else if (b <? a)%float then b
  else if get_sign a then a else b.

Definition Math_abs (x : float) : float := abs x.

(** ** Exceptions *)

Inductive error :=
| TypeError_InvalidURL.

Inductive result (A : Type) :=
| Ok (a : A)
| Throw (e : error).
Arguments Ok {A} a.
Arguments Throw {A} e.

Definition bind {A B} (r : result A) (k : A -> result B) : result B :=
  match r with
  | Ok a => k a
  | Throw e => Throw e
  end.

Notation "x <- r ;; k" := (bind r (fun x => k))
  (at level 61, r at next level, right associativity).

Definition of_option {A} (o : option A) : result A :=
  match o with
  | Some a => Ok a
  | None => Throw TypeError_InvalidURL
  end.

(** ** The parsed document

    [$ = cheerio.load(html)] is a function from a selector to the elements
    it matches, in document order.  An element carries its attributes and
    its text content. *)

Record element := {
  attribs : list (string * jsstring);
  el_text : jsstring
}.

Definition selection := list element.
Definition cheerio := string -> selection.

Fixpoint lookup_attr (name : string) (l : list (string * jsstring))
    : option jsstring :=
  match l with
  | [] => None
  | (k, v) :: l' => if String.eqb k name then Some v else lookup_attr name l'
  end.

(** [sel.attr(name)]: the attribute of the first matched element, or
    [undefined]. *)
Definition attr (name : string) (sel : selection) : option jsstring :=
  match sel with
  | [] => None
  | el :: _ => lookup_attr name (attribs el)
  end.

(** [sel.text()]: the text contents of the matched elements, concatenated. *)
Definition text (sel : selection) : jsstring :=
  List.concat (map el_text sel).

(** [v || '']. *)
Definition or_empty (v : option jsstring) : jsstring :=
  match v with
  | Some s => s
  | None => []
  end.

Definition count {A} (l : list A) : Z := Z.of_nat (List.length l).

(** ** Fact bundles *)

Inductive status :=
| missing | present | too_short | too_long | good | needs_improvement | poor.

Definition status_eqb (a b : status) : bool :=
  match a, b with
  | missing, missing | present, present | too_short, too_short
  | too_long, too_long | good, good | needs_improvement, needs_improvement
  | poor, poor => true
  | _, _ => false
  end.

Record sized_tag := {
  st_content : jsstring;
  st_status : status;
  st_length : Z
}.

Record tag := {
  tag_content : jsstring;
  tag_status : status
}.

Record basic_tags := {
  title : sized_tag;
  description : sized_tag;
  canonical : tag;
  viewport : tag;
  robots : tag
}.

Record og_tags := {
  og_title : tag;
  og_description : tag;
  og_url : tag;
  og_image : tag;
  og_type : tag
}.

Record twitter_tags := {
  tw_card : tag;
  tw_title : tag;
  tw_description : tag;
  tw_image : tag
}.

Record MetaTags := {
  basic : basic_tags;
  openGraph : og_tags;
  twitter : twitter_tags;
  meta_score : float
}.

Record heading := {
  h_text : jsstring;
  h_count : Z
}.

Record heading_lists := {
  h1 : list heading;
  h2 : list heading;
  h3 : list heading;
  h4 : list heading;
  h5 : list heading;
  h6 : list heading
}.

Record heading_analysis := {
  h1Count : Z;
  hasProperH1 : bool;
  hasLogicalStructure : bool;
  heading_status : status
}.

Record Headings := {
  headings : heading_lists;
  headings_analysis : heading_analysis
}.

Record image := {
  img_src : jsstring;
  img_alt : jsstring;
  hasAlt : bool;
  img_size : option jsstring
}.

Record image_analysis := {
  totalImages : Z;
  imagesWithAlt : Z;
  missingAltCount : Z;
  altTextPercentage : float;
  image_status : status
}.

Record Images := {
  images : list image;
  images_analysis : image_analysis
}.

Record internal_link := {
  il_text : jsstring;
  il_url : jsstring;
  isGeneric : bool
}.

Record external_link := {
  el_link_text : jsstring;
  el_url : jsstring;
  hasRel : bool
}.

Record link_analysis := {
  totalLinks : Z;
  internalLinks : Z;
  externalLinks : Z;
  genericInternalLinks : Z;
  externalLinksWithoutRel : Z;
  link_status : status
}.

Record Links := {
  links_internal : list internal_link;
  links_external : list external_link;
  links_analysis : link_analysis
}.

Record resources := {
  scripts : Z;
  styles : Z;
  res_images : Z;
  iframes : Z;
  total : Z
}.

Record perf_metrics := {
  estimatedLoadTime : jsstring;
  estimatedLoadTimeValue : float;
  firstContentfulPaint : jsstring;
  largestContentfulPaint : jsstring;
  cumulativeLayoutShift : jsstring
}.

Record Performance := {
  perf_resources : resources;
  perf_metrics_of : perf_metrics;
  perf_score : float
}.

Record mobile_features := {
  hasViewport : bool;
  hasMediaQueries : bool;
  hasResponsiveIndicators : bool
}.

Record Mobile := {
  features : mobile_features;
  mobile_score : float
}.

Record content_metrics := {
  wordCount : Z;
  paragraphCount : Z;
  readabilityScore : float;
  avgWordsPerSentence : jsstring
}.

Record Content := {
  metrics : content_metrics;
  content_score : float
}.

Record finding := {
  f_type : string;
  f_severity : option string;
  f_title : jsstring;
  f_description : jsstring
}.

Record Analysis := {
  url : jsstring;
  a_title : jsstring;
  a_description : jsstring;
  seoScore : float;
  metaTagsScore : float;
  contentScore : float;
  linksScore : float;
  performanceScore : float;
  mobileScore : float;
  metaTags : MetaTags;
  a_headings : Headings;
  links : Links;
  a_images : Images;
  performanceMetrics : Performance;
  contentAnalysis : Content;
  criticalIssues : list finding;
  strengths : list finding;
  improvementAreas : list finding
}.

(** A double quote, for the selectors and messages that contain one. *)
Definition dq : string := String (ascii_of_nat 34) EmptyString.

(** The selector [tag[name="value"]]. *)
Definition attr_sel (tg name value : string) : string :=
  (tg ++ "[" ++ name ++ "=" ++ dq ++ value ++ dq ++ "]")%string.

Section Analysis.

(** ** The host environment *)

(** [cheerio.load(html)]. *)
Variable cheerio_load : jsstring -> cheerio.
(** [new URL(url).origin]; [None] when the constructor throws. *)
Variable URL_origin : jsstring -> option jsstring.
(** [new URL(href, base).href]; [None] when the constructor throws. *)
Variable URL_href : jsstring -> jsstring -> option jsstring.
(** [String.prototype.toLowerCase]. *)
Variable toLowerCase : jsstring -> jsstring.
(** [Number.prototype.toFixed(1)], [parseFloat] and the conversion of a
    number to a string in a template literal. *)
Variable toFixed1 : float -> jsstring.
Variable parseFloat : jsstring -> float.
Variable Number_toString : float -> jsstring.

(** ** Meta tags *)

Definition calculateMetaTagsScore
    (title description canonical viewport ogTitle ogDescription ogImage
     twitterCard : jsstring) : float :=
  let score := 0%float in
  let maxScore := 100%float in
  (* Title - 20 points max *)
  let score :=
    if truthy title then
      let score := (score + 10)%float in
      if (30 <=? len title) && (len title <=? 70) then (score + 10)%float
      else if 0 <? len title then (score + 5)%float
      else score
    else score in
  (* Description - 20 points max *)
  let score :=
    if truthy description then
      let score := (score + 10)%float in
      if (120 <=? len description) && (len description <=? 160)
      then (score + 10)%float
      else if 0 <? len description then (score + 5)%float
      else score
    else score in
  (* Canonical, viewport - 10 points each *)
  let score := if truthy canonical then (score + 10)%float else score in
  let score := if truthy viewport then (score + 10)%float else score in
  (* Open Graph - 20 points max *)
  let score := if truthy ogTitle then (score + 5)%float else score in
  let score := if truthy ogDescription then (score + 5)%float else score in
  let score := if truthy ogImage then (score + 10)%float else score in
  (* Twitter Card - 20 points max *)
  let score := if truthy twitterCard then (score + 10)%float else score in
  let score :=
    if truthy twitterCard
       && (jseqb twitterCard (lit "summary")
           || jseqb twitterCard (lit "summary_large_image"))
    then (score + 10)%float else score in
  Math_round ((score / maxScore) * 100)%float.

Definition presence (s : jsstring) : status :=
  if truthy s then present else missing.

Definition mk_tag (s : jsstring) : tag :=
  {| tag_content := s; tag_status := presence s |}.

Definition extractMetaTags (html url : jsstring) : MetaTags :=
  let S := cheerio_load html in
  let title := text (S "title") in
  let meta name := or_empty (attr "content" (S (attr_sel "meta" "name" name))) in
  let prop name := or_empty (attr "content" (S (attr_sel "meta" "property" name))) in
  let metaDescription := meta "description" in
  let canonicalUrl := or_empty (attr "href" (S (attr_sel "link" "rel" "canonical"))) in
  let viewport := meta "viewport" in
  let ogTitle := prop "og:title" in
  let ogDescription := prop "og:description" in
  let ogUrl := prop "og:url" in
  let ogImage := prop "og:image" in
  let ogType := prop "og:type" in
  let twitterCard := meta "twitter:card" in
  let twitterTitle := meta "twitter:title" in
  let twitterDescription := meta "twitter:description" in
  let twitterImage := meta "twitter:image" in
  let robots := meta "robots" in
  let metaTagsScore :=
    calculateMetaTagsScore title metaDescription canonicalUrl viewport
      ogTitle ogDescription ogImage twitterCard in
  {| basic := {|
       title := {|
         st_content := title;
         st_status :=
           if 0 <? len title
           then (if 70 <? len title then too_long
                 else if len title <? 30 then too_short else good)
           else missing;
         st_length := len title |};
       description := {|
         st_content := metaDescription;
         st_status :=
           if 0 <? len metaDescription
           then (if 160 <? len metaDescription then too_long
                 else if len metaDescription <? 120 then too_short else good)
           else missing;
         st_length := len metaDescription |};
       canonical := mk_tag canonicalUrl;
       viewport := mk_tag viewport;
       robots := mk_tag robots |};
     openGraph := {|
       og_title := mk_tag ogTitle;
       og_description := mk_tag ogDescription;
       og_url := mk_tag ogUrl;
       og_image := mk_tag ogImage;
       og_type := mk_tag ogType |};
     twitter := {|
       tw_card := mk_tag twitterCard;
       tw_title := mk_tag twitterTitle;
       tw_description := mk_tag twitterDescription;
       tw_image := mk_tag twitterImage |};
     meta_score := metaTagsScore |}.

(** ** Headings *)

Definition checkLogicalHeadingStructure (hs : heading_lists) : bool :=
  if negb (count (h1 hs) =? 1) then false
  else if (count (h2 hs) =? 0) && ((0 <? count (h3 hs)) || (0 <? count (h4 hs)))
  then false
  else if (0 <? count (h3 hs)) && (count (h2 hs) =? 0) then false
  else true.

Definition calculateHeadingStatus (h1Count : Z) (hasLogicalStructure : bool)
    : status :=
  if (h1Count =? 1) && hasLogicalStructure then good
  else if (h1Count =? 1) || hasLogicalStructure then needs_improvement
  else poor.

Definition collect_headings (S : cheerio) (tg : string) : list heading :=
  map (fun el => {| h_text := trim (text [el]); h_count := 1 |}) (S tg).

Definition extractHeadings (html : jsstring) : Headings :=
  let S := cheerio_load html in
  let hs := {| h1 := collect_headings S "h1"; h2 := collect_headings S "h2";
               h3 := collect_headings S "h3"; h4 := collect_headings S "h4";
               h5 := collect_headings S "h5"; h6 := collect_headings S "h6" |} in
  let h1Count := count (h1 hs) in
  let hasLogicalStructure := checkLogicalHeadingStructure hs in
  {| headings := hs;
     headings_analysis := {|
       h1Count := h1Count;
       hasProperH1 := h1Count =? 1;
       hasLogicalStructure := hasLogicalStructure;
       heading_status := calculateHeadingStatus h1Count hasLogicalStructure |} |}.

(** ** Images *)

Definition calculateImageStatus (totalImages missingAltCount : Z) : status :=
  if (totalImages =? 0) || (missingAltCount =? 0) then good
  else if (Z2f missingAltCount / Z2f totalImages <? 0.2)%float
  then needs_improvement
  else poor.

(** The body of [$('img').each(...)]: an exception of [new URL] leaves the
    loop and the extractor. *)
Fixpoint each_img (url : jsstring) (els : selection) : result (list image) :=
  match els with
  | [] => Ok []
  | el :: els' =>
      let src := or_empty (lookup_attr "src" (attribs el)) in
      let alt := or_empty (lookup_attr "alt" (attribs el)) in
      let hasAlt := 0 <? len alt in
      fullSrc <- (if startsWith src (lit "http") then Ok src
                  else of_option (URL_href src url)) ;;
      rest <- each_img url els' ;;
      Ok ({| img_src := fullSrc; img_alt := alt; hasAlt := hasAlt;
             img_size := None |} :: rest)
  end.

Definition extractImages (html url : jsstring) : result Images :=
  let S := cheerio_load html in
  images <- each_img url (S "img") ;;
  let totalImages := count images in
  let imagesWithAlt := count (filter hasAlt images) in
  let missingAltCount := totalImages - imagesWithAlt in
  Ok {| images := images;
        images_analysis := {|
          totalImages := totalImages;
          imagesWithAlt := imagesWithAlt;
          missingAltCount := missingAltCount;
          altTextPercentage :=
            if 0 <? totalImages
            then Math_round ((Z2f imagesWithAlt / Z2f totalImages) * 100)%float
            else 100%float;
          image_status := calculateImageStatus totalImages missingAltCount |} |}.

(** ** Links *)

Definition genericTexts : list jsstring :=
  map lit ["click here"; "read more"; "learn more"; "more info"; "details";
           "here"].

Definition isGenericLinkText (txt : jsstring) : bool :=
  existsb (fun generic => includes (toLowerCase txt) generic) genericTexts.

Definition calculateLinkStatus
    (internalCount genericInternalCount externalCount externalWithoutRelCount : Z)
    : status :=
  if internalCount =? 0 then poor
  else
    let genericRatio :=
      if 0 <? internalCount
      then (Z2f genericInternalCount / Z2f internalCount)%float else 0%float in
    let missingRelRatio :=
      if 0 <? externalCount
      then (Z2f externalWithoutRelCount / Z2f externalCount)%float
      else 0%float in
    if (0.2 <? genericRatio)%float || (0.2 <? missingRelRatio)%float
    then needs_improvement
    else good.

(** What the body of [$('a').each(...)] does with one anchor: nothing
    ([None]), or one push to the internal ([inl]) or external ([inr])
    sequence. *)
Definition visit_a (url baseUrl : jsstring) (el : element)
    : option (internal_link + external_link) :=
  let href := or_empty (lookup_attr "href" (attribs el)) in
  let txt := trim (text [el]) in
  let rel := or_empty (lookup_attr "rel" (attribs el)) in
  let isGeneric := isGenericLinkText txt in
  (* Skip empty or javascript links *)
  if negb (truthy href) || startsWith href (lit "javascript:")
     || jseqb href (lit "#")
  then None
  else
    (* try { ... } catch (e) { return; } *)
    match (if startsWith href (lit "http") then Ok href
           else of_option (URL_href href url)) with
    | Throw _ => None
    | Ok fullUrl =>
        if startsWith fullUrl baseUrl
        then Some (inl {| il_text := txt; il_url := fullUrl;
                          isGeneric := isGeneric |})
        else Some (inr {| el_link_text := txt; el_url := fullUrl;
                          hasRel := includes rel (lit "noopener")
                                    || includes rel (lit "noreferrer") |})
    end.

Fixpoint each_a (url baseUrl : jsstring) (els : selection)
    : list internal_link * list external_link :=
  match els with
  | [] => ([], [])
  | el :: els' =>
      let '(internalLinks, externalLinks) := each_a url baseUrl els' in
      match visit_a url baseUrl el with
      | None => (internalLinks, externalLinks)
      | Some (inl l) => (l :: internalLinks, externalLinks)
      | Some (inr l) => (internalLinks, l :: externalLinks)
      end
  end.

Definition extractLinks (html url : jsstring) : result Links :=
  let S := cheerio_load html in
  baseUrl <- of_option (URL_origin url) ;;
  let '(internalLinks, externalLinks) := each_a url baseUrl (S "a") in
  let totalLinks := count internalLinks + count externalLinks in
  let genericInternalLinks := count (filter isGeneric internalLinks) in
  let externalLinksWithoutRel :=
    count (filter (fun l => negb (hasRel l)) externalLinks) in
  Ok {| links_internal := internalLinks;
        links_external := externalLinks;
        links_analysis := {|
          totalLinks := totalLinks;
          internalLinks := count internalLinks;
          externalLinks := count externalLinks;
          genericInternalLinks := genericInternalLinks;
          externalLinksWithoutRel := externalLinksWithoutRel;
          link_status :=
            calculateLinkStatus (count internalLinks) genericInternalLinks
              (count externalLinks) externalLinksWithoutRel |} |}.

(** ** Performance *)

Definition calculatePerformanceScore (totalResources : Z) (loadTime : float)
    (scriptCount : Z) : float :=
  let score := 100%float in
  (* Penalize for high resource count *)
  let score :=
    if 50 <? totalResources then (score - 30)%float
    else if 30 <? totalResources then (score - 20)%float
    else if 15 <? totalResources then (score - 10)%float
    else score in
  (* Penalize for load time *)
  let score :=
    if (3 <? loadTime)%float then (score - 30)%float
    else if (2 <? loadTime)%float then (score - 15)%float
    else if (1 <? loadTime)%float then (score - 5)%float
    else score in
  (* Penalize for script count *)
  let score :=
    if 15 <? scriptCount then (score - 15)%float
    else if 10 <? scriptCount then (score - 10)%float
    else if 5 <? scriptCount then (score - 5)%float
    else score in
  Math_max 0 (Math_min 100 score).

Definition estimatePerformance (html : jsstring) : Performance :=
  let S := cheerio_load html in
  let scriptCount := count (S "script") in
  let cssCount := count (S (attr_sel "link" "rel" "stylesheet")) in
  let imageCount := count (S "img") in
  let iframeCount := count (S "iframe") in
  let totalResources := scriptCount + cssCount + imageCount + iframeCount in
  let baseLoadTime := 0.5%float in
  let resourceLoadTime := (Z2f totalResources * 0.1)%float in
  let estimatedLoadTime :=
    parseFloat (toFixed1 (baseLoadTime + resourceLoadTime)%float) in
  let performanceScore :=
    calculatePerformanceScore totalResources estimatedLoadTime scriptCount in
  {| perf_resources := {|
       scripts := scriptCount; styles := cssCount; res_images := imageCount;
       iframes := iframeCount; total := totalResources |};
     perf_metrics_of := {|
       estimatedLoadTime := (Number_toString estimatedLoadTime ++ lit "s")%list;
       estimatedLoadTimeValue := estimatedLoadTime;
       firstContentfulPaint :=
         (toFixed1 (estimatedLoadTime * 0.6)%float ++ lit "s")%list;
       largestContentfulPaint :=
         (toFixed1 (estimatedLoadTime * 0.8)%float ++ lit "s")%list;
       cumulativeLayoutShift := lit "0.12" |};
     perf_score := performanceScore |}.

(** ** Mobile friendliness *)

Definition calculateMobileScore
    (hasViewport hasMediaQueries hasResponsiveClasses : bool) : float :=
  let score := 0%float in
  let score := if hasViewport then (score + 50)%float else score in
  let score := if hasMediaQueries then (score + 25)%float else score in
  let score := if hasResponsiveClasses then (score + 25)%float else score in
  (* If no responsive indicators but has viewport, give some credit *)
  let score :=
    if negb hasMediaQueries && negb hasResponsiveClasses && hasViewport
    then (score + 20)%float else score in
  score.

Definition checkMobileFriendliness (html : jsstring) : Mobile :=
  let S := cheerio_load html in
  let hasViewport := 0 <? count (S (attr_sel "meta" "name" "viewport")) in
  let hasMediaQueries := includes (text (S "style")) (lit "@media") in
  let htmlClass := or_empty (attr "class" (S "html")) in
  let bodyClass := or_empty (attr "class" (S "body")) in
  let hasResponsiveClasses :=
    includes htmlClass (lit "responsive") || includes bodyClass (lit "responsive") in
  let mobileScore :=
    calculateMobileScore hasViewport hasMediaQueries hasResponsiveClasses in
  {| features := {|
       hasViewport := hasViewport;
       hasMediaQueries := hasMediaQueries;
       hasResponsiveIndicators := hasResponsiveClasses |};
     mobile_score := mobileScore |}.

(** ** Content *)

Definition calculateContentScore (wordCount paragraphCount : Z)
    (readabilityScore : float) : float :=
  let score := 0%float in
  (* Word count scoring *)
  let score :=
    if 1000 <? wordCount then (score + 30)%float
    else if 500 <? wordCount then (score + 20)%float
    else if 300 <? wordCount then (score + 10)%float
    else score in
  (* Paragraph count and structure *)
  let score :=
    if (0 <? paragraphCount)
       && (Z2f wordCount / Z2f paragraphCount <? 150)%float
    then (score + 20)%float
    else if 0 <? paragraphCount then (score + 10)%float
    else score in
  (* Readability *)
  let score := (score + readabilityScore * 0.5)%float in
  Math_min 100 score.

Definition analyzeContent (html : jsstring) : Content :=
  let S := cheerio_load html in
  let rawText := text (S "body") in
  let cleanText := trim (replace_spaces rawText) in
  let wordCount := count (split is_space cleanText) in
  let paragraphCount := count (S "p") in
  let sentenceCount := count (split is_sentence_end cleanText) in
  let avgWordsPerSentence :=
    (Z2f wordCount
     / Z2f (if (sentenceCount =? 0)%Z then 1%Z else sentenceCount))%float in
  let readabilityScore :=
    Math_min 100
      (Math_max 0 (100 - Math_abs (avgWordsPerSentence - 15) * 3)%float) in
  let contentScore :=
    calculateContentScore wordCount paragraphCount readabilityScore in
  {| metrics := {|
       wordCount := wordCount;
       paragraphCount := paragraphCount;
       readabilityScore := readabilityScore;
       avgWordsPerSentence := toFixed1 avgWordsPerSentence |};
     content_score := contentScore |}.

(** ** Aggregator *)

Definition calculateOverallScore
    (metaTagsScore headingsScore imagesScore linksScore performanceScore
     mobileScore contentScore : float) : float :=
  let w_metaTags := 0.2%float in
  let w_headings := 0.1%float in
  let w_images := 0.1%float in
  let w_links := 0.15%float in
  let w_performance := 0.2%float in
  let w_mobile := 0.15%float in
  let w_content := 0.1%float in
  let weightedScore :=
    (metaTagsScore * w_metaTags +
     headingsScore * w_headings +
     imagesScore * w_images +
     linksScore * w_links +
     performanceScore * w_performance +
     mobileScore * w_mobile +
     contentScore * w_content)%float in
  Math_round weightedScore.

(** ** Classifier *)

Definition issue (ty sev title descr : string) : finding :=
  {| f_type := ty; f_severity := Some sev; f_title := lit title;
     f_description := lit descr |}.

Definition note (ty title descr : string) : finding :=
  {| f_type := ty; f_severity := None; f_title := lit title;
     f_description := lit descr |}.

(** [cond ? [x] : []], for the conditional pushes. *)
Definition when {A} (c : bool) (x : A) : list A := if c then [x] else [].

Definition identifyCriticalIssues (metaTags : MetaTags) (headings : Headings)
    (images : Images) (links : Links) (performance : Performance)
    : list finding :=
  (when (negb (truthy (st_content (title (basic metaTags)))))
     (issue "meta" "critical" "Missing title tag"
        "The title tag is essential for search engines to understand page content.")
   ++ when (negb (truthy (st_content (description (basic metaTags)))))
     (issue "meta" "critical" "Missing meta description"
        "The meta description helps search engines understand your page and can improve click-through rates.")
   ++ (if h1Count (headings_analysis headings) =? 0 then
         [issue "heading" "critical" "Missing H1 heading"
            "H1 is a critical element for SEO and should represent the main topic of your page."]
       else if 1 <? h1Count (headings_analysis headings) then
         [issue "heading" "warning" "Multiple H1 headings"
            "Pages should only have one H1 heading to clearly indicate the main topic."]
       else [])
   ++ when (0 <? missingAltCount (images_analysis images))
     {| f_type := "image"; f_severity := Some "critical";
        f_title :=
          lit "Missing alt text on "
          ++ Number_toString (Z2f (missingAltCount (images_analysis images)))
          ++ lit " images";
        f_description :=
          lit "Alt text is essential for accessibility and image SEO." |}
   ++ (if (perf_score performance <? 50)%float then
         [issue "performance" "critical" "Slow page performance"
            "Page performance is poor, which can negatively impact user experience and SEO."]
       else if (3 <? estimatedLoadTimeValue (perf_metrics_of performance))%float then
         [{| f_type := "performance"; f_severity := Some "warning";
             f_title := lit "Slow loading resources";
             f_description :=
               lit "Page takes approximately "
               ++ estimatedLoadTime (perf_metrics_of performance)
               ++ lit " to load, which may affect user experience." |}]
       else []))%list.

Definition identifyStrengths (metaTags : MetaTags) (headings : Headings)
    (images : Images) (links : Links) (performance : Performance)
    (mobile : Mobile) (content : Content) : list finding :=
  ((if (80 <=? meta_score metaTags)%float then
      [note "meta" "Good meta tag implementation"
         "Essential meta tags are well-implemented."]
    else if status_eqb (st_status (title (basic metaTags))) good then
      [note "meta" "Proper title tag"
         "The title tag is well-formatted and of optimal length."]
    else [])
   ++ when (hasProperH1 (headings_analysis headings)
            && hasLogicalStructure (headings_analysis headings))
     (note "heading" "Proper heading structure"
        "The page has a single H1 and a logical heading hierarchy.")
   ++ when (90 <=? altTextPercentage (images_analysis images))%float
     (note "image" "Proper image alt text"
        "Most images have descriptive alt text, which is great for accessibility and SEO.")
   ++ when (status_eqb (link_status (links_analysis links)) good)
     (note "link" "Good link structure"
        "Links use descriptive text and external links have proper rel attributes.")
   ++ when (80 <=? perf_score performance)%float
     (note "performance" "Good page performance"
        "The page loads quickly and efficiently.")
   ++ when (80 <=? mobile_score mobile)%float
     (note "mobile" "Mobile responsive design"
        "The page is well-optimized for mobile devices.")
   ++ when (80 <=? content_score content)%float
     (note "content" "High-quality content"
        "The content is substantial and well-structured."))%list.

Definition identifyImprovementAreas (metaTags : MetaTags) (headings : Headings)
    (images : Images) (links : Links) (performance : Performance)
    (mobile : Mobile) (content : Content) : list finding :=
  (when (negb (truthy (tag_content (og_image (openGraph metaTags)))))
     (note "meta" "Add Open Graph image"
        "Add og:image tag for better social media sharing.")
   ++ when (status_eqb (tag_status (tw_card (twitter metaTags))) missing)
     (note "meta" "Add Twitter Card tags"
        "Implement Twitter Card meta tags for better Twitter sharing.")
   ++ when (0 <? missingAltCount (images_analysis images))
     {| f_type := "image"; f_severity := None;
        f_title := lit "Add missing alt text";
        f_description :=
          lit "Add descriptive alt text to "
          ++ Number_toString (Z2f (missingAltCount (images_analysis images)))
          ++ lit " images." |}
   ++ when (0 <? genericInternalLinks (links_analysis links))
     {| f_type := "link"; f_severity := None;
        f_title := lit "Improve anchor text";
        f_description :=
          lit ("Replace generic anchor text (like " ++ dq ++ "click here" ++ dq
               ++ ") with descriptive text for ")%string
          ++ Number_toString (Z2f (genericInternalLinks (links_analysis links)))
          ++ lit " links." |}
   ++ when (perf_score performance <? 80)%float
     (note "performance" "Optimize page load speed"
        "Reduce resource size and number to improve page loading time.")
   ++ when (mobile_score mobile <? 80)%float
     (note "mobile" "Improve mobile friendliness"
        "Enhance the responsive design for better mobile experience.")
   ++ when (wordCount (metrics content) <? 300)
     (note "content" "Add more content"
        "Increase content length to at least 300 words for better search visibility."))%list.

(** ** The report *)

Definition headingsProxy (headings : Headings) : float :=
  if hasProperH1 (headings_analysis headings) then 100%float else 50%float.

Definition linksProxy (links : Links) : float :=
  if status_eqb (link_status (links_analysis links)) good then 80%float
  else if status_eqb (link_status (links_analysis links)) needs_improvement
  then 60%float
  else 40%float.

(** [analyzeSEO] once the page is fetched: [html] is [response.data].  An
    exception of an extractor is not an axios error and is thrown again by
    the [catch] block. *)
Definition analyzeSEO (html url : jsstring) : result Analysis :=
  let metaTags := extractMetaTags html url in
  let headings := extractHeadings html in
  images <- extractImages html url ;;
  links <- extractLinks html url ;;
  let performance := estimatePerformance html in
  let mobile := checkMobileFriendliness html in
  let content := analyzeContent html in
  let overallScore :=
    calculateOverallScore
      (meta_score metaTags)
      (headingsProxy headings)
      (altTextPercentage (images_analysis images))
      (linksProxy links)
      (perf_score performance)
      (mobile_score mobile)
      (content_score content) in
  let criticalIssues :=
    identifyCriticalIssues metaTags headings images links performance in
  let strengths :=
    identifyStrengths metaTags headings images links performance mobile content in
  let improvementAreas :=
    identifyImprovementAreas metaTags headings images links performance mobile
      content in
  Ok {| url := url;
        a_title := st_content (title (basic metaTags));
        a_description := st_content (description (basic metaTags));
        seoScore := overallScore;
        metaTagsScore := meta_score metaTags;
        contentScore := content_score content;
        linksScore := linksProxy links;
        performanceScore := perf_score performance;
        mobileScore := mobile_score mobile;
        metaTags := metaTags;
        a_headings := headings;
        links := links;
        a_images := images;
        performanceMetrics := performance;
        contentAnalysis := content;
        criticalIssues := criticalIssues;
        strengths := strengths;
        improvementAreas := improvementAreas |}.

End Analysis.

(** ** The store of [server/storage.ts]

    [MemStorage] keeps the saved analyses in a [Map] from id to record, in
    insertion order, with the next id; the clock is read at each save. *)

Record SeoAnalysis := {
  sa_analysis : Analysis;
  sa_id : Z;
  sa_createdAt : Z
}.

Record MemStorage := {
  seoAnalyses : list (Z * SeoAnalysis);
  seoAnalysisCurrentId : Z
}.

Definition MemStorage_new : MemStorage :=
  {| seoAnalyses := []; seoAnalysisCurrentId := 1 |}.

(** [Map.prototype.set]. *)
Fixpoint map_set (k : Z) (v : SeoAnalysis) (m : list (Z * SeoAnalysis))
    : list (Z * SeoAnalysis) :=
  match m with
  | [] => [(k, v)]
  | (k', v') :: m' => if k' =? k then (k, v) :: m' else (k', v') :: map_set k v m'
  end.

Definition saveSeoAnalysis (st : MemStorage) (now : Z) (analysis : Analysis)
    : MemStorage * SeoAnalysis :=
  let id := seoAnalysisCurrentId st in
  let seoAnalysis :=
    {| sa_analysis := analysis; sa_id := id; sa_createdAt := now |} in
  ({| seoAnalyses := map_set id seoAnalysis (seoAnalyses st);
      seoAnalysisCurrentId := id + 1 |},
   seoAnalysis).

Definition getSeoAnalysisByUrl (st : MemStorage) (u : jsstring)
    : option SeoAnalysis :=
  find (fun a => jseqb (url (sa_analysis a)) u) (map snd (seoAnalyses st)).

(** ** The rest of the store

    [getRecentSeoAnalyses] sorts the saved analyses by creation time, the
    newest first, and keeps the first [limit] of them. *)

(** [Array.prototype.sort] with a comparison function: the sort is stable,
    [x] goes before [y] when [cmp x y] is negative. *)
Fixpoint sort_insert {A} (cmp : A -> A -> Z) (x : A) (l : list A) : list A :=
  match l with
  | [] => [x]
  | y :: l' => if cmp x y <=? 0 then x :: l else y :: sort_insert cmp x l'
  end.

Definition Array_sort {A} (cmp : A -> A -> Z) (l : list A) : list A :=
  fold_right (sort_insert cmp) [] l.

(** [l.slice(0, end)] for an integer [end]: a negative [end] counts from the
    end of the array. *)
Definition slice0 {A} (l : list A) (e : Z) : list A :=
  let final := if e <? 0 then Z.max (count l + e) 0 else Z.min e (count l) in
  firstn (Z.to_nat final) l.

Definition getRecentSeoAnalyses (st : MemStorage) (limit : Z)
    : list SeoAnalysis :=
  slice0
    (Array_sort (fun a b => sa_createdAt b - sa_createdAt a)
       (map snd (seoAnalyses st)))
    limit.

(** The users of [MemStorage]: the map [users] and the counter
    [userCurrentId], which the analysis methods do not touch. *)
Record InsertUser := {
  username : jsstring;
  password : jsstring
}.

Record User := {
  user_username : jsstring;
  user_password : jsstring;
  user_id : Z
}.

Record UserStorage := {
  users : list (Z * User);
  userCurrentId : Z
}.

Definition UserStorage_new : UserStorage :=
  {| users := []; userCurrentId := 1 |}.

(** [Map.prototype.set] and [Map.prototype.get]. *)
Fixpoint Map_set {V} (k : Z) (v : V) (m : list (Z * V)) : list (Z * V) :=
  match m with
  | [] => [(k, v)]
  | (k', v') :: m' => if k' =? k then (k, v) :: m' else (k', v') :: Map_set k v m'
  end.

Fixpoint Map_get {V} (k : Z) (m : list (Z * V)) : option V :=
  match m with
  | [] => None
  | (k', v') :: m' => if k' =? k then Some v' else Map_get k m'
  end.

Definition getUser (st : UserStorage) (id : Z) : option User :=
  Map_get id (users st).

Definition getUserByUsername (st : UserStorage) (name : jsstring)
    : option User :=
  find (fun user => jseqb (user_username user) name) (map snd (users st)).

Definition createUser (st : UserStorage) (insertUser : InsertUser)
    : UserStorage * User :=
  let id := userCurrentId st in
  let user :=
    {| user_username := username insertUser;
       user_password := password insertUser;
       user_id := id |} in
  ({| users := Map_set id user (users st); userCurrentId := id + 1 |}, user).

Set Warnings "-register-all".

(** ** The routes of [registerRoutes]

    The handler of a request is an [async] function: it runs until it
    reaches an [await], and the handlers of other requests run while it
    waits.  The methods of the store have no [await] of their own: each of
    them reads or writes the store at the moment of its call. *)

(** [response.data].  With no [responseType] in the request, axios gives
    the body as a string unless the body is JSON text, which it parses: the
    data is then the value of the text, a string again when the text is a
    JSON string. *)
Inductive json_value :=
| JNull
| JBool (b : bool)
| JNumber (x : float)
| JArray (l : list json_value)
| JObject (l : list (jsstring * json_value)).

Inductive axios_data :=
| Data_string (s : jsstring)
| Data_json (v : json_value).

(** The outcome of [axios.get]: a response with its data, or an axios
    error with its [code] and the status of its [response], if any. *)
Inductive axios_result :=
| AxiosResponse (data : axios_data)
| AxiosError (code : option string) (status : option Z).

(** What the handler catches: an instance of [Error] with its message - a
    new [Error] of [analyzeSEO], or an exception of the extractors and of
    the libraries under them - or a value that is no [Error]. *)
Inductive thrown :=
| Error (message : jsstring)
| Thrown_value.

Inductive json_body :=
| J_analysis (a : SeoAnalysis)
| J_analyses (l : list SeoAnalysis)
| J_message (message : jsstring).

Record http_response := {
  res_status : Z;
  res_body : json_body
}.

(** The results of the seven extractors. *)
Record extracted := {
  x_metaTags : MetaTags;
  x_headings : Headings;
  x_images : Images;
  x_links : Links;
  x_performance : Performance;
  x_mobile : Mobile;
  x_content : Content
}.

(** The handler of [POST /api/analyze] at one of its [await]s, with the
    value it waits for, or after its answer. *)
Inductive handler :=
| Await_lookup (url : jsstring) (existingAnalysis : option SeoAnalysis)
| Await_fetch (url : jsstring)
| Await_analysis (outcome : thrown + Analysis)
| Await_save (savedAnalysis : SeoAnalysis)
| Answered (res : http_response).

(** The server: the store and the handlers of the requests so far, each
    with [req.body.url] when it is a string. *)
Record server := {
  storage : MemStorage;
  handlers : list (option jsstring * handler)
}.

(** What happens next: a request arrives and its handler runs to its first
    [await] or to its answer, or the handler of the [i]-th request goes on
    from its [await] to the next; [fetched] is what [axios.get] has for it
    and [now] the time of the clock, if it asks. *)
Inductive event :=
| Request (req_url : option jsstring)
| Resume (i : nat) (fetched : axios_result) (now : Z).

(** A request with what the network and the clock give for it. *)
Record request := {
  rq_url : option jsstring;
  rq_fetched : axios_result;
  rq_now : Z
}.

(** [l[i] = x] for an index of the list. *)
Fixpoint set_nth {A} (i : nat) (x : A) (l : list A) : list A :=
  match l, i with
  | [], _ => []
  | _ :: l', O => x :: l'
  | y :: l', S i' => y :: set_nth i' x l'
  end.

Section Routes.

Variable cheerio_load : jsstring -> cheerio.
Variable URL_origin : jsstring -> option jsstring.
Variable URL_href : jsstring -> jsstring -> option jsstring.
Variable toLowerCase : jsstring -> jsstring.
Variable toFixed1 : float -> jsstring.
Variable parseFloat : jsstring -> float.
Variable Number_toString : float -> jsstring.
(** [urlSchema.parse({ url })] returns, for a string [url]. *)
Variable urlSchema_parse : jsstring -> bool.
(** [error.message] of an exception of the host. *)
Variable Error_message : error -> jsstring.
(** The extractors on data that is not a string: [analyzeSEO] passes
    [response.data] on as it is, and what [cheerio.load] and the queries
    make of such a value is the library's business. *)
Variable extract_json : json_value -> jsstring -> thrown + extracted.

(** [analyzeSEO] after the extractors: the overall score, the findings and
    the report. *)
Definition report_of (url : jsstring) (x : extracted) : Analysis :=
  let metaTags := x_metaTags x in
  let headings := x_headings x in
  let images := x_images x in
  let links := x_links x in
  let performance := x_performance x in
  let mobile := x_mobile x in
  let content := x_content x in
  let overallScore :=
    calculateOverallScore
      (meta_score metaTags)
      (headingsProxy headings)
      (altTextPercentage (images_analysis images))
      (linksProxy links)
      (perf_score performance)
      (mobile_score mobile)
      (content_score content) in
  let criticalIssues :=
    identifyCriticalIssues Number_toString metaTags headings images links
      performance in
  let strengths :=
    identifyStrengths metaTags headings images links performance mobile content in
  let improvementAreas :=
    identifyImprovementAreas Number_toString metaTags headings images links
      performance mobile content in
  {| url := url;
     a_title := st_content (title (basic metaTags));
     a_description := st_content (description (basic metaTags));
     seoScore := overallScore;
     metaTagsScore := meta_score metaTags;
     contentScore := content_score content;
     linksScore := linksProxy links;
     performanceScore := perf_score performance;
     mobileScore := mobile_score mobile;
     metaTags := metaTags;
     a_headings := headings;
     links := links;
     a_images := images;
     performanceMetrics := performance;
     contentAnalysis := content;
     criticalIssues := criticalIssues;
     strengths := strengths;
     improvementAreas := improvementAreas |}.

(** [analyzeSEO(url)] from the outcome of the request for the page on: the
    analysis of the data, and the [catch] block, which makes a new [Error]
    of an axios error and throws anything else again. *)
Definition analyzeSEO_request (fetched : axios_result) (url : jsstring)
    : thrown + Analysis :=
  match fetched with
  | AxiosResponse (Data_string html) =>
      match analyzeSEO cheerio_load URL_origin URL_href toLowerCase toFixed1
              parseFloat Number_toString html url with
      | Ok analysis => inr analysis
      | Throw e => inl (Error (Error_message e))
      end
  | AxiosResponse (Data_json v) =>
      match extract_json v url with
      | inr x => inr (report_of url x)
      | inl e => inl e
      end
  | AxiosError code status =>
      if match code with Some c => String.eqb c "ECONNABORTED" | None => false end
      then inl (Error (lit "Request timeout for URL: " ++ url))
      else
        inl (Error (lit "Failed to fetch URL ("
                    ++ match status with
                       | Some s => if s =? 0 then lit "unknown status"
                                   else Number_toString (Z2f s)
                       | None => lit "unknown status"
                       end
                    ++ lit "): " ++ url))
  end.

Definition json (status : Z) (body : json_body) : http_response :=
  {| res_status := status; res_body := body |}.

(** [POST /api/analyze] up to its first [await].  [req_url] is
    [req.body.url] when it is a string; any other value is refused by the
    validation like a string that is not a URL.  The store is read by the
    call of [getSeoAnalysisByUrl], before the handler waits. *)
Definition post_start (st : MemStorage) (req_url : option jsstring) : handler :=
  (* Validate URL *)
  if negb match req_url with Some url => urlSchema_parse url | None => false end
  then
    Answered (json 400 (J_message (lit
      "Invalid URL format. Please enter a valid URL including http:// or https://.")))
  else
    let url := or_empty req_url in
    (* Check if we already have an analysis for this URL *)
    Await_lookup url (getSeoAnalysisByUrl st url).

(** The handler from one [await] to the next, in the store as it is by
    then.  The store is written by the call of [saveSeoAnalysis], which
    also reads the clock. *)
Definition post_resume (st : MemStorage) (h : handler)
    (fetched : axios_result) (now : Z) : MemStorage * handler :=
  match h with
  | Await_lookup url (Some existingAnalysis) =>
      (st, Answered (json 200 (J_analysis existingAnalysis)))
  | Await_lookup url None =>
      (* Perform SEO analysis *)
      (st, Await_fetch url)
  | Await_fetch url =>
      (st, Await_analysis (analyzeSEO_request fetched url))
  | Await_analysis (inr analysis) =>
      (* Save analysis to storage *)
      let '(st', savedAnalysis) := saveSeoAnalysis st now analysis in
      (st', Await_save savedAnalysis)
  | Await_analysis (inl (Error message)) =>
      (st, Answered (json 500 (J_message message)))
  | Await_analysis (inl Thrown_value) =>
      (st, Answered (json 500 (J_message (lit
         "An error occurred analyzing the URL"))))
  | Await_save savedAnalysis =>
      (st, Answered (json 200 (J_analysis savedAnalysis)))
  | Answered res => (st, Answered res)
  end.

(** The handler of one request from the arrival through its four [await]s,
    with no other handler in between. *)
Definition post_analyze (st : MemStorage) (rq : request)
    : MemStorage * handler :=
  let next sh := post_resume (fst sh) (snd sh) (rq_fetched rq) (rq_now rq) in
  next (next (next (next (st, post_start st (rq_url rq))))).

(** [GET /api/recent-analyses]. *)
Definition get_recent_analyses (st : MemStorage) : http_response :=
  json 200 (J_analyses (getRecentSeoAnalyses st 5)).

(** One event, and a sequence of events, of the server. *)
Definition step (s : server) (ev : event) : server :=
  match ev with
  | Request req_url =>
      {| storage := storage s;
         handlers := handlers s ++ [(req_url, post_start (storage s) req_url)] |}
  | Resume i fetched now =>
      match nth_error (handlers s) i with
      | Some (req_url, h) =>
          let '(st', h') := post_resume (storage s) h fetched now in
          {| storage := st'; handlers := set_nth i (req_url, h') (handlers s) |}
      | None => s
      end
  end.

Definition run (s : server) (evs : list event) : server :=
  fold_left step evs s.

End Routes.

Definition server_new : server :=
  {| storage := MemStorage_new; handlers := [] |}.

(** The events of a request whose handler, the [i]-th, runs from the
    arrival to the answer with no other handler in between, and of a
    sequence of such requests. *)
Definition alone (i : nat) (rq : request) : list event :=
  let resume := Resume i (rq_fetched rq) (rq_now rq) in
  [Request (rq_url rq); resume; resume; resume; resume].

Fixpoint one_at_a_time (i : nat) (rqs : list request) : list event :=
  match rqs with
  | [] => []
  | rq :: rqs' => alone i rq ++ one_at_a_time (S i) rqs'
  end.

(** * Notions used in the statements *)

(** ** Attributes of the elements *)

Definition alt_of (el : element) : jsstring :=
  or_empty (lookup_attr "alt" (attribs el)).

Definition src_of (el : element) : jsstring :=
  or_empty (lookup_attr "src" (attribs el)).

Definition href_of (el : element) : jsstring :=
  or_empty (lookup_attr "href" (attribs el)).

(** The anchors the links extractor passes over: an empty href, a
    [javascript:] href, the href [#], and an href that the [URL] constructor
    refuses. *)
Definition skipped (URL_href : jsstring -> jsstring -> option jsstring)
    (url : jsstring) (el : element) : bool :=
  negb (truthy (href_of el))
  || startsWith (href_of el) (lit "javascript:")
  || jseqb (href_of el) (lit "#")
  || (negb (startsWith (href_of el) (lit "http"))
      && match URL_href (href_of el) url with None => true | Some _ => false end).

(** ** Tokens of a text *)

(** The number of white-space-separated tokens of a text, as the
    specification words it: the maximal runs of code units that are not
    white space.  [prev] tells that the previous code unit was white space
    (or that the text starts here). *)
Fixpoint tokens_from (prev : bool) (s : jsstring) : Z :=
  match s with
  | [] => 0
  | c :: s' =>
      if is_space c then tokens_from true s'
      else (if prev then 1 else 0) + tokens_from false s'
  end.

Definition tokens (s : jsstring) : Z := tokens_from true s.

Definition blank (s : jsstring) : bool := forallb is_space s.

(** The cleaned text of [analyzeContent]. *)
Definition cleanText (raw : jsstring) : jsstring := trim (replace_spaces raw).

(** Separator runs met by [split_from], and the state at the end. *)
Fixpoint runs_from (inrun : bool) (s : jsstring) : Z :=
  match s with
  | [] => 0
  | c :: s' =>
      if is_space c then (if inrun then 0 else 1) + runs_from true s'
      else runs_from false s'
  end.

Fixpoint ends_in_space (p : bool) (s : jsstring) : bool :=
  match s with
  | [] => p
  | c :: s' => ends_in_space (is_space c) s'
  end.

(** ** Integers and the range of a score *)

(** A number that is an integer: finite, with no fractional part
    ([Number.isInteger]). *)
Definition is_integer (x : float) : bool :=
  match Prim2SF x with
  | S754_zero _ => true
  | S754_finite _ m e => (0 <=? e) || (Zpos m mod 2 ^ (- e) =? 0)
  | _ => false
  end.

(** The range check, as comparisons of numbers. *)
Definition in_0_100 (x : float) : bool :=
  (0 <=? x)%float && (x <=? 100)%float.

(** ** Real values of binary64 numbers *)

Definition bpow (e : Z) : R := powerRZ 2 e.

(** Position of a real in a unit interval of integers. *)
Definition inbetween (m : Z) (l : location) (v : R) : Prop :=
  match l with
  | loc_Exact => v = IZR m
  | loc_Inexact Lt => (IZR m < v < IZR m + / 2)%R
  | loc_Inexact Eq => v = (IZR m + / 2)%R
  | loc_Inexact Gt => (IZR m + / 2 < v < IZR m + 1)%R
  end.

Definition rec_ok (mrs : shr_record) (v : R) : Prop :=
  0 <= shr_m mrs /\ inbetween (shr_m mrs) (loc_of_shr_record mrs) v.

(** Non-negative representable reals. *)
Definition repr (r : R) : Prop :=
  r = 0%R
  \/ exists m e, SpecFloat.bounded prec emax m e = true /\ r = (IZR (Zpos m) * bpow e)%R.

(** Real value of a binary64 number (0 for NaN and the infinities). *)
Definition SF2R (x : spec_float) : R :=
  match x with
  | S754_finite s m e => (IZR (cond_Zopp s (Zpos m)) * bpow e)%R
  | _ => 0%R
  end.

Definition is_finite_SF (x : spec_float) : bool :=
  match x with
  | S754_zero _ | S754_finite _ _ _ => true
  | _ => false
  end.

Definition B2R (x : float) : R := SF2R (Prim2SF x).

Definition finite (x : float) : Prop := is_finite_SF (Prim2SF x) = true.

(** Signed representable reals and the outcome of an operation. *)
Definition srepr (r : R) : Prop :=
  exists f, valid_binary f = true /\ is_finite_SF f = true /\ SF2R f = r.

Definition SFbetween (lo hi : R) (z : spec_float) : Prop :=
  valid_binary z = true /\ is_finite_SF z = true /\ (lo <= SF2R z <= hi)%R.

Definition fbetween (lo hi : R) (x : float) : Prop :=
  finite x /\ (lo <= B2R x <= hi)%R.

(** ** Sequences of saves, of requests and of users *)

(** A sequence of saves, each with the time of the clock. *)
Definition save_all (st : MemStorage) (l : list (Z * Analysis)) : MemStorage :=
  fold_left (fun st p => fst (saveSeoAnalysis st (fst p) (snd p))) l st.

(** The records that a sequence of saves gives, when the first of them gets
    the id [i]. *)
Fixpoint records_from (i : Z) (l : list (Z * Analysis)) : list (Z * SeoAnalysis) :=
  match l with
  | [] => []
  | (now, a) :: l' =>
      (i, {| sa_analysis := a; sa_id := i; sa_createdAt := now |})
      :: records_from (i + 1) l'
  end.

Definition create_all (st : UserStorage) (l : list InsertUser) : UserStorage :=
  fold_left (fun st u => fst (createUser st u)) l st.

Definition stored_urls (st : MemStorage) : list jsstring :=
  map (fun kv => url (sa_analysis (snd kv))) (seoAnalyses st).

(** The events that leave the [i]-th handler where it is. *)
Definition others (i : nat) (evs : list event) : Prop :=
  Forall (fun ev => match ev with
                    | Resume j _ _ => j <> i
                    | Request _ => True
                    end) evs.

(** The stores that the requests build: the records are numbered from 1 in
    the order of their saves, and their URLs passed the validation. *)
Definition store_inv (urlSchema_parse : jsstring -> bool) (st : MemStorage)
    : Prop :=
  exists l,
    seoAnalyses st = records_from 1 l
    /\ seoAnalysisCurrentId st = count l + 1
    /\ Forall (fun p => urlSchema_parse (url (snd p)) = true) l.

(** The record is in the store, under its id. *)
Definition stored (st : MemStorage) (r : SeoAnalysis) : Prop :=
  In (sa_id r, r) (seoAnalyses st).

(** What holds of a handler at each of its [await]s and after its answer:
    the URL it works on is the one of the request and passed the
    validation, an analysis it found is the one the store still gives for
    the URL, a record it saved is in the store, and its answer is 400 for a
    URL that failed the validation, 200 with a record of the store for the
    URL, or 500. *)
Definition handler_inv (urlSchema_parse : jsstring -> bool) (st : MemStorage)
    (rh : option jsstring * handler) : Prop :=
  match rh with
  | (Some u, Await_lookup u' existing) =>
      u' = u /\ urlSchema_parse u = true
      /\ forall r, existing = Some r -> getSeoAnalysisByUrl st u = Some r
  | (Some u, Await_fetch u') => u' = u /\ urlSchema_parse u = true
  | (Some u, Await_analysis (inr a)) => url a = u /\ urlSchema_parse u = true
  | (Some u, Await_analysis (inl _)) => urlSchema_parse u = true
  | (Some u, Await_save r) =>
      url (sa_analysis r) = u /\ urlSchema_parse u = true /\ stored st r
  | (Some u, Answered res) =>
      match res_body res with
      | J_analysis r =>
          res_status res = 200 /\ url (sa_analysis r) = u
          /\ urlSchema_parse u = true /\ stored st r
      | J_message _ =>
          (res_status res = 400 /\ urlSchema_parse u = false)
          \/ (res_status res = 500 /\ urlSchema_parse u = true)
      | J_analyses _ => False
      end
  | (None, h) =>
      exists message, h = Answered {| res_status := 400; res_body := J_message message |}
  end.

(** The handlers that are past the call of [saveSeoAnalysis] or have
    answered. *)
Definition past_save (rh : option jsstring * handler) : bool :=
  match snd rh with
  | Await_save _ | Answered _ => true
  | _ => false
  end.

Definition server_inv (urlSchema_parse : jsstring -> bool) (s : server) : Prop :=
  store_inv urlSchema_parse (storage s)
  /\ Forall (handler_inv urlSchema_parse (storage s)) (handlers s)
  /\ count (seoAnalyses (storage s)) <= count (filter past_save (handlers s)).

Definition is_request (ev : event) : bool :=
  match ev with
  | Request _ => true
  | Resume _ _ _ => false
  end.

(** A handler that found the analysis answers with it, and does nothing
    else. *)
Definition serves (first : SeoAnalysis) (u : jsstring)
    (rh : option (option jsstring * handler)) : Prop :=
  rh = Some (Some u, Await_lookup u (Some first))
  \/ rh = Some (Some u, Answered (json 200 (J_analysis first))).

(** The users that a sequence of [createUser] gives, when the first of
    them gets the id [i]. *)
Definition mk_user (id : Z) (u : InsertUser) : User :=
  {| user_username := username u; user_password := password u; user_id := id |}.

Fixpoint users_from (i : Z) (l : list InsertUser) : list (Z * User) :=
  match l with
  | [] => []
  | u :: l' => (i, mk_user i u) :: users_from (i + 1) l'
  end.

(** ** Images, findings and points *)

(** An image whose source the images extractor can make absolute: it starts
    with "http", or the [URL] constructor resolves it against the page. *)
Definition img_resolves (URL_href : jsstring -> jsstring -> option jsstring)
    (url : jsstring) (el : element) : bool :=
  startsWith (src_of el) (lit "http")
  || match URL_href (src_of el) url with Some _ => true | None => false end.

(** A finding of the given type is in the list. *)
Definition has_type (ty : string) (l : list finding) : bool :=
  existsb (fun f => String.eqb (f_type f) ty) l.

(** The points of the meta tags score that go with a status: 20 for a
    title or description of a good length, 15 for one that is too short or
    too long; the given points for a tag that is present. *)
Definition length_points (s : status) : Z :=
  match s with
  | good => 20
  | too_short | too_long => 15
  | _ => 0
  end.

Definition presence_points (points : Z) (s : status) : Z :=
  match s with
  | present => points
  | _ => 0
  end.

(** ** The printed load time *)

(** [x.toFixed(1)] prints the integer [n] for which [n / 10 - x] is
    closest to zero, the larger one if there are two, with one digit after
    the point; this is [n] for a number [x >= 0] below [10^21]. *)
Definition tenths (x : float) : Z :=
  match Prim2SF x with
  | S754_finite false m e =>
      if 0 <=? e then 10 * Zpos m * 2 ^ e
      else (2 * (10 * Zpos m) + 2 ^ (- e)) / 2 ^ (- e + 1)
  | _ => 0
  end.

(** What [parseFloat] reads back from this text: the number nearest to
    [n / 10]. *)
Definition parse_tenths (n : Z) : float := (Z2f n / Z2f 10)%float.

(** The points that the performance score loses for the number of
    resources, the resource count and the estimated load time together, and
    for the number of scripts. *)
Definition resource_penalty (totalResources : Z) : Z :=
  if 50 <? totalResources then 60
  else if 30 <? totalResources then 50
  else if 25 <? totalResources then 40
  else if 15 <? totalResources then 25
  else if 5 <? totalResources then 5
  else 0.

Definition script_penalty (scriptCount : Z) : Z :=
  if 15 <? scriptCount then 15
  else if 10 <? scriptCount then 10
  else if 5 <? scriptCount then 5
  else 0.

(** A critical issue of the given type and severity is in the list. *)
Definition has_issue (ty severity : string) (l : list finding) : bool :=
  existsb
    (fun f =>
       String.eqb (f_type f) ty
       && match f_severity f with
          | Some s => String.eqb s severity
          | None => false
          end)
    l.

(** The points of the content score for the number of words and for the
    paragraphs. *)
Definition word_points (wordCount : Z) : Z :=
  if 1000 <? wordCount then 30
  else if 500 <? wordCount then 20
  else if 300 <? wordCount then 10
  else 0.

Definition paragraph_points (wordCount paragraphCount : Z) : Z :=
  if (0 <? paragraphCount) && (wordCount <? 150 * paragraphCount) then 20
  else if 0 <? paragraphCount then 10
  else 0.

(** ** A host for concrete pages

    A page given by the elements each selector matches, and stand-ins for
    the host functions: every URL is its own origin, an href that contains
    white space does not resolve and any other is appended to the base,
    only ASCII letters change case, and numbers print as the empty string. *)
Module Host.

Definition page (sels : list (string * selection)) : jsstring -> cheerio :=
  fun _ sel =>
    match find (fun kv => String.eqb (fst kv) sel) sels with
    | Some kv => snd kv
    | None => []
    end.

Definition origin (u : jsstring) : option jsstring := Some u.

Definition href (h base : jsstring) : option jsstring :=
  if existsb is_space h then None else Some (base ++ h)%list.

Definition lower (s : jsstring) : jsstring :=
  map (fun c => if (65 <=? c)%N && (c <=? 90)%N then (c + 32)%N else c) s.

Definition fixed1 (x : float) : jsstring := [].
Definition parse (s : jsstring) : float := 0%float.
Definition print (x : float) : jsstring := [].

Definition el (attrs : list (string * string)) (txt : string) : element :=
  {| attribs := map (fun kv => (fst kv, lit (snd kv))) attrs;
     el_text := lit txt |}.

End Host.

(** ** Sample pages *)

Definition two_images_page : jsstring -> cheerio :=
  Host.page [("img", [Host.el [("src", "a.png"); ("alt", "logo")] "";
                      Host.el [("src", "b.png")] ""])].

(** A page with one image, whose [src] has a space in the host. *)
Definition malformed_img_page : jsstring -> cheerio :=
  Host.page [("img", [Host.el [("src", "//a b/x.png")] ""])].

Definition anchors_page : jsstring -> cheerio :=
  Host.page [("a", [Host.el [("href", "#")] "top";
                    Host.el [("href", "javascript:void(0)")] "menu";
                    Host.el [("href", "/about")] "About us";
                    Host.el [("href", "bad link")] "broken";
                    Host.el [] "no href";
                    Host.el [("href", "http://other.org/")] "elsewhere"])].

Definition empty_page : jsstring -> cheerio :=
  Host.page [("body", [Host.el [] ""])].

(** A page whose body is the one sentence "Hi.". *)
Definition hi_page : jsstring -> cheerio :=
  Host.page [("title", [Host.el [] "Hi"]);
             ("body", [Host.el [] "Hi."])].

Definition hi_report : result Analysis :=
  analyzeSEO hi_page Host.origin Host.href Host.lower Host.fixed1 Host.parse
    Host.print [] (lit "https://example.com").

(** ** More sample pages and stand-ins of the host *)

Definition other_report : result Analysis :=
  analyzeSEO hi_page Host.origin Host.href Host.lower Host.fixed1 Host.parse
    Host.print [] (lit "https://example.org").

(** A page with six scripts and one image. *)
Definition scripts_page : jsstring -> cheerio :=
  Host.page [("script", [Host.el [] ""; Host.el [] ""; Host.el [] "";
                         Host.el [] ""; Host.el [] ""; Host.el [] ""]);
             ("img", [Host.el [("src", "a.png"); ("alt", "logo")] ""])].

(** A validation that accepts the strings that start with "http", and the
    message of the TypeError. *)
Definition sample_urlSchema_parse (u : jsstring) : bool :=
  startsWith u (lit "http").

Definition sample_Error_message (e : error) : jsstring := lit "Invalid URL".

(** The decimal digits of a number of tenths, with the point, and their
    reading. *)
Fixpoint digits_of (fuel : nat) (n : Z) (acc : jsstring) : jsstring :=
  match fuel with
  | O => acc
  | S fuel' =>
      let acc' := Z.to_N (48 + n mod 10) :: acc in
      if n / 10 =? 0 then acc' else digits_of fuel' (n / 10) acc'
  end.

Definition sample_toFixed1 (x : float) : jsstring :=
  digits_of 400 (tenths x / 10) [] ++ lit "." ++ digits_of 1 (tenths x mod 10) [].

Definition sample_parseFloat (s : jsstring) : float :=
  parse_tenths
    (fold_left
       (fun n c => if (48 <=? c)%N && (c <=? 57)%N then 10 * n + (Z.of_N c - 48)
                   else n)
       s 0).

Definition scripts_report : result Analysis :=
  analyzeSEO scripts_page Host.origin Host.href Host.lower sample_toFixed1
    sample_parseFloat Host.print [] (lit "https://example.com").

(** A library that refuses every value that is not a string. *)
Definition sample_extract_json (v : json_value) (u : jsstring)
    : thrown + extracted :=
  inl (Error (lit "cheerio.load() expects a string")).

Definition sample_run : server -> list event -> server :=
  run hi_page Host.origin Host.href Host.lower Host.fixed1 Host.parse
    Host.print sample_urlSchema_parse sample_Error_message sample_extract_json.

(** Three requests: for a page, for another page, and for the first page
    again at a time when the request for it runs into the timeout. *)
Definition rq_first : request :=
  {| rq_url := Some (lit "https://example.com");
     rq_fetched := AxiosResponse (Data_string []);
     rq_now := 1000 |}.

Definition rq_other : request :=
  {| rq_url := Some (lit "https://example.org");
     rq_fetched := AxiosResponse (Data_string []);
     rq_now := 2000 |}.

Definition rq_again : request :=
  {| rq_url := Some (lit "https://example.com");
     rq_fetched := AxiosError (Some "ECONNABORTED") None;
     rq_now := 3000 |}.

(** A page with the four kinds of anchors that the links extractor passes
    over - no href, the href [#], a [javascript:] href and an href with a
    space in the host, which the [URL] constructor refuses - between two
    anchors that it keeps. *)
Definition skipped_anchors_page : jsstring -> cheerio :=
  Host.page [("a", [Host.el [("href", "#")] "top";
                    Host.el [("href", "javascript:void(0)")] "menu";
                    Host.el [("href", "/about")] "About us";
                    Host.el [("href", "//a b/x.html")] "broken";
                    Host.el [] "no href";
                    Host.el [("href", "http://other.org/")] "elsewhere"])].

(** A page with one anchor, whose href starts with "http" and has a space
    in the host: the [URL] constructor refuses it. *)
Definition malformed_http_href_page : jsstring -> cheerio :=
  Host.page [("a", [Host.el [("href", "http://a b/")] "broken"])].

(** A page with 40 images, of which 23 have an alt text: 57.5 percent. *)
Definition tie_images_page : jsstring -> cheerio :=
  Host.page
    [("img",
      repeat (Host.el [("src", "a.png"); ("alt", "logo")] "") 23
      ++ repeat (Host.el [("src", "b.png")] "") 17)].

(** * Properties *)

(** Runs an analysis that returns normally and gives its report as the
    witness of an existential [exists r, t = Ok r /\ _]. *)
Ltac exists_report t :=
  let v := eval vm_compute in t in
  match v with
  | Ok ?r => exists r; split; [vm_compute; reflexivity|]
  end.

(** ** Headings: logical structure and status *)

Lemma checkLogicalHeadingStructure_h1 (hs : heading_lists) :
  checkLogicalHeadingStructure hs = true -> count (h1 hs) = 1.
Proof.
  unfold checkLogicalHeadingStructure.
  destruct (count (h1 hs) =? 1) eqn:E; simpl; [intros _ | discriminate].
  now apply Z.eqb_eq.
Qed.

(** C10. Whenever [hasLogicalStructure] holds there is exactly one h1 (so
    [hasProperH1] holds too); the status needs_improvement is returned
    exactly when there is one h1 and the structure is not logical; logical
    structure without exactly one h1 does not occur. *)
Theorem heading_status_needs_improvement_iff
    (cheerio_load : jsstring -> cheerio) (html : jsstring) :
  let a := headings_analysis (extractHeadings cheerio_load html) in
  (hasLogicalStructure a = true -> h1Count a = 1 /\ hasProperH1 a = true)
  /\ (heading_status a = needs_improvement
      <-> h1Count a = 1 /\ hasLogicalStructure a = false)
  /\ ~ (hasLogicalStructure a = true /\ h1Count a <> 1).
Proof.
  cbn zeta. unfold extractHeadings. cbn [headings_analysis h1Count hasProperH1
    hasLogicalStructure heading_status headings h1].
  set (hs := Build_heading_lists _ _ _ _ _ _).
  assert (L := checkLogicalHeadingStructure_h1 hs).
  change (h1 hs) with (collect_headings (cheerio_load html) "h1") in L.
  set (n := count (collect_headings (cheerio_load html) "h1")) in *.
  unfold calculateHeadingStatus.
  destruct (checkLogicalHeadingStructure hs) eqn:E.
  - specialize (L eq_refl). rewrite L. simpl.
    intuition congruence.
  - destruct (n =? 1) eqn:N; simpl.
    + apply Z.eqb_eq in N. intuition congruence.
    + apply Z.eqb_neq in N. intuition congruence.
Qed.

(** ** Mobile score *)

(** C4. The mobile score is 50 for a viewport, plus 25 for media queries,
    plus 25 for responsive indicators, plus 20 when there is a viewport and
    neither of the other two; it never exceeds 100. *)
Theorem mobile_score_formula
    (cheerio_load : jsstring -> cheerio) (html : jsstring) :
  let m := checkMobileFriendliness cheerio_load html in
  let f := features m in
  mobile_score m
  = Z2f ((if hasViewport f then 50 else 0)
         + (if hasMediaQueries f then 25 else 0)
         + (if hasResponsiveIndicators f then 25 else 0)
         + (if hasViewport f && negb (hasMediaQueries f)
               && negb (hasResponsiveIndicators f) then 20 else 0))
  /\ (mobile_score m <=? 100)%float = true
  /\ (forall v q c, (calculateMobileScore v q c <=? 100)%float = true).
Proof.
  cbn zeta. unfold checkMobileFriendliness. rewrite <- and_assoc.
  split; [|intros [] [] []; vm_compute; reflexivity].
  cbn [features mobile_score hasViewport hasMediaQueries hasResponsiveIndicators].
  generalize (0 <? count (cheerio_load html (attr_sel "meta" "name" "viewport"))).
  generalize (includes (text (cheerio_load html "style")) (lit "@media")).
  generalize (includes (or_empty (attr "class" (cheerio_load html "html")))
                (lit "responsive")
              || includes (or_empty (attr "class" (cheerio_load html "body")))
                   (lit "responsive")).
  intros r m v. destruct v, m, r; vm_compute; split; reflexivity.
Qed.

(** ** Images *)

Lemma each_img_hasAlt URL_href url els imgs :
  each_img URL_href url els = Ok imgs ->
  map hasAlt imgs = map (fun el => truthy (alt_of el)) els.
Proof.
  revert imgs. induction els as [|el els IH]; simpl; intros imgs H.
  - now inversion H.
  - destruct (if startsWith _ _ then _ else _) as [fullSrc|]; [|discriminate].
    simpl in H. destruct (each_img URL_href url els) as [rest|]; [|discriminate].
    simpl in H. inversion H; subst; clear H. simpl. f_equal.
    + unfold alt_of, len. now destruct (or_empty _).
    + now apply IH.
Qed.

Lemma count_filter_map {A B} (f : A -> bool) (g : B -> bool) l l' :
  map f l = map g l' -> count (filter f l) = count (filter g l').
Proof.
  revert l'. induction l as [|x l IH]; intros [|y l'] H; try discriminate; auto.
  simpl in H. injection H as Hx Hl. simpl. rewrite Hx.
  specialize (IH _ Hl). unfold count in *.
  destruct (g y); simpl; lia.
Qed.

Lemma count_map_eq {A B C} (f : A -> C) (g : B -> C) l l' :
  map f l = map g l' -> count l = count l'.
Proof.
  intros H. unfold count. f_equal.
  rewrite <- (length_map f l), <- (length_map g l'). now rewrite H.
Qed.

Lemma each_img_throws URL_href url pre el post :
  startsWith (src_of el) (lit "http") = false ->
  URL_href (src_of el) url = None ->
  each_img URL_href url (pre ++ el :: post) = Throw TypeError_InvalidURL.
Proof.
  intros Hs Hr. induction pre as [|p pre IH]; simpl.
  - fold (src_of el). now rewrite Hs, Hr.
  - destruct (if startsWith _ _ then _ else _) as [fullSrc|[]]; [|reflexivity].
    simpl. now rewrite IH.
Qed.

(** C3. An [<img>] whose [src] does not start with "http" and is refused
    by the [URL] constructor makes the images extractor throw, and the whole
    analysis with it: the extractor has no [try] around the constructor,
    unlike the links extractor. *)
Theorem extractImages_throws_on_malformed_src
    (cheerio_load : jsstring -> cheerio)
    (URL_origin : jsstring -> option jsstring)
    (URL_href : jsstring -> jsstring -> option jsstring)
    (toLowerCase : jsstring -> jsstring)
    (toFixed1 : float -> jsstring) (parseFloat : jsstring -> float)
    (Number_toString : float -> jsstring)
    (html url : jsstring) (pre post : selection) (el : element) :
  cheerio_load html "img" = (pre ++ el :: post)%list ->
  startsWith (src_of el) (lit "http") = false ->
  URL_href (src_of el) url = None ->
  extractImages cheerio_load URL_href html url = Throw TypeError_InvalidURL
  /\ analyzeSEO cheerio_load URL_origin URL_href toLowerCase toFixed1
       parseFloat Number_toString html url = Throw TypeError_InvalidURL.
Proof.
  intros Hdoc Hs Hr.
  assert (E : extractImages cheerio_load URL_href html url
              = Throw TypeError_InvalidURL).
  { unfold extractImages. rewrite Hdoc, (each_img_throws _ _ _ _ _ Hs Hr).
    reflexivity. }
  split; [exact E|]. unfold analyzeSEO. now rewrite E.
Qed.

Lemma extractImages_throws_on_malformed_src_witness :
  extractImages malformed_img_page Host.href [] (lit "https://example.com/")
  = Throw TypeError_InvalidURL
  /\ analyzeSEO malformed_img_page Host.origin Host.href Host.lower
       Host.fixed1 Host.parse Host.print [] (lit "https://example.com/")
     = Throw TypeError_InvalidURL.
Proof.
  apply (extractImages_throws_on_malformed_src malformed_img_page Host.origin
           Host.href Host.lower Host.fixed1 Host.parse Host.print [] _ []
           [] (Host.el [("src", "//a b/x.png")] ""));
    reflexivity.
Defined.

(** ** Links *)

Section LinkFacts.

Variable URL_href : jsstring -> jsstring -> option jsstring.
Variable toLowerCase : jsstring -> jsstring.
Variables url baseUrl : jsstring.

Let visit := visit_a URL_href toLowerCase url baseUrl.
Let each := each_a URL_href toLowerCase url baseUrl.

Lemma visit_a_skipped el :
  visit el = None <-> skipped URL_href url el = true.
Proof.
  unfold visit, visit_a, skipped. fold (href_of el).
  destruct (negb (truthy (href_of el)) || startsWith (href_of el) (lit "javascript:")
            || jseqb (href_of el) (lit "#")); simpl; [tauto|].
  destruct (startsWith (href_of el) (lit "http")); simpl.
  - destruct (startsWith (href_of el) baseUrl); split; discriminate.
  - destruct (URL_href (href_of el) url) as [u|]; simpl; [|tauto].
    destruct (startsWith u baseUrl); split; discriminate.
Qed.

Lemma each_a_filter els :
  each els = each (filter (fun el => negb (skipped URL_href url el)) els).
Proof.
  unfold each. induction els as [|el els IH]; [reflexivity|].
  simpl. destruct (skipped URL_href url el) eqn:E; simpl.
  - apply visit_a_skipped in E. unfold visit in E. rewrite E.
    rewrite <- IH. now destruct (each_a _ _ _ _ els).
  - now rewrite <- IH.
Qed.

Lemma each_a_remove pre el post :
  skipped URL_href url el = true ->
  each (pre ++ el :: post) = each (pre ++ post).
Proof.
  intros E. rewrite (each_a_filter (pre ++ el :: post)).
  rewrite (each_a_filter (pre ++ post)), !filter_app.
  cbn [filter]. now rewrite E.
Qed.

Lemma each_a_length els :
  (List.length (fst (each els)) + List.length (snd (each els)))%nat
  = List.length (filter (fun el => negb (skipped URL_href url el)) els).
Proof.
  unfold each. induction els as [|el els IH]; [reflexivity|].
  cbn [each_a filter].
  destruct (each_a URL_href toLowerCase url baseUrl els) as [i e].
  cbn [fst snd] in IH.
  destruct (visit_a URL_href toLowerCase url baseUrl el) as [[l|l]|] eqn:V.
  - destruct (skipped URL_href url el) eqn:E.
    + apply visit_a_skipped in E. unfold visit in E. congruence.
    + cbn [negb fst snd List.length]. lia.
  - destruct (skipped URL_href url el) eqn:E.
    + apply visit_a_skipped in E. unfold visit in E. congruence.
    + cbn [negb fst snd List.length]. lia.
  - apply visit_a_skipped in V. rewrite V. cbn [negb fst snd]. exact IH.
Qed.

Lemma each_a_count els :
  count (fst (each els)) + count (snd (each els))
  = count (filter (fun el => negb (skipped URL_href url el)) els).
Proof.
  unfold count. rewrite <- each_a_length. lia.
Qed.

End LinkFacts.

Lemma http_href_visited URL_href toLowerCase url baseUrl el :
  startsWith (href_of el) (lit "http") = true ->
  skipped URL_href url el = false
  /\ match visit_a URL_href toLowerCase url baseUrl el with
     | Some (inl l) => il_url l = href_of el
     | Some (inr l) => el_url l = href_of el
     | None => False
     end.
Proof.
  unfold skipped, visit_a. fold (href_of el). intros H. rewrite H.
  assert (E : negb (truthy (href_of el))
              || startsWith (href_of el) (lit "javascript:")
              || jseqb (href_of el) (lit "#") = false).
  { destruct (href_of el) as [|c s]; [discriminate|].
    cbn in H |- *. apply andb_true_iff in H. destruct H as [C _].
    apply N.eqb_eq in C. subst c. destruct s; reflexivity. }
  rewrite E. cbn [negb andb orb]. split; [reflexivity|].
  destruct (startsWith (href_of el) baseUrl); reflexivity.
Qed.

(** C7. With a valid source URL the links extractor returns normally
    whatever the anchors are; the anchors with an empty, [javascript:] or
    [#] href, and those whose href does not start with "http" and is
    refused by the [URL] constructor, contribute to neither sequence: the
    two sequences are those of the remaining anchors, one entry for each of
    them, and they are unchanged when such an anchor is taken out of the
    page.  An href that starts with "http" is never given to the
    constructor: its anchor is listed, with the href as it is. *)
Theorem extractLinks_skips_anchors
    (cheerio_load : jsstring -> cheerio)
    (URL_origin : jsstring -> option jsstring)
    (URL_href : jsstring -> jsstring -> option jsstring)
    (toLowerCase : jsstring -> jsstring)
    (html url baseUrl : jsstring) :
  URL_origin url = Some baseUrl ->
  let kept :=
    filter (fun el => negb (skipped URL_href url el)) (cheerio_load html "a") in
  exists facts,
    extractLinks cheerio_load URL_origin URL_href toLowerCase html url = Ok facts
    /\ (links_internal facts, links_external facts)
       = each_a URL_href toLowerCase url baseUrl kept
    /\ count (links_internal facts) + count (links_external facts) = count kept
    /\ totalLinks (links_analysis facts) = count kept
    /\ (forall pre el post,
          cheerio_load html "a" = pre ++ el :: post ->
          skipped URL_href url el = true ->
          (links_internal facts, links_external facts)
          = each_a URL_href toLowerCase url baseUrl (pre ++ post))
    /\ (forall el,
          startsWith (href_of el) (lit "http") = true ->
          skipped URL_href url el = false
          /\ match visit_a URL_href toLowerCase url baseUrl el with
             | Some (inl l) => il_url l = href_of el
             | Some (inr l) => el_url l = href_of el
             | None => False
             end).
Proof.
  intros Ho. cbn zeta. unfold extractLinks. rewrite Ho. simpl.
  assert (F := each_a_filter URL_href toLowerCase url baseUrl
                 (cheerio_load html "a")).
  assert (C := each_a_count URL_href toLowerCase url baseUrl
                 (cheerio_load html "a")).
  assert (D := fun pre el post =>
                 each_a_remove URL_href toLowerCase url baseUrl pre el post).
  assert (K := http_href_visited URL_href toLowerCase url baseUrl).
  destruct (each_a URL_href toLowerCase url baseUrl (cheerio_load html "a"))
    as [i e] eqn:A.
  eexists. split; [reflexivity|]. simpl in *.
  repeat split; auto; try (now apply K).
  intros pre el post Hd Hs. rewrite <- (D pre el post Hs), <- Hd. now symmetry.
Qed.

Lemma extractLinks_skips_anchors_witness :
  exists facts,
    extractLinks skipped_anchors_page Host.origin Host.href Host.lower []
      (lit "https://example.com") = Ok facts
    /\ map il_url (links_internal facts) = [lit "https://example.com/about"]
    /\ map el_url (links_external facts) = [lit "http://other.org/"]
    /\ totalLinks (links_analysis facts) = 2.
Proof.
  destruct (extractLinks_skips_anchors skipped_anchors_page Host.origin
              Host.href Host.lower [] (lit "https://example.com") _ eq_refl)
    as (facts & E & L & _ & T & _).
  exists facts. split; [exact E|].
  injection L as Li Le. rewrite Li, Le, T. repeat split.
Defined.

(** An anchor whose href starts with "http" and is refused by the [URL]
    constructor is not passed over: the href is never given to the
    constructor, and the anchor is listed as an external link. *)
Lemma malformed_http_href_kept :
  Host.href (lit "http://a b/") (lit "https://example.com") = None
  /\ exists facts,
       extractLinks malformed_http_href_page Host.origin Host.href Host.lower []
         (lit "https://example.com") = Ok facts
       /\ links_internal facts = []
       /\ map el_url (links_external facts) = [lit "http://a b/"]
       /\ totalLinks (links_analysis facts) = 1.
Proof.
  split; [reflexivity|].
  exists_report (extractLinks malformed_http_href_page Host.origin Host.href
                   Host.lower [] (lit "https://example.com")).
  vm_compute. repeat split.
Qed.

(** ** The overall score *)


Section Report.

Variable cheerio_load : jsstring -> cheerio.
Variable URL_origin : jsstring -> option jsstring.
Variable URL_href : jsstring -> jsstring -> option jsstring.
Variable toLowerCase : jsstring -> jsstring.
Variable toFixed1 : float -> jsstring.
Variable parseFloat : jsstring -> float.
Variable Number_toString : float -> jsstring.

Let analyze :=
  analyzeSEO cheerio_load URL_origin URL_href toLowerCase toFixed1 parseFloat
    Number_toString.

(** The report carries the facts of the seven extractors. *)
Lemma analyzeSEO_facts html url r :
  analyze html url = Ok r ->
  metaTags r = extractMetaTags cheerio_load html url
  /\ a_headings r = extractHeadings cheerio_load html
  /\ extractImages cheerio_load URL_href html url = Ok (a_images r)
  /\ extractLinks cheerio_load URL_origin URL_href toLowerCase html url
     = Ok (links r)
  /\ performanceMetrics r
     = estimatePerformance cheerio_load toFixed1 parseFloat Number_toString html
  /\ mobileScore r = mobile_score (checkMobileFriendliness cheerio_load html)
  /\ contentAnalysis r = analyzeContent cheerio_load toFixed1 html
  /\ metaTagsScore r = meta_score (metaTags r)
  /\ contentScore r = content_score (contentAnalysis r)
  /\ performanceScore r = perf_score (performanceMetrics r)
  /\ linksScore r = linksProxy (links r)
  /\ seoScore r
     = calculateOverallScore (metaTagsScore r) (headingsProxy (a_headings r))
         (altTextPercentage (images_analysis (a_images r))) (linksScore r)
         (performanceScore r) (mobileScore r) (contentScore r).
Proof.
  unfold analyze, analyzeSEO. intros H.
  destruct (extractImages cheerio_load URL_href html url) as [im|]; [|discriminate].
  cbn [bind] in H.
  destruct (extractLinks cheerio_load URL_origin URL_href toLowerCase html url)
    as [li|]; [|discriminate].
  cbn [bind] in H. inversion H; subst r; clear H. cbn.
  repeat split.
Qed.



End Report.


(** ** Word count *)

Lemma collapse_blank_in_run s :
  blank s = true -> collapse_from true s = [].
Proof.
  induction s as [|c s IH]; simpl; [reflexivity|].
  destruct (is_space c); simpl; [exact IH | discriminate].
Qed.

Lemma cleanText_blank raw : blank raw = true -> cleanText raw = [].
Proof.
  unfold cleanText, replace_spaces. destruct raw as [|c s]; [reflexivity|].
  simpl. destruct (is_space c); simpl; [|discriminate].
  intros H. now rewrite collapse_blank_in_run.
Qed.

Lemma split_from_count inrun cur s :
  count (split_from is_space inrun cur s) = 1 + runs_from inrun s.
Proof.
  unfold count. revert inrun cur.
  induction s as [|c s IH]; intros inrun cur; cbn [split_from runs_from];
    [reflexivity|].
  destruct (is_space c).
  - destruct inrun.
    + rewrite IH. lia.
    + cbn [List.length]. rewrite Nat2Z.inj_succ, IH. lia.
  - apply IH.
Qed.

Lemma runs_tokens (p : bool) (s : jsstring) :
  (if p then 1 else 0) + runs_from p s
  = tokens_from p s + (if ends_in_space p s then 1 else 0).
Proof.
  revert p. induction s as [|c s IH]; intros p;
    cbn [runs_from tokens_from ends_in_space]; [lia|].
  destruct (is_space c).
  - specialize (IH true). cbv iota in IH.
    destruct p, (ends_in_space true s); lia.
  - specialize (IH false). cbv iota in IH.
    destruct p, (ends_in_space false s); lia.
Qed.

Lemma ends_in_space_app p s c :
  ends_in_space p (s ++ [c]) = is_space c.
Proof.
  revert p. induction s as [|d s IH]; intros p; simpl; [reflexivity|apply IH].
Qed.

Lemma trimStart_head s :
  match trimStart s with [] => True | c :: _ => is_space c = false end.
Proof.
  induction s as [|c s IH]; simpl; [exact I|].
  destruct (is_space c) eqn:E; [exact IH | exact E].
Qed.

Lemma trimStart_suffix s : exists p, s = p ++ trimStart s.
Proof.
  induction s as [|c s [p IH]]; simpl; [now exists []|].
  destruct (is_space c); [|now exists []].
  exists (c :: p). simpl. now f_equal.
Qed.

(** A trimmed text is empty, or starts and ends with a code unit that is
    not white space. *)
Lemma trim_shape s :
  trim s = []
  \/ exists c t, trim s = c :: t /\ is_space c = false
                 /\ ends_in_space false (c :: t) = false.
Proof.
  unfold trim. assert (Hy := trimStart_head s).
  set (y := trimStart s) in *.
  assert (Hz := trimStart_head (rev y)).
  destruct (trimStart_suffix (rev y)) as [p Hp].
  set (z := trimStart (rev y)) in *.
  destruct z as [|d z']; [now left|]. right.
  assert (E : y = rev z' ++ d :: rev p).
  { rewrite <- (rev_involutive y), Hp, rev_app_distr. simpl.
    now rewrite <- app_assoc. }
  simpl. destruct (rev z') as [|c t] eqn:R.
  - simpl in *. rewrite E in Hy. exists d, []. simpl. auto.
  - exists c, (t ++ [d]). rewrite E in Hy. simpl in Hy. simpl. repeat split; auto.
    rewrite ends_in_space_app. exact Hz.
Qed.

(** On a page whose body has some text, [wordCount] is the number of
    tokens of the cleaned text. *)
Lemma wordCount_tokens raw :
  cleanText raw <> [] ->
  count (split is_space (cleanText raw)) = tokens (cleanText raw).
Proof.
  unfold cleanText. intros N.
  destruct (trim_shape (replace_spaces raw)) as [E|(c & t & E & Hc & He)];
    [contradiction|].
  rewrite E. unfold split, tokens. rewrite split_from_count.
  assert (R := runs_tokens false (c :: t)). rewrite He in R.
  cbn [runs_from tokens_from] in *. rewrite Hc in *. lia.
Qed.

(** C5. A page whose body has no text, or only white space, has
    [wordCount] 1: splitting the empty cleaned text gives one empty piece. *)
Theorem wordCount_of_blank_body
    (cheerio_load : jsstring -> cheerio) (toFixed1 : float -> jsstring)
    (html : jsstring) :
  blank (text (cheerio_load html "body")) = true ->
  wordCount (metrics (analyzeContent cheerio_load toFixed1 html)) = 1
  /\ tokens (cleanText (text (cheerio_load html "body"))) = 0.
Proof.
  intros B. unfold analyzeContent. cbn [metrics wordCount].
  fold (cleanText (text (cheerio_load html "body"))).
  rewrite (cleanText_blank _ B). split; reflexivity.
Qed.

Lemma wordCount_of_blank_body_witness :
  blank (text (empty_page [] "body")) = true
  /\ wordCount (metrics (analyzeContent empty_page Host.fixed1 [])) = 1
  /\ tokens (cleanText (text (empty_page [] "body"))) = 0.
Proof.
  split; [reflexivity|].
  apply (wordCount_of_blank_body empty_page Host.fixed1 []). reflexivity.
Defined.

(** ** Binary64 arithmetic: real values and rounding *)

Lemma bpow_gt_0 e : (0 < bpow e)%R.
Proof. apply powerRZ_lt. lra. Qed.

Lemma bpow_add a b : bpow (a + b) = (bpow a * bpow b)%R.
Proof. apply powerRZ_add. lra. Qed.

Lemma bpow_0 : bpow 0 = 1%R.
Proof. reflexivity. Qed.

Lemma bpow_1 : bpow 1 = 2%R.
Proof. unfold bpow. simpl. lra. Qed.

Lemma bpow_IZR k : 0 <= k -> bpow k = IZR (2 ^ k).
Proof.
  intros Hk. unfold bpow. rewrite <- (Z2Nat.id k Hk) at 1 2.
  rewrite <- pow_powerRZ, <- pow_IZR. reflexivity.
Qed.

Lemma bpow_ge_1 k : 0 <= k -> (1 <= bpow k)%R.
Proof.
  intros Hk. rewrite bpow_IZR by assumption. apply IZR_le.
  assert (0 < 2 ^ k) by (apply Z.pow_pos_nonneg; lia). lia.
Qed.

Lemma bpow_le a b : a <= b -> (bpow a <= bpow b)%R.
Proof.
  intros H. replace b with (a + (b - a)) by lia. rewrite bpow_add.
  assert (H1 := bpow_ge_1 (b - a)). assert (H0 := bpow_gt_0 a).
  specialize (H1 ltac:(lia)). nra.
Qed.

Lemma bpow_lt a b : a < b -> (bpow a < bpow b)%R.
Proof.
  intros H. replace b with (a + 1 + (b - a - 1)) by lia.
  rewrite !bpow_add, bpow_1.
  assert (H1 := bpow_ge_1 (b - a - 1) ltac:(lia)). assert (H0 := bpow_gt_0 a).
  nra.
Qed.

Lemma bpow_lt_inv a b : (bpow a < bpow b)%R -> a < b.
Proof.
  intros H. destruct (Z_lt_le_dec a b) as [L|L]; [exact L|].
  apply bpow_le in L. lra.
Qed.

Lemma bpow_opp e : bpow (- e) = (/ bpow e)%R.
Proof.
  assert (H := bpow_add e (- e)). rewrite Z.add_opp_diag_r, bpow_0 in H.
  assert (H0 := bpow_gt_0 e). apply Rmult_eq_reg_l with (bpow e); [|lra].
  rewrite <- H. field. lra.
Qed.

(** Number of binary digits. *)
Lemma digits2_pos_size p : digits2_pos p = Pos.size p.
Proof. induction p; simpl; congruence. Qed.

Lemma digits2_bounds p :
  2 ^ (Zpos (digits2_pos p) - 1) <= Zpos p < 2 ^ Zpos (digits2_pos p).
Proof.
  rewrite digits2_pos_size. split.
  - assert (H := Pos.size_le p).
    assert (E : 2 ^ Zpos (Pos.size p) = 2 * 2 ^ (Zpos (Pos.size p) - 1)).
    { rewrite <- Z.pow_succ_r by lia. f_equal. lia. }
    assert (H' : 2 ^ Zpos (Pos.size p) <= 2 * Zpos p).
    { change (2 * Zpos p) with (Zpos p~0). rewrite <- Pos2Z.inj_pow. exact H. }
    lia.
  - rewrite <- Pos2Z.inj_pow. apply Pos.size_gt.
Qed.

Lemma digits2_bpow p :
  (bpow (Zpos (digits2_pos p) - 1) <= IZR (Zpos p) < bpow (Zpos (digits2_pos p)))%R.
Proof.
  destruct (digits2_bounds p) as [L U].
  rewrite !bpow_IZR by lia. split; [apply IZR_le | apply IZR_lt]; assumption.
Qed.

Lemma inbetween_bounds m l v :
  inbetween m l v -> (IZR m <= v < IZR m + 1)%R.
Proof. destruct l as [|[]]; simpl; lra. Qed.

Lemma rec_of_loc m l v :
  0 <= m -> inbetween m l v -> rec_ok (shr_record_of_loc m l) v.
Proof.
  intros Hm H. split; destruct l as [|[]]; simpl; auto.
Qed.

Lemma IZR_xO p : IZR (Zpos p~0) = (2 * IZR (Zpos p))%R.
Proof. rewrite Pos2Z.inj_xO, mult_IZR. reflexivity. Qed.

Lemma IZR_xI p : IZR (Zpos p~1) = (2 * IZR (Zpos p) + 1)%R.
Proof. rewrite Pos2Z.inj_xI, plus_IZR, mult_IZR. reflexivity. Qed.

Lemma shr_1_ok mrs v : rec_ok mrs v -> rec_ok (shr_1 mrs) (v / 2).
Proof.
  destruct mrs as [m r s]. unfold rec_ok.
  cbn [shr_m loc_of_shr_record]. intros [Hm H].
  destruct m as [|p|p]; [| |lia].
  - destruct r, s; cbn [shr_1 shr_m loc_of_shr_record inbetween orb] in *;
      (split; [lia | lra]).
  - destruct p as [p|p|];
      [assert (E := IZR_xI p) | assert (E := IZR_xO p) | ];
      destruct r, s;
      cbn [shr_1 shr_m loc_of_shr_record inbetween orb] in *;
      (split; [lia | lra]).
Qed.

Lemma iter_shr_1_ok n : forall mrs v,
  rec_ok mrs v -> rec_ok (SpecFloat.iter_pos shr_1 n mrs) (v * bpow (- Zpos n)).
Proof.
  induction n as [n IH|n IH|]; intros mrs v H; cbn [SpecFloat.iter_pos].
  - replace (v * bpow (- Zpos n~1))%R
      with (v / 2 * bpow (- Zpos n) * bpow (- Zpos n))%R.
    + apply IH, IH, shr_1_ok, H.
    + rewrite Pos2Z.inj_xI.
      replace (- (2 * Zpos n + 1)) with (- Zpos n + - Zpos n + - (1)) by lia.
      rewrite !bpow_add, (bpow_opp 1), bpow_1. lra.
  - replace (v * bpow (- Zpos n~0))%R
      with (v * bpow (- Zpos n) * bpow (- Zpos n))%R.
    + apply IH, IH, H.
    + rewrite Pos2Z.inj_xO.
      replace (- (2 * Zpos n)) with (- Zpos n + - Zpos n) by lia.
      rewrite !bpow_add. lra.
  - replace (v * bpow (- Zpos 1))%R with (v / 2)%R.
    + apply shr_1_ok, H.
    + rewrite (bpow_opp 1), bpow_1. lra.
Qed.

(** [shr]: a shift by [n >= 0] places divides the value by [2^n]. *)
Lemma shr_ok mrs e n v :
  0 <= n -> rec_ok mrs v ->
  rec_ok (fst (shr mrs e n)) (v * bpow (- n)) /\ snd (shr mrs e n) = e + n.
Proof.
  intros Hn H. destruct n as [|p|p]; [| |lia]; cbn [shr fst snd].
  - change (- 0) with 0. rewrite bpow_0, Rmult_1_r, Z.add_0_r. auto.
  - split; [|reflexivity]. now apply iter_shr_1_ok.
Qed.

(** Rounding to nearest even lies between the floor and the ceiling. *)
Lemma round_nearest_even_ok m l v :
  inbetween m l v ->
  let m1 := round_nearest_even m l in
  m <= m1 <= m + 1
  /\ (forall k, (IZR k <= v)%R -> k <= m1)
  /\ (forall k, (v <= IZR k)%R -> m1 <= k).
Proof.
  intros H. assert (B := inbetween_bounds _ _ _ H). cbn zeta.
  assert (Lo : forall k, (IZR k <= v)%R -> k <= m).
  { intros k Hk. assert (IZR k < IZR (m + 1))%R by (rewrite plus_IZR; lra).
    apply lt_IZR in H0. lia. }
  assert (Hi : forall k, (v <= IZR k)%R -> (IZR m < v)%R -> m + 1 <= k).
  { intros k Hk Hv. assert (IZR m < IZR k)%R by lra. apply lt_IZR in H0. lia. }
  assert (Hi0 : forall k, (v <= IZR k)%R -> m <= k).
  { intros k Hk. apply le_IZR. lra. }
  destruct l as [|[]]; simpl in *.
  - repeat split; try lia; intros k Hk; [apply Lo | apply Hi0]; lra.
  - destruct (Z.even m); repeat split; try lia; intros k Hk;
      solve [ apply Lo in Hk; lia | apply Hi in Hk; [lia | lra] ].
  - repeat split; try lia; intros k Hk;
      solve [ apply Lo in Hk; lia | apply Hi0 in Hk; lia ].
  - repeat split; try lia; intros k Hk;
      solve [ apply Lo in Hk; lia | apply Hi in Hk; [lia | lra] ].
Qed.

(** The binary64 format. *)
Lemma fexp_eq e : fexp prec emax e = Z.max (e - 53) (-1074).
Proof. reflexivity. Qed.

Lemma bpow_lit : bpow 53 = 9007199254740992%R /\ bpow 52 = 4503599627370496%R.
Proof. split; rewrite bpow_IZR by lia; reflexivity. Qed.

Lemma Zdigits2_bpow m :
  0 <= m ->
  0 <= Zdigits2 m
  /\ (IZR m < bpow (Zdigits2 m))%R
  /\ (0 < m -> (bpow (Zdigits2 m - 1) <= IZR m)%R).
Proof.
  intros Hm. destruct m as [|p|p]; [| |lia]; cbn [Zdigits2].
  - rewrite bpow_0. repeat split; try lia; lra.
  - destruct (digits2_bpow p). repeat split; auto; lia.
Qed.

Lemma digits2_le p k :
  Zpos p < 2 ^ k -> 0 <= k -> Zpos (digits2_pos p) <= k.
Proof.
  intros H Hk. destruct (digits2_bounds p) as [L _].
  destruct (Z_le_gt_dec (Zpos (digits2_pos p)) k) as [?|G]; [assumption|].
  assert (2 ^ k <= 2 ^ (Zpos (digits2_pos p) - 1))
    by (apply Z.pow_le_mono_r; lia).
  lia.
Qed.

Lemma digits2_ge p k :
  2 ^ k <= Zpos p -> 0 <= k -> k + 1 <= Zpos (digits2_pos p).
Proof.
  intros H Hk. destruct (digits2_bounds p) as [_ U].
  destruct (Z_le_gt_dec (k + 1) (Zpos (digits2_pos p))) as [?|G]; [assumption|].
  assert (2 ^ Zpos (digits2_pos p) <= 2 ^ k)
    by (apply Z.pow_le_mono_r; lia).
  lia.
Qed.

Lemma bounded_inv m e :
  SpecFloat.bounded prec emax m e = true ->
  fexp prec emax (Zpos (digits2_pos m) + e) = e /\ e <= 971.
Proof.
  unfold SpecFloat.bounded, canonical_mantissa. intros H.
  apply andb_true_iff in H. destruct H as [H1 H2].
  apply Z.eqb_eq in H1. apply Z.leb_le in H2. split; [exact H1|].
  exact H2.
Qed.

Lemma bounded_digits m e :
  SpecFloat.bounded prec emax m e = true ->
  Zpos (digits2_pos m) <= 53 /\ -1074 <= e <= 971
  /\ (-1074 < e -> Zpos (digits2_pos m) = 53).
Proof.
  intros H. destruct (bounded_inv _ _ H) as [C E]. rewrite fexp_eq in C. lia.
Qed.

Lemma repr_nonneg r : repr r -> (0 <= r)%R.
Proof.
  intros [->|(m & e & _ & ->)]; [lra|].
  assert (H := bpow_gt_0 e). assert (0 < IZR (Zpos m))%R by (apply IZR_lt; lia).
  nra.
Qed.

(** The second shift of [binary_round_aux], after rounding. *)
Lemma second_shift sx m1 e1 :
  0 < m1 <= 2 ^ 53 -> -1074 <= e1 -> (-1074 < e1 -> 2 ^ 52 <= m1) ->
  exists m2 e2,
    (let '(mrs, e) := shr_fexp prec emax m1 e1 loc_Exact in
     match shr_m mrs with
     | Z0 => S754_zero sx
     | Zpos m => if e <=? emax - prec then S754_finite sx m e
                 else S754_infinity sx
     | Zneg _ => S754_nan
     end)
    = (if e2 <=? 971 then S754_finite sx m2 e2 else S754_infinity sx)
    /\ canonical_mantissa prec emax m2 e2 = true
    /\ (IZR (Zpos m2) * bpow e2 = IZR m1 * bpow e1)%R.
Proof.
  intros Hm He Hn. unfold shr_fexp.
  destruct (Z.eq_dec m1 (2 ^ 53)) as [->|N].
  - exists 4503599627370496%positive, (e1 + 1).
    change (Zdigits2 (2 ^ 53)) with 54. rewrite fexp_eq.
    replace (Z.max (54 + e1 - 53) (-1074) - e1) with 1 by lia.
    cbn [shr shr_record_of_loc SpecFloat.iter_pos].
    change (shr_1 {| shr_m := 2 ^ 53; shr_r := false; shr_s := false |})
      with {| shr_m := 4503599627370496; shr_r := false; shr_s := false |}.
    cbn [shr_m]. change (emax - prec) with 971. split; [reflexivity|]. split.
    + unfold canonical_mantissa.
      change (Zpos (digits2_pos 4503599627370496)) with 53.
      rewrite fexp_eq. apply Z.eqb_eq. lia.
    + rewrite bpow_add, bpow_1.
      change (2 ^ 53) with (2 * 4503599627370496). rewrite mult_IZR. lra.
  - destruct m1 as [|p|p]; try lia. exists p, e1.
    assert (D : Zpos (digits2_pos p) <= 53) by (apply digits2_le; lia).
    assert (D' : -1074 < e1 -> 53 <= Zpos (digits2_pos p)).
    { intros G. apply (digits2_ge p 52); [auto | lia]. }
    assert (F : fexp prec emax (Zpos (digits2_pos p) + e1) = e1)
      by (rewrite fexp_eq; lia).
    cbn [Zdigits2]. rewrite F, Z.sub_diag.
    cbn [shr shr_record_of_loc shr_m]. change (emax - prec) with 971.
    split; [reflexivity|]. split; [|reflexivity].
    unfold canonical_mantissa. rewrite F. apply Z.eqb_refl.
Qed.

Lemma IZR_bpow_mul m k : 0 <= k -> IZR (m * 2 ^ k) = (IZR m * bpow k)%R.
Proof. intros Hk. rewrite mult_IZR, bpow_IZR by assumption. reflexivity. Qed.

Lemma bpow_split e1 e2 : bpow e2 = (bpow (e2 - e1) * bpow e1)%R.
Proof. rewrite <- bpow_add. f_equal. lia. Qed.

(** A representable bound is a multiple of [2^e1] whenever it lies in a
    binade at least as high as that of exponent [e1]. *)
Lemma on_grid m e e1 :
  e1 <= e -> exists k, (IZR (Zpos m) * bpow e = IZR k * bpow e1)%R.
Proof.
  intros H. exists (Zpos m * 2 ^ (e - e1)).
  rewrite IZR_bpow_mul by lia. rewrite (bpow_split e1 e). lra.
Qed.

(** The rounding of a non-negative value [v * 2^ex], known through its
    integer part [mx] and location [lx], stays between any two
    representable bounds of the value and does not overflow. *)
Lemma round_aux_ok sx mx ex lx v a b :
  0 <= mx -> inbetween mx lx v ->
  ex <= fexp prec emax (Zdigits2 mx + ex) ->
  repr a -> repr b -> (a <= v * bpow ex <= b)%R ->
  let z := binary_round_aux prec emax sx mx ex lx in
  (z = S754_zero sx /\ (a <= 0)%R)
  \/ exists m e, z = S754_finite sx m e
                 /\ SpecFloat.bounded prec emax m e = true
                 /\ (a <= IZR (Zpos m) * bpow e <= b)%R.
Proof.
  intros Hmx Hin Hn Ha Hb Hab. cbn zeta. unfold binary_round_aux.
  destruct (Zdigits2_bpow mx Hmx) as (Hd0 & Hdu & Hdl).
  assert (Hv := inbetween_bounds _ _ _ Hin).
  set (d := Zdigits2 mx) in *.
  set (e1 := fexp prec emax (d + ex)) in *.
  assert (Fe : e1 = Z.max (d + ex - 53) (-1074)) by apply fexp_eq.
  change (shr_fexp prec emax mx ex lx)
    with (shr (shr_record_of_loc mx lx) ex (e1 - ex)).
  destruct (shr_ok (shr_record_of_loc mx lx) ex (e1 - ex) v ltac:(lia)
              (rec_of_loc _ _ _ Hmx Hin)) as [[Hm' Hin'] He'].
  destruct (shr (shr_record_of_loc mx lx) ex (e1 - ex)) as [mrs' e'].
  cbn [fst snd] in *. assert (Ee : e' = e1) by lia. clear He'. subst e'.
  set (m' := shr_m mrs') in *. set (l' := loc_of_shr_record mrs') in *.
  set (v' := (v * bpow (- (e1 - ex)))%R) in *.
  destruct (round_nearest_even_ok _ _ _ Hin') as (Hm1 & Lo & Hi).
  assert (Hv' := inbetween_bounds _ _ _ Hin').
  remember (round_nearest_even m' l') as m1 eqn:Em1. clear Em1.
  assert (K1 : (v * bpow ex = v' * bpow e1)%R).
  { unfold v'. rewrite Rmult_assoc, <- bpow_add. f_equal. f_equal. lia. }
  assert (P52 := proj2 bpow_lit). assert (P53 := proj1 bpow_lit).
  (* the integer part has at most 53 digits *)
  assert (U : m' < 2 ^ 53).
  { apply lt_IZR. change (2 ^ 53) with 9007199254740992. rewrite <- P53.
    assert (v < bpow d)%R.
    { destruct (Z.eq_dec mx 0) as [->|N].
      - unfold d. change (Zdigits2 0) with 0. rewrite bpow_0. lra.
      - assert (IZR mx + 1 <= bpow d)%R.
        { unfold d in *. rewrite bpow_IZR in * by lia. rewrite <- plus_IZR.
          apply IZR_le. apply lt_IZR in Hdu. lia. }
        lra. }
    assert (v' < bpow (d - (e1 - ex)))%R.
    { unfold v'. replace (d - (e1 - ex)) with (d + - (e1 - ex)) by lia.
      rewrite bpow_add. assert (G := bpow_gt_0 (- (e1 - ex))). nra. }
    assert (bpow (d - (e1 - ex)) <= bpow 53)%R by (apply bpow_le; lia).
    lra. }
  (* above the subnormal range it has exactly 53 digits *)
  assert (L : -1074 < e1 -> 2 ^ 52 <= m').
  { intros G. assert (N : 0 < mx).
    { destruct (Z.eq_dec mx 0) as [E|N]; [|lia].
      exfalso. unfold d in *. rewrite E in *. cbn in Fe. lia. }
    assert (bpow 52 <= v')%R.
    { unfold v'. replace 52 with (d - 1 + - (e1 - ex)) by lia.
      rewrite bpow_add. assert (G' := bpow_gt_0 (- (e1 - ex))).
      specialize (Hdl N). nra. }
    assert (IZR (2 ^ 52) < IZR (m' + 1))%R.
    { change (2 ^ 52) with 4503599627370496. rewrite plus_IZR. lra. }
    apply lt_IZR in H0. lia. }
  (* the rounded value lies between the bounds *)
  assert (S : (a <= IZR m1 * bpow e1 <= b)%R).
  { assert (G1 := bpow_gt_0 e1). rewrite K1 in Hab. split.
    - destruct Ha as [->|(ma & ea & Ba & ->)].
      + assert (0 <= IZR m1)%R by (apply IZR_le; lia). nra.
      + destruct (bounded_digits _ _ Ba) as (Da & Ea & _).
        destruct (Z_le_gt_dec e1 ea) as [C|C].
        * destruct (on_grid ma ea e1 C) as [k Hk]. rewrite Hk in *.
          assert (IZR k <= v')%R by nra.
          apply Lo, IZR_le in H. nra.
        * assert (IZR (Zpos ma) < bpow 53)%R.
          { destruct (digits2_bpow ma) as [_ Ua].
            assert (bpow (Zpos (digits2_pos ma)) <= bpow 53)%R
              by (apply bpow_le; lia). lra. }
          assert (bpow (53 + ea) <= bpow (52 + e1))%R by (apply bpow_le; lia).
          rewrite !bpow_add in H0.
          assert (IZR (2 ^ 52) <= IZR m1)%R by (apply IZR_le; lia).
          change (2 ^ 52) with 4503599627370496 in H1.
          assert (G2 := bpow_gt_0 ea). nra.
    - destruct Hb as [->|(mb & eb & Bb & ->)].
      + assert (v' <= IZR 0)%R by nra. apply Hi in H.
        assert (m1 = 0) by lia. rewrite H0. lra.
      + destruct (bounded_digits _ _ Bb) as (Db & Eb & _).
        assert (C : e1 <= eb).
        { destruct (Z_le_gt_dec e1 (-1074)) as [?|G]; [lia|].
          assert (N : 0 < mx).
          { destruct (Z.eq_dec mx 0) as [E|N]; [|lia].
            exfalso. unfold d in *. rewrite E in *. cbn in Fe. lia. }
          specialize (Hdl N).
          destruct (digits2_bpow mb) as [_ Ub].
          destruct (bounded_inv _ _ Bb) as [Cb _]. rewrite fexp_eq in Cb.
          assert (bpow (d - 1 + ex) < bpow (Zpos (digits2_pos mb) + eb))%R.
          { rewrite !bpow_add. rewrite <- K1 in Hab.
            assert (G2 := bpow_gt_0 ex). assert (G3 := bpow_gt_0 eb). nra. }
          apply bpow_lt_inv in H. lia. }
        destruct (on_grid mb eb e1 C) as [k Hk]. rewrite Hk in *.
        assert (v' <= IZR k)%R by nra.
        apply Hi, IZR_le in H. nra. }
  destruct (Z.eq_dec m1 0) as [Z|NZ].
  - (* the result is a zero *)
    left. subst m1. split; [|lra].
    unfold shr_fexp. cbn [Zdigits2 shr_record_of_loc].
    pose (r0 := {| shr_m := 0; shr_r := false; shr_s := false |}).
    fold r0.
    assert (R0 : rec_ok r0 0) by (split; [cbn; lia | reflexivity]).
    set (n1 := fexp prec emax (0 + e1) - e1).
    destruct (Z_le_gt_dec 0 n1) as [G|G].
    + destruct (shr_ok r0 e1 n1 0 G R0) as [[Q1 Q2] _].
      destruct (shr r0 e1 n1) as [mrs2 e2]. cbn [fst snd] in *.
      apply inbetween_bounds in Q2. rewrite Rmult_0_l in Q2.
      assert (shr_m mrs2 = 0).
      { assert (IZR (shr_m mrs2) < IZR 1)%R by lra. apply lt_IZR in H. lia. }
      now rewrite H.
    + destruct n1; try lia. reflexivity.
  - (* the result is finite *)
    right.
    destruct (second_shift sx m1 e1 ltac:(lia) ltac:(lia) ltac:(lia))
      as (m2 & e2 & E & C2 & V2).
    rewrite E. rewrite <- V2 in S.
    assert (O : e2 <= 971).
    { destruct (Z_le_gt_dec e2 971) as [?|G]; [assumption|]. exfalso.
      unfold canonical_mantissa in C2. apply Z.eqb_eq in C2.
      rewrite fexp_eq in C2.
      assert (D2 : 53 <= Zpos (digits2_pos m2)) by lia.
      destruct (digits2_bpow m2) as [L2 _].
      assert (bpow 52 <= IZR (Zpos m2))%R.
      { assert (bpow 52 <= bpow (Zpos (digits2_pos m2) - 1))%R
          by (apply bpow_le; lia). lra. }
      destruct Hb as [->|(mb & eb & Bb & ->)].
      + assert (G2 := bpow_gt_0 e2). nra.
      + destruct (bounded_digits _ _ Bb) as (Db & Eb & _).
        destruct (digits2_bpow mb) as [_ Ub].
        assert (bpow (Zpos (digits2_pos mb)) <= bpow 53)%R
          by (apply bpow_le; lia).
        assert (bpow (53 + eb) <= bpow (52 + e2))%R by (apply bpow_le; lia).
        rewrite !bpow_add in H1.
        assert (G2 := bpow_gt_0 e2). assert (G3 := bpow_gt_0 eb). nra. }
    exists m2, e2. apply Z.leb_le in O. rewrite O. split; [reflexivity|].
    split; [|exact S].
    unfold SpecFloat.bounded. rewrite C2. exact O.
Qed.

Lemma SF2R_pos m e : (0 < IZR (Zpos m) * bpow e)%R.
Proof.
  assert (H := bpow_gt_0 e). assert (0 < IZR (Zpos m))%R by (apply IZR_lt; lia).
  nra.
Qed.

Lemma SF2R_finite s m e :
  SF2R (S754_finite s m e)
  = (if s then - (IZR (Zpos m) * bpow e) else IZR (Zpos m) * bpow e)%R.
Proof.
  destruct s; cbn [SF2R cond_Zopp]; [|reflexivity].
  change (- Zpos m) with (Zneg m). change (Zneg m) with (- Zpos m).
  rewrite opp_IZR. lra.
Qed.

(** Canonical mantissas and exponents are ordered like the values. *)
Lemma compare_canonical m1 e1 m2 e2 :
  SpecFloat.bounded prec emax m1 e1 = true ->
  SpecFloat.bounded prec emax m2 e2 = true ->
  match (match Z.compare e1 e2 with
         | Lt => Lt
         | Gt => Gt
         | Eq => Pos.compare_cont Eq m1 m2
         end) with
  | Lt => (IZR (Zpos m1) * bpow e1 < IZR (Zpos m2) * bpow e2)%R
  | Eq => (IZR (Zpos m1) * bpow e1 = IZR (Zpos m2) * bpow e2)%R
  | Gt => (IZR (Zpos m2) * bpow e2 < IZR (Zpos m1) * bpow e1)%R
  end.
Proof.
  intros B1 B2.
  assert (X : forall ma ea mb eb,
             SpecFloat.bounded prec emax ma ea = true ->
             SpecFloat.bounded prec emax mb eb = true -> ea < eb ->
             (IZR (Zpos ma) * bpow ea < IZR (Zpos mb) * bpow eb)%R).
  { intros ma ea mb eb Ba Bb L.
    destruct (bounded_digits _ _ Ba) as (Da & Ea & _).
    destruct (bounded_digits _ _ Bb) as (Db & Eb & Nb).
    destruct (digits2_bpow ma) as [_ Ua]. destruct (digits2_bpow mb) as [Lb _].
    rewrite Nb in Lb by lia.
    assert (bpow (Zpos (digits2_pos ma)) <= bpow 53)%R by (apply bpow_le; lia).
    assert (bpow (53 + ea) <= bpow (53 - 1 + eb))%R by (apply bpow_le; lia).
    rewrite !bpow_add in H0.
    assert (G1 := bpow_gt_0 ea). assert (G2 := bpow_gt_0 eb). nra. }
  destruct (Z.compare_spec e1 e2) as [E|L|L].
  - subst e2. rewrite Pos.compare_cont_spec.
    assert (G := bpow_gt_0 e1).
    destruct (Pos.compare_spec m1 m2) as [E|L|L]; cbn [Pos.switch_Eq].
    + now subst.
    + assert (IZR (Zpos m1) < IZR (Zpos m2))%R
        by (apply IZR_lt, Pos2Z.pos_lt_pos, L). nra.
    + assert (IZR (Zpos m2) < IZR (Zpos m1))%R
        by (apply IZR_lt, Pos2Z.pos_lt_pos, L). nra.
  - now apply X.
  - now apply X.
Qed.

Lemma SFcompare_ok x y :
  valid_binary x = true -> valid_binary y = true ->
  is_finite_SF x = true -> is_finite_SF y = true ->
  exists c, SFcompare x y = Some c
            /\ match c with
               | Lt => (SF2R x < SF2R y)%R
               | Eq => SF2R x = SF2R y
               | Gt => (SF2R y < SF2R x)%R
               end.
Proof.
  intros Vx Vy Fx Fy.
  destruct x as [sx| | |sx mx ex]; try discriminate;
    destruct y as [sy| | |sy my ey]; try discriminate;
    cbn [SFcompare]; rewrite ?SF2R_finite; cbn [SF2R].
  - exists Eq. auto.
  - assert (P := SF2R_pos my ey). destruct sy; eexists; split; try reflexivity;
      cbn; lra.
  - assert (P := SF2R_pos mx ex). destruct sx; eexists; split; try reflexivity;
      cbn; lra.
  - assert (P := SF2R_pos mx ex). assert (Q := SF2R_pos my ey).
    cbn [valid_binary] in Vx, Vy.
    destruct sx, sy; eexists; (split; [reflexivity|]); try (cbn; lra).
    + assert (C := compare_canonical mx ex my ey Vx Vy).
      destruct (ex ?= ey); [destruct (Pos.compare_cont Eq mx my)| |];
        cbn [CompOpp]; lra.
    + assert (C := compare_canonical mx ex my ey Vx Vy).
      destruct (ex ?= ey); [destruct (Pos.compare_cont Eq mx my)| |]; lra.
Qed.

(** ** Primitive floats *)

Lemma leb_B2R x y :
  finite x -> finite y -> ((x <=? y)%float = true <-> (B2R x <= B2R y)%R).
Proof.
  intros Fx Fy. rewrite leb_spec. unfold SFleb, B2R.
  destruct (SFcompare_ok _ _ (Prim2SF_valid x) (Prim2SF_valid y) Fx Fy)
    as (c & -> & H).
  destruct c; split; intros; try easy; lra.
Qed.

Lemma ltb_B2R x y :
  finite x -> finite y -> ((x <? y)%float = true <-> (B2R x < B2R y)%R).
Proof.
  intros Fx Fy. rewrite ltb_spec. unfold SFltb, B2R.
  destruct (SFcompare_ok _ _ (Prim2SF_valid x) (Prim2SF_valid y) Fx Fy)
    as (c & -> & H).
  destruct c; split; intros; try easy; lra.
Qed.

(** A comparison with a finite number that succeeds rules out NaN, and an
    infinity on the wrong side. *)
Lemma leb_finite lo x hi :
  finite lo -> finite hi ->
  (lo <=? x)%float = true -> (x <=? hi)%float = true -> finite x.
Proof.
  unfold finite. rewrite !leb_spec. unfold SFleb.
  destruct (Prim2SF lo) as [sl| | |sl ml el]; try discriminate;
    destruct (Prim2SF hi) as [sh| | |sh mh eh]; try discriminate;
    destruct (Prim2SF x) as [s|[]| |s m e]; cbn; try discriminate; auto.
Qed.

Lemma srepr_0 : srepr 0.
Proof. exists (S754_zero false). repeat split. Qed.

Lemma repr_srepr r : repr r -> srepr r.
Proof.
  intros [->|(m & e & B & ->)]; [apply srepr_0|].
  exists (S754_finite false m e). repeat split. exact B.
Qed.

Lemma srepr_repr r : srepr r -> (0 <= r)%R -> repr r.
Proof.
  intros (f & V & F & <-) H. destruct f as [s| | |s m e]; try discriminate.
  - now left.
  - rewrite SF2R_finite in *. assert (P := SF2R_pos m e).
    destruct s; [lra|]. right. exists m, e. auto.
Qed.

Lemma srepr_opp r : srepr r -> srepr (- r).
Proof.
  intros (f & V & F & <-). exists (SFopp f).
  destruct f as [s| | |s m e]; try discriminate; cbn [SFopp].
  - repeat split. cbn. lra.
  - repeat split; [exact V|]. rewrite !SF2R_finite. destruct s; cbn; lra.
Qed.

Lemma SFbetween_srepr lo hi z : SFbetween lo hi z -> srepr (SF2R z).
Proof. intros (V & F & _). now exists z. Qed.

(** The rounding of a signed value. *)
Lemma round_aux_signed (sx : bool) mx ex lx v lo hi :
  0 <= mx -> inbetween mx lx v ->
  ex <= fexp prec emax (Zdigits2 mx + ex) ->
  srepr lo -> srepr hi ->
  (lo <= (if sx then - (v * bpow ex) else v * bpow ex) <= hi)%R ->
  SFbetween lo hi (binary_round_aux prec emax sx mx ex lx).
Proof.
  intros Hm Hin Hn Hlo Hhi Hb.
  assert (Hv : (0 <= v * bpow ex)%R).
  { apply inbetween_bounds in Hin. assert (G := bpow_gt_0 ex).
    assert (0 <= IZR mx)%R by (apply IZR_le; lia). nra. }
  assert (K : forall a b : R,
             repr a -> repr b -> (a <= v * bpow ex <= b)%R ->
             ((a <= 0)%R -> if sx then (0 <= hi)%R else (lo <= 0)%R) ->
             (if sx then (lo <= - b)%R /\ (- a <= hi)%R
              else (b <= hi)%R /\ (lo <= a)%R) ->
             SFbetween lo hi (binary_round_aux prec emax sx mx ex lx)).
  { intros a b Ra Rb Hab H0 H1.
    destruct (round_aux_ok sx mx ex lx v a b Hm Hin Hn Ra Rb Hab)
      as [[-> Z]|(m & e & -> & B & V)].
    - repeat split; cbn [SF2R]; destruct sx; specialize (H0 Z); lra.
    - repeat split; [exact B| |]; rewrite SF2R_finite; destruct sx; lra. }
  destruct sx.
  - destruct (Rle_dec 0 hi) as [G|G].
    + apply (K 0%R (- lo)%R); [now left | | lra | lra | lra].
      apply srepr_repr; [now apply srepr_opp | lra].
    + apply (K (- hi)%R (- lo)%R); try lra.
      * apply srepr_repr; [now apply srepr_opp | lra].
      * apply srepr_repr; [now apply srepr_opp | lra].
  - destruct (Rle_dec lo 0) as [G|G].
    + apply (K 0%R hi); [now left | | lra | lra | lra].
      apply srepr_repr; [assumption | lra].
    + apply (K lo hi); try lra.
      * apply srepr_repr; [assumption | lra].
      * apply srepr_repr; [assumption | lra].
Qed.

(** *** Multiplication *)

Lemma mul_digits mx my :
  Zpos (digits2_pos mx) + Zpos (digits2_pos my) - 1
  <= Zpos (digits2_pos (mx * my)).
Proof.
  destruct (digits2_bounds mx) as [Lx _]. destruct (digits2_bounds my) as [Ly _].
  set (dx := Zpos (digits2_pos mx)) in *. set (dy := Zpos (digits2_pos my)) in *.
  assert (0 < dx) by (unfold dx; lia). assert (0 < dy) by (unfold dy; lia).
  replace (dx + dy - 1) with ((dx - 1 + (dy - 1)) + 1) by lia.
  apply digits2_ge; [|lia].
  rewrite Z.pow_add_r by lia. rewrite Pos2Z.inj_mul.
  apply Z.mul_le_mono_nonneg; try assumption;
    apply Z.pow_nonneg; lia.
Qed.

Lemma SFmul_ok x y lo hi :
  valid_binary x = true -> valid_binary y = true ->
  is_finite_SF x = true -> is_finite_SF y = true ->
  srepr lo -> srepr hi -> (lo <= SF2R x * SF2R y <= hi)%R ->
  SFbetween lo hi (SFmul prec emax x y).
Proof.
  intros Vx Vy Fx Fy Hlo Hhi H.
  destruct x as [sx| | |sx mx ex]; try discriminate;
    destruct y as [sy| | |sy my ey]; try discriminate;
    cbn [SFmul]; try (cbn [SF2R] in H; repeat split; cbn [SF2R]; lra).
  cbn [valid_binary] in Vx, Vy.
  apply round_aux_signed with (v := IZR (Zpos (mx * my))); auto; try lia.
  - reflexivity.
  - destruct (bounded_digits _ _ Vx) as (Dx & Ex & Nx).
    destruct (bounded_digits _ _ Vy) as (Dy & Ey & Ny).
    assert (M := mul_digits mx my). cbn [Zdigits2]. rewrite fexp_eq. lia.
  - rewrite !SF2R_finite in H. rewrite Pos2Z.inj_mul, mult_IZR, bpow_add.
    destruct sx, sy; cbn [xorb]; lra.
Qed.

(** *** Alignment and normalisation *)

Lemma iter_xO mx d :
  Zpos (Pos.iter xO mx d) = Zpos mx * 2 ^ Zpos d
  /\ Zpos (digits2_pos (Pos.iter xO mx d)) = Zpos (digits2_pos mx) + Zpos d.
Proof.
  induction d as [|d [IH1 IH2]] using Pos.peano_ind.
  - cbn [Pos.iter digits2_pos]. split; lia.
  - rewrite Pos.iter_succ. cbn [digits2_pos].
    rewrite !Pos2Z.inj_succ, Pos2Z.inj_xO, IH1, IH2.
    rewrite Z.pow_succ_r by lia. split; lia.
Qed.

Lemma shl_align_ok mx ex ex' :
  (IZR (Zpos (fst (shl_align mx ex ex'))) * bpow (snd (shl_align mx ex ex'))
   = IZR (Zpos mx) * bpow ex)%R
  /\ Zpos (digits2_pos (fst (shl_align mx ex ex'))) + snd (shl_align mx ex ex')
     = Zpos (digits2_pos mx) + ex
  /\ snd (shl_align mx ex ex') = Z.min ex ex'.
Proof.
  unfold shl_align. destruct (ex' - ex) as [|d|d] eqn:E; cbn [fst snd];
    try (repeat split; lia).
  destruct (iter_xO mx d) as [I1 I2]. rewrite I1, I2.
  assert (Zpos d = ex - ex') by lia. repeat split; try lia.
  rewrite IZR_bpow_mul by lia. rewrite H, (bpow_split ex' ex). lra.
Qed.

Lemma binary_round_ok (sx : bool) mx ex lo hi :
  srepr lo -> srepr hi ->
  (lo <= (if sx then - (IZR (Zpos mx) * bpow ex) else IZR (Zpos mx) * bpow ex)
      <= hi)%R ->
  SFbetween lo hi (binary_round prec emax sx mx ex).
Proof.
  intros Hlo Hhi H. unfold binary_round.
  destruct (shl_align_ok mx ex (fexp prec emax (Zpos (digits2_pos mx) + ex)))
    as (V & D & E).
  destruct (shl_align mx ex _) as [mz ez]. cbn [fst snd] in *.
  apply round_aux_signed with (v := IZR (Zpos mz)); auto; try lia.
  - reflexivity.
  - cbn [Zdigits2]. rewrite D. lia.
  - now rewrite V.
Qed.

Lemma binary_normalize_ok M e szero lo hi :
  srepr lo -> srepr hi -> (lo <= IZR M * bpow e <= hi)%R ->
  SFbetween lo hi (binary_normalize prec emax M e szero).
Proof.
  intros Hlo Hhi H. destruct M as [|m|m]; cbn [binary_normalize].
  - rewrite Rmult_0_l in H. repeat split; cbn [SF2R]; lra.
  - now apply binary_round_ok.
  - apply binary_round_ok; auto.
    change (Zneg m) with (- Zpos m) in H. rewrite opp_IZR in H. lra.
Qed.

(** *** Addition and subtraction *)

Lemma aligned_value (s : bool) m e ez :
  ez <= e ->
  (IZR (cond_Zopp s (Zpos (fst (shl_align m e ez)))) * bpow ez
   = SF2R (S754_finite s m e))%R.
Proof.
  intros L. destruct (shl_align_ok m e ez) as (V & _ & E).
  replace (snd (shl_align m e ez)) with ez in V by lia.
  rewrite SF2R_finite. destruct s; cbn [cond_Zopp]; [|exact V].
  change (- Zpos (fst (shl_align m e ez)))
    with (Zneg (fst (shl_align m e ez))).
  change (Zneg (fst (shl_align m e ez)))
    with (- Zpos (fst (shl_align m e ez))).
  rewrite opp_IZR. lra.
Qed.

Lemma SFadd_ok x y lo hi :
  valid_binary x = true -> valid_binary y = true ->
  is_finite_SF x = true -> is_finite_SF y = true ->
  srepr lo -> srepr hi -> (lo <= SF2R x + SF2R y <= hi)%R ->
  SFbetween lo hi (SFadd prec emax x y).
Proof.
  intros Vx Vy Fx Fy Hlo Hhi H.
  destruct x as [sx| | |sx mx ex]; try discriminate;
    destruct y as [sy| | |sy my ey]; try discriminate; cbn [SFadd].
  - cbn [SF2R] in H. destruct sx, sy; repeat split; cbn [SF2R]; lra.
  - unfold SFbetween. cbn [SF2R] in *. split; [exact Vy|]. split; [reflexivity|lra].
  - unfold SFbetween. cbn [SF2R] in *. split; [exact Vx|]. split; [reflexivity|lra].
  - apply binary_normalize_ok; auto.
    rewrite plus_IZR, Rmult_plus_distr_r.
    rewrite !aligned_value by lia. exact H.
Qed.

Lemma SFsub_ok x y lo hi :
  valid_binary x = true -> valid_binary y = true ->
  is_finite_SF x = true -> is_finite_SF y = true ->
  srepr lo -> srepr hi -> (lo <= SF2R x - SF2R y <= hi)%R ->
  SFbetween lo hi (SFsub prec emax x y).
Proof.
  intros Vx Vy Fx Fy Hlo Hhi H.
  destruct x as [sx| | |sx mx ex]; try discriminate;
    destruct y as [sy| | |sy my ey]; try discriminate; cbn [SFsub].
  - cbn [SF2R] in H. destruct sx, sy; repeat split; cbn [SF2R]; lra.
  - rewrite SF2R_finite in H. cbn [SF2R] in H.
    split; [exact Vy|]. split; [reflexivity|].
    rewrite SF2R_finite; destruct sy; cbn [negb]; lra.
  - unfold SFbetween. cbn [SF2R] in *. split; [exact Vx|]. split; [reflexivity|lra].
  - apply binary_normalize_ok; auto.
    rewrite minus_IZR. unfold Rminus. rewrite Rmult_plus_distr_r.
    rewrite <- Ropp_mult_distr_l.
    rewrite !aligned_value by lia. exact H.
Qed.

(** *** Division *)

Lemma new_location_ok n k :
  0 < n -> 0 <= k < n -> inbetween 0 (new_location n k) (IZR k / IZR n).
Proof.
  intros Hn Hk.
  assert (Pn : (0 < IZR n)%R) by (apply IZR_lt; lia).
  assert (E : (IZR k / IZR n * IZR n = IZR k)%R) by (field; lra).
  set (v := (IZR k / IZR n)%R) in *.
  assert (C : forall a b : Z, (IZR a < IZR b)%R <-> a < b)
    by (intros; split; [apply lt_IZR | apply IZR_lt]).
  assert (Z0 : k = 0 -> v = 0%R).
  { intros ->. unfold v, Rdiv. lra. }
  assert (Pk : k <> 0 -> (0 < IZR k)%R) by (intros; apply IZR_lt; lia).
  assert (Lk : (IZR k < IZR n)%R) by (apply IZR_lt; lia).
  unfold new_location.
  destruct (Z.even n) eqn:Ev;
    [unfold new_location_even | unfold new_location_odd];
    destruct (Z.eqb_spec k 0) as [Ek|Nk]; cbn [inbetween]; auto;
    specialize (Pk Nk).
  - destruct (Z.compare_spec (2 * k) n) as [Q|Q|Q]; cbn [inbetween].
    + apply Rmult_eq_reg_r with (IZR n); [|lra].
      rewrite E, <- Q, mult_IZR. lra.
    + apply IZR_lt in Q. rewrite mult_IZR in Q. nra.
    + apply IZR_lt in Q. rewrite mult_IZR in Q. nra.
  - assert (O : n <> 2 * k).
    { intros ->. rewrite Z.even_mul in Ev. discriminate. }
    destruct (Z.compare_spec (2 * k + 1) n) as [Q|Q|Q]; cbn [inbetween].
    + assert (Q' : 2 * k < n) by lia.
      apply IZR_lt in Q'. rewrite mult_IZR in Q'. nra.
    + assert (Q' : 2 * k < n) by lia.
      apply IZR_lt in Q'. rewrite mult_IZR in Q'. nra.
    + assert (Q' : n < 2 * k) by lia.
      apply IZR_lt in Q'. rewrite mult_IZR in Q'. nra.
Qed.

Lemma inbetween_shift q l v :
  inbetween 0 l v -> inbetween q l (IZR q + v).
Proof. destruct l as [|[]]; cbn [inbetween]; lra. Qed.

Lemma div_core_ok mx ex my ey :
  exists v,
    0 <= fst (fst (SFdiv_core_binary prec emax (Zpos mx) ex (Zpos my) ey))
    /\ inbetween
         (fst (fst (SFdiv_core_binary prec emax (Zpos mx) ex (Zpos my) ey)))
         (snd (SFdiv_core_binary prec emax (Zpos mx) ex (Zpos my) ey)) v
    /\ (v * bpow (snd (fst (SFdiv_core_binary prec emax (Zpos mx) ex (Zpos my) ey)))
        = (IZR (Zpos mx) * bpow ex) / (IZR (Zpos my) * bpow ey))%R
    /\ snd (fst (SFdiv_core_binary prec emax (Zpos mx) ex (Zpos my) ey))
       <= fexp prec emax
            (Zdigits2 (fst (fst (SFdiv_core_binary prec emax (Zpos mx) ex
                                   (Zpos my) ey)))
             + snd (fst (SFdiv_core_binary prec emax (Zpos mx) ex (Zpos my) ey))).
Proof.
  unfold SFdiv_core_binary. cbn [Zdigits2].
  set (d1 := Zpos (digits2_pos mx)). set (d2 := Zpos (digits2_pos my)).
  set (e' := Z.min (fexp prec emax (d1 + ex - (d2 + ey))) (ex - ey)).
  set (s := ex - ey - e').
  assert (Hs : 0 <= s) by (unfold s, e'; lia).
  set (m' := match s with
             | 0 => Zpos mx
             | Zpos _ => Z.shiftl (Zpos mx) s
             | Zneg _ => 0
             end).
  assert (Em : m' = Zpos mx * 2 ^ s).
  { unfold m'. destruct s as [|p|p]; [lia | | lia].
    apply Z.shiftl_mul_pow2. lia. }
  assert (Pm : 0 < m').
  { rewrite Em. apply Z.mul_pos_pos; [lia | apply Z.pow_pos_nonneg; lia]. }
  assert (D := Z.div_eucl_eq m' (Zpos my) ltac:(lia)).
  assert (M := Z.mod_pos_bound m' (Zpos my) ltac:(lia)).
  unfold Z.modulo in M. unfold Z.div in *.
  destruct (Z.div_eucl m' (Zpos my)) as [q r] eqn:Eqr. cbn [fst snd] in *.
  assert (Pq : 0 <= q) by nia.
  assert (Py : (0 < IZR (Zpos my))%R) by (apply IZR_lt; lia).
  exists (IZR q + IZR r / IZR (Zpos my))%R. split; [exact Pq|]. split.
  - apply inbetween_shift, new_location_ok; lia.
  - split.
    + assert (IZR m' = IZR (Zpos my) * IZR q + IZR r)%R
        by (rewrite D at 1; rewrite plus_IZR, mult_IZR; reflexivity).
      assert (IZR m' = IZR (Zpos mx) * bpow s)%R
        by (rewrite Em; apply IZR_bpow_mul; exact Hs).
      assert (bpow ex = bpow s * bpow e' * bpow ey)%R.
      { rewrite <- !bpow_add. f_equal. unfold s. lia. }
      assert (G := bpow_gt_0 ey).
      replace (IZR q + IZR r / IZR (Zpos my))%R
        with (IZR (Zpos mx) * bpow s / IZR (Zpos my))%R
        by (rewrite <- H0, H; field; lra).
      rewrite H1. field. lra.
    + (* the quotient has enough digits *)
      destruct (digits2_bounds mx) as [Lx _].
      destruct (digits2_bounds my) as [_ Uy]. fold d1 in Lx. fold d2 in Uy.
      assert (T : d1 + s - d2 <= Zdigits2 q).
      { destruct (Z_le_gt_dec (d1 + s - d2) 0) as [?|G].
        - destruct q; cbn [Zdigits2]; lia.
        - assert (Q : 2 ^ (d1 + s - d2 - 1) <= q).
          { replace q with (m' / Zpos my)
              by (unfold Z.div; now rewrite Eqr).
            apply Z.div_le_lower_bound; [lia|].
            assert (2 ^ (d1 - 1) * 2 ^ s <= m')
              by (rewrite Em; apply Z.mul_le_mono_nonneg_r;
                  [apply Z.pow_nonneg; lia | exact Lx]).
            rewrite <- Z.pow_add_r in H by (unfold d1; lia).
            assert (Zpos my * 2 ^ (d1 + s - d2 - 1)
                    <= 2 ^ d2 * 2 ^ (d1 + s - d2 - 1))
              by (apply Z.mul_le_mono_nonneg_r;
                  [apply Z.pow_nonneg; lia | lia]).
            rewrite <- Z.pow_add_r in H0 by (unfold d2; lia).
            replace (d2 + (d1 + s - d2 - 1)) with (d1 - 1 + s) in H0 by lia.
            lia. }
          assert (0 < 2 ^ (d1 + s - d2 - 1))
            by (apply Z.pow_pos_nonneg; lia).
          destruct q as [|p|p]; try lia.
          cbn [Zdigits2].
          assert (d1 + s - d2 - 1 + 1 <= Zpos (digits2_pos p))
            by (apply digits2_ge; [exact Q | lia]).
          lia. }
      rewrite !fexp_eq. unfold e' at 1. rewrite fexp_eq. unfold s in T. lia.
Qed.

Lemma SFdiv_ok x y lo hi :
  valid_binary x = true -> valid_binary y = true ->
  is_finite_SF x = true -> is_finite_SF y = true -> SF2R y <> 0%R ->
  srepr lo -> srepr hi -> (lo <= SF2R x / SF2R y <= hi)%R ->
  SFbetween lo hi (SFdiv prec emax x y).
Proof.
  intros Vx Vy Fx Fy Ny Hlo Hhi H.
  destruct y as [sy| | |sy my ey]; try discriminate;
    [cbn [SF2R] in Ny; lra|].
  destruct x as [sx| | |sx mx ex]; try discriminate; cbn [SFdiv].
  - cbn [SF2R] in H. unfold Rdiv in H. rewrite Rmult_0_l in H.
    repeat split; cbn [SF2R]; lra.
  - destruct (div_core_ok mx ex my ey) as (v & Pq & Hin & V & Hn).
    destruct (SFdiv_core_binary prec emax (Zpos mx) ex (Zpos my) ey)
      as [[q e'] l].
    cbn [fst snd] in *.
    apply round_aux_signed with (v := v); auto.
    rewrite V. rewrite !SF2R_finite in H.
    assert (Px := SF2R_pos mx ex). assert (Py := SF2R_pos my ey).
    set (X := (IZR (Zpos mx) * bpow ex)%R) in *.
    set (Y := (IZR (Zpos my) * bpow ey)%R) in *.
    destruct sx, sy; cbn [xorb].
    + replace (X / Y)%R with (- X / - Y)%R by (field; lra). exact H.
    + replace (- (X / Y))%R with (- X / Y)%R by (field; lra). exact H.
    + replace (- (X / Y))%R with (X / - Y)%R by (field; lra). exact H.
    + exact H.
Qed.

(** *** The primitive operations *)

Lemma fbetween_of_SF lo hi x : SFbetween lo hi (Prim2SF x) -> fbetween lo hi x.
Proof. intros (_ & F & H). split; assumption. Qed.

Lemma srepr_B2R x : finite x -> srepr (B2R x).
Proof. intros F. exists (Prim2SF x). split; [apply Prim2SF_valid|]. now split. Qed.

Lemma mul_between x y lo hi :
  finite x -> finite y -> srepr lo -> srepr hi ->
  (lo <= B2R x * B2R y <= hi)%R -> fbetween lo hi (x * y).
Proof.
  intros. apply fbetween_of_SF. rewrite mul_spec.
  apply SFmul_ok; auto using Prim2SF_valid.
Qed.

Lemma add_between x y lo hi :
  finite x -> finite y -> srepr lo -> srepr hi ->
  (lo <= B2R x + B2R y <= hi)%R -> fbetween lo hi (x + y).
Proof.
  intros. apply fbetween_of_SF. rewrite add_spec.
  apply SFadd_ok; auto using Prim2SF_valid.
Qed.

Lemma sub_between x y lo hi :
  finite x -> finite y -> srepr lo -> srepr hi ->
  (lo <= B2R x - B2R y <= hi)%R -> fbetween lo hi (x - y).
Proof.
  intros. apply fbetween_of_SF. rewrite sub_spec.
  apply SFsub_ok; auto using Prim2SF_valid.
Qed.

Lemma div_between x y lo hi :
  finite x -> finite y -> B2R y <> 0%R -> srepr lo -> srepr hi ->
  (lo <= B2R x / B2R y <= hi)%R -> fbetween lo hi (x / y).
Proof.
  intros. apply fbetween_of_SF. rewrite div_spec.
  apply SFdiv_ok; auto using Prim2SF_valid.
Qed.

Lemma abs_between x :
  finite x -> finite (abs x) /\ B2R (abs x) = Rabs (B2R x).
Proof.
  unfold finite, B2R. rewrite abs_spec.
  destruct (Prim2SF x) as [s| | |s m e]; try discriminate; intros _;
    cbn [SFabs is_finite_SF]; (split; [reflexivity|]).
  - cbn [SF2R]. now rewrite Rabs_R0.
  - rewrite !SF2R_finite. assert (P := SF2R_pos m e).
    destruct s; [rewrite Rabs_Ropp|]; rewrite Rabs_pos_eq; lra.
Qed.

(** Integers below [2^53] are represented exactly. *)
Lemma srepr_Z z : 0 <= z < 2 ^ 53 -> srepr (IZR z).
Proof.
  intros [L U]. destruct z as [|p|p]; [apply srepr_0 | | lia].
  assert (D : Zpos (digits2_pos p) <= 53) by (apply digits2_le; lia).
  destruct (shl_align_ok p 0 (Zpos (digits2_pos p) - 53)) as (V & G & E).
  destruct (shl_align p 0 _) as [mz ez]. cbn [fst snd] in *.
  exists (S754_finite false mz ez). split; [|split; [reflexivity|]].
  - cbn [valid_binary]. unfold SpecFloat.bounded, canonical_mantissa.
    rewrite G, fexp_eq. apply andb_true_iff. split.
    + apply Z.eqb_eq. lia.
    + apply Z.leb_le. change (emax - prec) with 971. lia.
  - rewrite SF2R_finite, V, bpow_0. lra.
Qed.

Lemma Z2f_exact z :
  0 <= z < 2 ^ 53 -> finite (Z2f z) /\ B2R (Z2f z) = IZR z.
Proof.
  intros Hz. assert (S := srepr_Z z Hz).
  destruct (binary_normalize_ok z 0 false (IZR z) (IZR z) S S) as (V & F & B).
  { rewrite bpow_0. lra. }
  unfold finite, B2R, Z2f. rewrite Prim2SF_SF2Prim by exact V.
  split; [exact F | lra].
Qed.

(** Numbers with an integer value. *)
Lemma is_integer_of_value x n :
  finite x -> B2R x = IZR n -> is_integer x = true.
Proof.
  unfold finite, B2R, is_integer.
  destruct (Prim2SF x) as [s| | |s m e]; try discriminate; intros _ H;
    [reflexivity|].
  destruct (Z.leb_spec 0 e) as [?|L]; [reflexivity|]. cbn [orb].
  apply Z.eqb_eq.
  assert (E : IZR (cond_Zopp s (Zpos m)) = IZR (n * 2 ^ (- e))).
  { rewrite IZR_bpow_mul by lia. cbn [SF2R] in H. rewrite <- H.
    rewrite Rmult_assoc, <- bpow_add, Z.add_opp_diag_r, bpow_0. lra. }
  apply eq_IZR in E.
  assert (P : 0 < 2 ^ (- e)) by (apply Z.pow_pos_nonneg; lia).
  destruct s; cbn [cond_Zopp] in E.
  - replace (Zpos m) with (- n * 2 ^ (- e)) by lia. apply Z.mod_mul. lia.
  - rewrite E. apply Z.mod_mul. lia.
Qed.

(** *** [Math.max], [Math.min] and [Math.round] *)

Lemma is_nan_finite x : finite x -> is_nan x = false.
Proof.
  intros F. unfold is_nan. rewrite eqb_spec. unfold SFeqb.
  destruct (SFcompare_ok _ _ (Prim2SF_valid x) (Prim2SF_valid x) F F)
    as (c & -> & H).
  destruct c; [reflexivity | lra | lra].
Qed.

Lemma ltb_cases x y :
  finite x -> finite y ->
  ((x <? y)%float = true /\ (B2R x < B2R y)%R)
  \/ ((x <? y)%float = false /\ (B2R y <= B2R x)%R).
Proof.
  intros Fx Fy. assert (H := ltb_B2R x y Fx Fy).
  destruct (x <? y)%float.
  - left. split; [reflexivity | now apply H].
  - right. split; [reflexivity|].
    destruct (Rle_dec (B2R y) (B2R x)) as [?|N]; [assumption|].
    assert (B2R x < B2R y)%R by lra. apply H in H0. discriminate.
Qed.

Lemma Math_max_ok a b :
  finite a -> finite b ->
  finite (Math_max a b) /\ B2R (Math_max a b) = Rmax (B2R a) (B2R b).
Proof.
  intros Fa Fb. unfold Math_max.
  rewrite (is_nan_finite a Fa), (is_nan_finite b Fb). cbn [orb].
  destruct (ltb_cases a b Fa Fb) as [[-> L]|[-> L]].
  - split; [exact Fb|]. rewrite Rmax_right; lra.
  - destruct (ltb_cases b a Fb Fa) as [[-> L']|[-> L']].
    + split; [exact Fa|]. rewrite Rmax_left; lra.
    + assert (E : B2R a = B2R b) by lra.
      destruct (get_sign a); (split; [assumption|]);
        rewrite Rmax_left; lra.
Qed.

Lemma Math_min_ok a b :
  finite a -> finite b ->
  finite (Math_min a b) /\ B2R (Math_min a b) = Rmin (B2R a) (B2R b).
Proof.
  intros Fa Fb. unfold Math_min.
  rewrite (is_nan_finite a Fa), (is_nan_finite b Fb). cbn [orb].
  destruct (ltb_cases a b Fa Fb) as [[-> L]|[-> L]].
  - split; [exact Fa|]. rewrite Rmin_left; lra.
  - destruct (ltb_cases b a Fb Fa) as [[-> L']|[-> L']].
    + split; [exact Fb|]. rewrite Rmin_right; lra.
    + assert (E : B2R a = B2R b) by lra.
      destruct (get_sign a); (split; [assumption|]);
        rewrite Rmin_left; lra.
Qed.

(** [Math.round] of a non-negative number below [2^52] is the integer [n]
    with [n <= x + 1/2 < n + 1]. *)
Lemma Math_round_ok x :
  finite x -> (0 <= B2R x < 4503599627370496)%R ->
  exists n,
    0 <= n
    /\ (IZR n <= B2R x + / 2 < IZR n + 1)%R
    /\ finite (Math_round x)
    /\ B2R (Math_round x) = IZR n.
Proof.
  intros F B. unfold Math_round. assert (V := Prim2SF_valid x).
  unfold finite, B2R in *.
  destruct (Prim2SF x) as [s| | |s m e] eqn:E; try discriminate.
  - exists 0. unfold finite, B2R. rewrite E. cbn [SF2R]. repeat split; try lia; lra.
  - cbn [valid_binary] in V. rewrite SF2R_finite in B.
    assert (P := SF2R_pos m e). destruct s; [lra|].
    destruct (bounded_digits _ _ V) as (D & Ee & N).
    destruct (digits2_bpow m) as [Lm _].
    destruct (Z.leb_spec 0 e) as [G|G].
    + exfalso. rewrite N in Lm by lia. change (53 - 1) with 52 in Lm.
      rewrite (proj2 bpow_lit) in Lm.
      assert (1 <= bpow e)%R by (apply bpow_ge_1; lia). nra.
    + cbn [cond_Zopp]. set (k := - e).
      assert (Pk : 0 < 2 ^ k) by (apply Z.pow_pos_nonneg; lia).
      assert (Ek : 2 ^ (k + 1) = 2 * 2 ^ k)
        by (rewrite Z.pow_add_r, Z.pow_1_r by lia; lia).
      set (n := (2 * Zpos m + 2 ^ k) / 2 ^ (k + 1)).
      assert (Q1 := Z.mul_div_le (2 * Zpos m + 2 ^ k) (2 ^ (k + 1)) ltac:(lia)).
      assert (Q2 := Z.mul_succ_div_gt (2 * Zpos m + 2 ^ k) (2 ^ (k + 1))
                      ltac:(lia)).
      fold n in Q1, Q2. rewrite Ek in Q1, Q2.
      assert (Hn : 0 <= n) by (apply Z.div_pos; lia).
      assert (Bk : (bpow e * IZR (2 ^ k) = 1)%R).
      { rewrite <- bpow_IZR by lia. rewrite <- bpow_add. unfold k.
        rewrite Z.add_opp_diag_r. apply bpow_0. }
      assert (Rk : (0 < IZR (2 ^ k))%R) by (apply IZR_lt; lia).
      apply IZR_le in Q1. apply IZR_lt in Q2.
      rewrite ?mult_IZR, ?plus_IZR, ?mult_IZR in Q1, Q2.
      assert (S : (IZR (Z.succ n) = IZR n + 1)%R) by (rewrite succ_IZR; lra).
      rewrite S in Q2.
      assert (I : (IZR n <= IZR (Zpos m) * bpow e + / 2 < IZR n + 1)%R).
      { set (M := IZR (Zpos m)) in *. set (T := IZR (2 ^ k)) in *.
        set (b := bpow e) in *. set (Nn := IZR n) in *.
        assert (M * b * T = M)%R by (rewrite Rmult_assoc, Bk; lra).
        split; nra. }
      exists n. split; [exact Hn|]. split; [exact I|].
      destruct (Z.eqb_spec n 0) as [->|NZ].
      * split; reflexivity.
      * apply Z2f_exact. split; [lia|].
        apply lt_IZR. change (2 ^ 53) with 9007199254740992. lra.
Qed.

(** Values of the literals. *)
Ltac float_lit c :=
  let s := eval vm_compute in (Prim2SF c) in
  lazymatch s with
  | S754_finite false ?m (Zneg ?k) =>
      let d := eval vm_compute in (2 ^ Zpos k) in
      assert (finite c /\ B2R c = (IZR (Zpos m) / IZR d)%R)
        by (split; [reflexivity|];
            unfold B2R; change (Prim2SF c) with s; cbn [SF2R cond_Zopp];
            change (bpow (Zneg k)) with (bpow (- Zpos k));
            rewrite (bpow_opp (Zpos k)), bpow_IZR by lia; reflexivity)
  | S754_finite true ?m (Zneg ?k) =>
      let d := eval vm_compute in (2 ^ Zpos k) in
      assert (finite c /\ B2R c = (IZR (Zneg m) / IZR d)%R)
        by (split; [reflexivity|];
            unfold B2R; change (Prim2SF c) with s; cbn [SF2R cond_Zopp];
            change (bpow (Zneg k)) with (bpow (- Zpos k));
            rewrite (bpow_opp (Zpos k)), bpow_IZR by lia; reflexivity)
  | S754_finite false ?m ?e =>
      let d := eval vm_compute in (2 ^ e) in
      assert (finite c /\ B2R c = (IZR (Zpos m) * IZR d)%R)
        by (split; [reflexivity|];
            unfold B2R; change (Prim2SF c) with s; cbn [SF2R cond_Zopp];
            rewrite bpow_IZR by lia; reflexivity)
  | S754_finite true ?m ?e =>
      let d := eval vm_compute in (2 ^ e) in
      assert (finite c /\ B2R c = (IZR (Zneg m) * IZR d)%R)
        by (split; [reflexivity|];
            unfold B2R; change (Prim2SF c) with s; cbn [SF2R cond_Zopp];
            rewrite bpow_IZR by lia; reflexivity)
  | S754_zero _ =>
      assert (finite c /\ B2R c = 0%R) by (split; reflexivity)
  end.

(** ** Scores between 0 and 100 *)

Lemma B2R_0 : finite 0 /\ B2R 0 = 0%R.
Proof. float_lit 0%float. assumption. Qed.

Lemma B2R_100 : finite 100 /\ B2R 100 = 100%R.
Proof. float_lit 100%float. split; [tauto|]. destruct H as [_ ->]. lra. Qed.

Lemma in_0_100_iff x :
  in_0_100 x = true <-> fbetween 0 100 x.
Proof.
  destruct B2R_0 as [F0 V0]. destruct B2R_100 as [F1 V1].
  unfold in_0_100, fbetween. rewrite andb_true_iff. split.
  - intros [L U]. assert (F := leb_finite _ _ _ F0 F1 L U).
    apply leb_B2R in L, U; auto. split; [exact F | lra].
  - intros [F B]. split; apply leb_B2R; auto; lra.
Qed.

Lemma srepr_lit c : finite c -> srepr (B2R c).
Proof. apply srepr_B2R. Qed.

Lemma Rdiv_0_1 w t : 0 <= w <= t -> 0 < t -> (0 <= IZR w / IZR t <= 1)%R.
Proof.
  intros [L U] P. apply IZR_le in L, U. apply IZR_lt in P.
  assert (E : (IZR w / IZR t * IZR t = IZR w)%R) by (field; lra).
  split; [apply Rmult_le_reg_r with (IZR t) | apply Rmult_le_reg_r with (IZR t)];
    try lra.
Qed.

(** [Math.round] of a number between 0 and 100.4375 is an integer
    between 0 and 100. *)
Lemma Math_round_score x :
  fbetween 0 (100 + 7 / 16) x ->
  in_0_100 (Math_round x) = true /\ is_integer (Math_round x) = true.
Proof.
  intros [F B].
  destruct (Math_round_ok x F ltac:(lra)) as (n & Hn & I & Fn & Vn).
  split.
  - apply in_0_100_iff. split; [exact Fn|]. rewrite Vn.
    assert (IZR n < IZR 101)%R by lra. apply lt_IZR in H.
    split; apply IZR_le; lia.
  - exact (is_integer_of_value _ n Fn Vn).
Qed.

Lemma altTextPercentage_range w t :
  0 <= w <= t -> 0 < t < 2 ^ 53 ->
  let a := Math_round (Z2f w / Z2f t * 100)%float in
  in_0_100 a = true /\ is_integer a = true.
Proof.
  intros Hw Ht. cbn zeta.
  destruct (Z2f_exact w ltac:(lia)) as [Fw Vw].
  destruct (Z2f_exact t ltac:(lia)) as [Ft Vt].
  destruct B2R_0 as [F0 V0]. destruct B2R_100 as [F1 V1].
  float_lit 1%float. destruct H as [F01 V01].
  assert (Q : fbetween (B2R 0) (B2R 1) (Z2f w / Z2f t)).
  { apply div_between; auto using srepr_lit.
    - rewrite Vt. apply not_0_IZR. lia.
    - rewrite Vw, Vt, V0, V01. assert (D := Rdiv_0_1 w t Hw ltac:(lia)). lra. }
  destruct Q as [Fq Bq]. rewrite V0, V01 in Bq.
  assert (P : fbetween (B2R 0) (B2R 100) (Z2f w / Z2f t * 100)).
  { apply mul_between; auto using srepr_lit. rewrite V0, V1. lra. }
  destruct P as [Fp Bp]. rewrite V0, V1 in Bp.
  apply Math_round_score. split; [exact Fp | lra].
Qed.

(** Rewrites the literals of the goal into their values. *)
Ltac lit c := float_lit c;
  match goal with H : finite c /\ B2R c = _ |- _ => destruct H end.

Ltac use_values :=
  repeat match goal with
         | E : B2R ?c = _ |- context [B2R ?c] => rewrite E
         end.

Ltac closed_float t :=
  let v := eval vm_compute in t in
  change t with v; lit v.

Lemma Rdiv_0_w w s : 0 <= w -> 1 <= s -> (0 <= IZR w / IZR s <= IZR w)%R.
Proof.
  intros L P. apply IZR_le in L, P.
  assert (E : (IZR w / IZR s * IZR s = IZR w)%R) by (field; lra).
  set (q := (IZR w / IZR s)%R) in *.
  assert (0 <= q)%R by (apply Rmult_le_reg_r with (IZR s); lra).
  split; [assumption | nra].
Qed.

Lemma readability_range w s :
  1 <= w < 2 ^ 53 -> 1 <= s < 2 ^ 53 ->
  fbetween 0 100
    (Math_min 100
       (Math_max 0 (100 - Math_abs (Z2f w / Z2f s - 15) * 3)%float)).
Proof.
  intros Hw Hs.
  destruct (Z2f_exact w ltac:(lia)) as [Fw Vw].
  destruct (Z2f_exact s ltac:(lia)) as [Fs Vs].
  assert (Uw : (IZR w <= 9007199254740992)%R)
    by (apply IZR_le; change 9007199254740992 with (2 ^ 53); lia).
  lit 0%float. lit 100%float. lit 15%float. lit (-15)%float. lit 3%float.
  lit 9007199254740992%float. lit 36028797018963968%float.
  lit (-36028797018963968)%float.
  assert (A : fbetween (B2R 0) (B2R 9007199254740992) (Z2f w / Z2f s)).
  { apply div_between; auto using srepr_lit.
    - rewrite Vs. apply not_0_IZR. lia.
    - assert (D := Rdiv_0_w w s ltac:(lia) ltac:(lia)). use_values. lra. }
  destruct A as [F1 B1].
  assert (A : fbetween (B2R (-15)) (B2R 9007199254740992)
                (Z2f w / Z2f s - 15)).
  { apply sub_between; auto using srepr_lit. revert B1. use_values. lra. }
  destruct A as [F2 B2].
  destruct (abs_between _ F2) as [F3 V3].
  assert (B3 : (0 <= B2R (abs (Z2f w / Z2f s - 15)) <= 9007199254740992)%R).
  { rewrite V3. revert B2. use_values. unfold Rabs.
    destruct (Rcase_abs _); lra. }
  assert (A : fbetween (B2R 0) (B2R 36028797018963968)
                (abs (Z2f w / Z2f s - 15) * 3)).
  { apply mul_between; auto using srepr_lit. use_values. lra. }
  destruct A as [F4 B4].
  assert (A : fbetween (B2R (-36028797018963968)) (B2R 100)
                (100 - abs (Z2f w / Z2f s - 15) * 3)).
  { apply sub_between; auto using srepr_lit. revert B4. use_values. lra. }
  destruct A as [F5 B5]. unfold Math_abs.
  destruct (Math_max_ok 0 _ H F5) as [F6 V6].
  destruct (Math_min_ok 100 _ H1 F6) as [F7 V7].
  split; [exact F7|]. rewrite V7, V6. use_values.
  unfold Rmin, Rmax. repeat destruct (Rle_dec _ _); lra.
Qed.

Lemma content_tail base r :
  finite base -> (0 <= B2R base <= 50)%R -> fbetween 0 100 r ->
  fbetween 0 100 (Math_min 100 (base + r * 0.5)%float).
Proof.
  intros Fb Bb [Fr Br].
  lit 0%float. lit 100%float. lit 0.5%float. lit 50%float.
  assert (A : fbetween (B2R 0) (B2R 50) (r * 0.5)).
  { apply mul_between; auto using srepr_lit. use_values. lra. }
  destruct A as [F1 B1].
  assert (A : fbetween (B2R 0) (B2R 100) (base + r * 0.5)).
  { apply add_between; auto using srepr_lit. revert B1. use_values. lra. }
  destruct A as [F2 B2].
  destruct (Math_min_ok 100 _ H1 F2) as [F3 V3].
  split; [exact F3|]. rewrite V3. revert B2. use_values.
  unfold Rmin. destruct (Rle_dec _ _); lra.
Qed.

Lemma calculateContentScore_range w p r :
  fbetween 0 100 r -> fbetween 0 100 (calculateContentScore w p r).
Proof.
  intros Hr. unfold calculateContentScore.
  destruct (1000 <? w); [|destruct (500 <? w); [|destruct (300 <? w)]];
    (destruct ((0 <? p) && _); [|destruct (0 <? p)]);
    (apply content_tail; [| |exact Hr]);
    match goal with
    | |- finite ?t => closed_float t; assumption
    | |- (_ <= B2R ?t <= _)%R => closed_float t; use_values; lra
    end.
Qed.

(** One term of the weighted sum: a score between 0 and 100 times a
    weight, below a bound that is a multiple of 1/16. *)
Lemma weighted_term x wgt hi :
  fbetween 0 100 x -> finite wgt -> finite hi ->
  (0 <= B2R wgt)%R -> (100 * B2R wgt <= B2R hi)%R ->
  fbetween 0 (B2R hi) (x * wgt).
Proof.
  intros [Fx Bx] Fw Fh Pw Hh. lit 0%float.
  replace 0%R with (B2R 0) at 1 by assumption.
  apply mul_between; auto using srepr_lit. use_values. nra.
Qed.

Lemma weighted_sum acc x a b c :
  fbetween 0 (B2R a) acc -> fbetween 0 (B2R b) x ->
  finite c -> (B2R a + B2R b <= B2R c)%R ->
  fbetween 0 (B2R c) (acc + x).
Proof.
  intros [Fa Ba] [Fx Bx] Fc H. lit 0%float.
  replace 0%R with (B2R 0) at 1 by assumption.
  apply add_between; auto using srepr_lit. use_values. lra.
Qed.

Lemma calculateOverallScore_range m h a l p mo c :
  fbetween 0 100 m -> fbetween 0 100 h -> fbetween 0 100 a ->
  fbetween 0 100 l -> fbetween 0 100 p -> fbetween 0 100 mo ->
  fbetween 0 100 c ->
  in_0_100 (calculateOverallScore m h a l p mo c) = true
  /\ is_integer (calculateOverallScore m h a l p mo c) = true.
Proof.
  intros Hm Hh Ha Hl Hp Hmo Hc. unfold calculateOverallScore. cbn zeta.
  lit 0.2%float. lit 0.1%float. lit 0.15%float.
  lit 20.0625%float. lit 10.0625%float. lit 15.0625%float.
  lit 30.125%float. lit 40.1875%float. lit 55.25%float. lit 75.3125%float.
  lit 90.375%float. lit 100.4375%float.
  assert (T1 : fbetween 0 (B2R 20.0625) (m * 0.2))
    by (apply weighted_term; auto; use_values; lra).
  assert (T2 : fbetween 0 (B2R 10.0625) (h * 0.1))
    by (apply weighted_term; auto; use_values; lra).
  assert (T3 : fbetween 0 (B2R 10.0625) (a * 0.1))
    by (apply weighted_term; auto; use_values; lra).
  assert (T4 : fbetween 0 (B2R 15.0625) (l * 0.15))
    by (apply weighted_term; auto; use_values; lra).
  assert (T5 : fbetween 0 (B2R 20.0625) (p * 0.2))
    by (apply weighted_term; auto; use_values; lra).
  assert (T6 : fbetween 0 (B2R 15.0625) (mo * 0.15))
    by (apply weighted_term; auto; use_values; lra).
  assert (T7 : fbetween 0 (B2R 10.0625) (c * 0.1))
    by (apply weighted_term; auto; use_values; lra).
  assert (S2 : fbetween 0 (B2R 30.125) (m * 0.2 + h * 0.1))
    by (eapply weighted_sum; eauto; use_values; lra).
  assert (S3 : fbetween 0 (B2R 40.1875) (m * 0.2 + h * 0.1 + a * 0.1))
    by (eapply weighted_sum; eauto; use_values; lra).
  assert (S4 : fbetween 0 (B2R 55.25)
                 (m * 0.2 + h * 0.1 + a * 0.1 + l * 0.15))
    by (eapply weighted_sum; eauto; use_values; lra).
  assert (S5 : fbetween 0 (B2R 75.3125)
                 (m * 0.2 + h * 0.1 + a * 0.1 + l * 0.15 + p * 0.2))
    by (eapply weighted_sum; eauto; use_values; lra).
  assert (S6 : fbetween 0 (B2R 90.375)
                 (m * 0.2 + h * 0.1 + a * 0.1 + l * 0.15 + p * 0.2
                  + mo * 0.15))
    by (eapply weighted_sum; eauto; use_values; lra).
  assert (S7 : fbetween 0 (B2R 100.4375)
                 (m * 0.2 + h * 0.1 + a * 0.1 + l * 0.15 + p * 0.2
                  + mo * 0.15 + c * 0.1))
    by (eapply weighted_sum; eauto; use_values; lra).
  apply Math_round_score. destruct S7 as [F B]. split; [exact F|].
  revert B. use_values. lra.
Qed.

(** The scores computed from finitely many cases. *)
Lemma calculateMetaTagsScore_range t d c v ot od oi tc :
  in_0_100 (calculateMetaTagsScore t d c v ot od oi tc) = true
  /\ is_integer (calculateMetaTagsScore t d c v ot od oi tc) = true.
Proof.
  unfold calculateMetaTagsScore. cbn zeta.
  generalize (truthy t) ((30 <=? len t) && (len t <=? 70)) (0 <? len t)
    (truthy d) ((120 <=? len d) && (len d <=? 160)) (0 <? len d)
    (truthy c) (truthy v) (truthy ot) (truthy od) (truthy oi) (truthy tc)
    (jseqb tc (lit "summary") || jseqb tc (lit "summary_large_image")).
  intros b1 b2 b3 b4 b5 b6 b7 b8 b9 b10 b11 b12 b13.
  destruct b1, b2, b3, b4, b5, b6, b7, b8, b9, b10, b11, b12, b13;
    vm_compute; split; reflexivity.
Qed.

Lemma calculatePerformanceScore_range tot lt sc :
  in_0_100 (calculatePerformanceScore tot lt sc) = true
  /\ is_integer (calculatePerformanceScore tot lt sc) = true.
Proof.
  unfold calculatePerformanceScore. cbn zeta.
  generalize (50 <? tot) (30 <? tot) (15 <? tot) (3 <? lt)%float
    (2 <? lt)%float (1 <? lt)%float (15 <? sc) (10 <? sc) (5 <? sc).
  intros b1 b2 b3 b4 b5 b6 b7 b8 b9.
  destruct b1, b2, b3, b4, b5, b6, b7, b8, b9; vm_compute; split; reflexivity.
Qed.

Lemma calculateMobileScore_range v m r :
  in_0_100 (calculateMobileScore v m r) = true
  /\ is_integer (calculateMobileScore v m r) = true.
Proof. destruct v, m, r; vm_compute; split; reflexivity. Qed.

Lemma headingsProxy_range h :
  in_0_100 (headingsProxy h) = true /\ is_integer (headingsProxy h) = true.
Proof.
  unfold headingsProxy. destruct (hasProperH1 _); vm_compute; split; reflexivity.
Qed.

Lemma linksProxy_range l :
  in_0_100 (linksProxy l) = true /\ is_integer (linksProxy l) = true.
Proof.
  unfold linksProxy. destruct (status_eqb _ good);
    [|destruct (status_eqb _ needs_improvement)];
    vm_compute; split; reflexivity.
Qed.

(** Sizes of the cleaned text and of its pieces. *)
Lemma split_from_bounds sep inrun cur s :
  1 <= count (split_from sep inrun cur s) <= len s + 1.
Proof.
  unfold count, len. revert inrun cur.
  induction s as [|c s IH]; intros inrun cur; cbn [split_from List.length].
  - lia.
  - destruct (sep c); [destruct inrun|].
    + specialize (IH true cur). lia.
    + specialize (IH true []). cbn [List.length]. lia.
    + specialize (IH false (c :: cur)). lia.
Qed.

Lemma trimStart_length s : (List.length (trimStart s) <= List.length s)%nat.
Proof.
  induction s as [|c s IH]; cbn [trimStart]; [lia|].
  destruct (is_space c); cbn [List.length]; lia.
Qed.

Lemma collapse_from_length b s :
  (List.length (collapse_from b s) <= List.length s)%nat.
Proof.
  revert b. induction s as [|c s IH]; intros b; cbn [collapse_from]; [lia|].
  assert (T := IH true). assert (F := IH false).
  destruct (is_space c); [destruct b|]; cbn [List.length]; lia.
Qed.

Lemma cleanText_length raw : len (cleanText raw) <= len raw.
Proof.
  unfold cleanText, trim, replace_spaces, len.
  assert (A := collapse_from_length false raw).
  assert (B := trimStart_length (collapse_from false raw)).
  assert (C := trimStart_length (rev (trimStart (collapse_from false raw)))).
  rewrite length_rev in *. lia.
Qed.

Lemma count_filter_le {A} (f : A -> bool) l :
  0 <= count (filter f l) <= count l.
Proof.
  unfold count. induction l as [|x l IH]; cbn [filter List.length]; [lia|].
  destruct (f x); cbn [List.length]; lia.
Qed.

(** ** Integer scores *)

(** A page whose content score and readability score are not integers:
    with the body "Hi." there is one word and two pieces around the full
    stop, 0.5 word per sentence, so that the readability score is 56.5 and
    the content score 28.25. *)
Lemma content_scores_not_integers :
  exists r,
    hi_report = Ok r
    /\ wordCount (metrics (contentAnalysis r)) = 1
    /\ readabilityScore (metrics (contentAnalysis r)) = 56.5%float
    /\ contentScore r = 28.25%float
    /\ is_integer (readabilityScore (metrics (contentAnalysis r))) = false
    /\ is_integer (contentScore r) = false.
Proof.
  exists_report hi_report. vm_compute. repeat split.
Qed.

Section Ranges.

Variable cheerio_load : jsstring -> cheerio.
Variable URL_origin : jsstring -> option jsstring.
Variable URL_href : jsstring -> jsstring -> option jsstring.
Variable toLowerCase : jsstring -> jsstring.
Variable toFixed1 : float -> jsstring.
Variable parseFloat : jsstring -> float.
Variable Number_toString : float -> jsstring.

Lemma extractImages_range html url facts :
  extractImages cheerio_load URL_href html url = Ok facts ->
  count (cheerio_load html "img") < 2 ^ 32 ->
  in_0_100 (altTextPercentage (images_analysis facts)) = true
  /\ is_integer (altTextPercentage (images_analysis facts)) = true.
Proof.
  intros H Hn.
  assert (E := each_img_hasAlt URL_href url (cheerio_load html "img")).
  unfold extractImages in H.
  destruct (each_img URL_href url (cheerio_load html "img")) as [imgs|];
    [|discriminate].
  specialize (E imgs eq_refl). cbn [bind] in H.
  inversion H; subst facts; clear H.
  cbn [images_analysis altTextPercentage].
  assert (T := count_map_eq _ _ _ _ E). rewrite <- T in Hn.
  assert (W := count_filter_le hasAlt imgs).
  destruct (Z.ltb_spec 0 (count imgs)).
  - apply altTextPercentage_range; lia.
  - vm_compute. split; reflexivity.
Qed.

Lemma analyzeContent_range html :
  len (text (cheerio_load html "body")) < 2 ^ 32 ->
  fbetween 0 100
    (readabilityScore (metrics (analyzeContent cheerio_load toFixed1 html)))
  /\ fbetween 0 100 (content_score (analyzeContent cheerio_load toFixed1 html)).
Proof.
  intros Hn. unfold analyzeContent.
  cbn [metrics readabilityScore content_score].
  fold (cleanText (text (cheerio_load html "body"))).
  assert (L := cleanText_length (text (cheerio_load html "body"))).
  set (clean := cleanText (text (cheerio_load html "body"))) in *.
  assert (W := split_from_bounds is_space false [] clean).
  assert (S := split_from_bounds is_sentence_end false [] clean).
  fold (split is_space clean) in W. fold (split is_sentence_end clean) in S.
  set (w := count (split is_space clean)) in *.
  set (s := count (split is_sentence_end clean)) in *.
  assert (R : fbetween 0 100
                (Math_min 100
                   (Math_max 0
                      (100 - Math_abs
                               (Z2f w
                                / Z2f (if (s =? 0)%Z then 1%Z else s) - 15)
                             * 3)%float))).
  { apply readability_range; [lia|].
    destruct (Z.eqb_spec s 0); lia. }
  split; [exact R|]. now apply calculateContentScore_range.
Qed.

Let analyze :=
  analyzeSEO cheerio_load URL_origin URL_href toLowerCase toFixed1 parseFloat
    Number_toString.

Lemma report_ranges html url r :
  analyze html url = Ok r ->
  count (cheerio_load html "img") < 2 ^ 32 ->
  len (text (cheerio_load html "body")) < 2 ^ 32 ->
  (in_0_100 (metaTagsScore r) = true /\ is_integer (metaTagsScore r) = true)
  /\ (in_0_100 (headingsProxy (a_headings r)) = true)
  /\ (in_0_100 (altTextPercentage (images_analysis (a_images r))) = true
      /\ is_integer (altTextPercentage (images_analysis (a_images r))) = true)
  /\ (in_0_100 (linksScore r) = true /\ is_integer (linksScore r) = true)
  /\ (in_0_100 (performanceScore r) = true
      /\ is_integer (performanceScore r) = true)
  /\ (in_0_100 (mobileScore r) = true /\ is_integer (mobileScore r) = true)
  /\ in_0_100 (contentScore r) = true
  /\ in_0_100 (readabilityScore (metrics (contentAnalysis r))) = true
  /\ (in_0_100 (seoScore r) = true /\ is_integer (seoScore r) = true).
Proof.
  intros H Hi Hb.
  destruct (analyzeSEO_facts _ _ _ _ _ _ _ _ _ _ H)
    as (Em & Eh & Ei & El & Ep & Emo & Ec & Ems & Ecs & Eps & Els & Es).
  assert (M : in_0_100 (metaTagsScore r) = true
              /\ is_integer (metaTagsScore r) = true).
  { rewrite Ems, Em. apply calculateMetaTagsScore_range. }
  assert (Hh := headingsProxy_range (a_headings r)).
  assert (A := extractImages_range _ _ _ Ei Hi).
  assert (L : in_0_100 (linksScore r) = true
              /\ is_integer (linksScore r) = true).
  { rewrite Els. apply linksProxy_range. }
  assert (P : in_0_100 (performanceScore r) = true
              /\ is_integer (performanceScore r) = true).
  { rewrite Eps, Ep. apply calculatePerformanceScore_range. }
  assert (Mo : in_0_100 (mobileScore r) = true
               /\ is_integer (mobileScore r) = true).
  { rewrite Emo. apply calculateMobileScore_range. }
  destruct (analyzeContent_range html Hb) as [R C].
  rewrite <- Ec in R, C. rewrite <- Ecs in C.
  assert (O : in_0_100 (seoScore r) = true /\ is_integer (seoScore r) = true).
  { rewrite Es. apply calculateOverallScore_range;
      try (apply in_0_100_iff; tauto); assumption. }
  repeat split; try tauto; apply in_0_100_iff; assumption.
Qed.

(** C2. On a page within the size limits of the host (fewer than [2^32]
    images, a body text of fewer than [2^32] code units), every sub-score
    of the report - meta tags, headings proxy, altTextPercentage, links
    proxy, performance, mobile, content, readability - lies between 0 and
    100, and so does the overall score. *)
Theorem scores_in_range (html url : jsstring) (r : Analysis) :
  analyze html url = Ok r ->
  count (cheerio_load html "img") < 2 ^ 32 ->
  len (text (cheerio_load html "body")) < 2 ^ 32 ->
  in_0_100 (metaTagsScore r) = true
  /\ in_0_100 (if hasProperH1 (headings_analysis (a_headings r))
               then 100%float else 50%float) = true
  /\ in_0_100 (altTextPercentage (images_analysis (a_images r))) = true
  /\ in_0_100 (linksScore r) = true
  /\ in_0_100 (performanceScore r) = true
  /\ in_0_100 (mobileScore r) = true
  /\ in_0_100 (contentScore r) = true
  /\ in_0_100 (readabilityScore (metrics (contentAnalysis r))) = true
  /\ in_0_100 (seoScore r) = true.
Proof.
  intros H Hi Hb.
  destruct (report_ranges html url r H Hi Hb)
    as ([M _] & Hh & [A _] & [L _] & [P _] & [Mo _] & C & R & [O _]).
  repeat split; assumption.
Qed.

(** C6, amended. On a page within the size limits of the host, the meta
    tags score, altTextPercentage, the links score, the performance score,
    the mobile score and the overall score are integers; the readability
    score is the clamped value [100 - |wordCount / sentenceCount - 15| * 3],
    not rounded. *)
Theorem scores_are_integers (html url : jsstring) (r : Analysis) :
  analyze html url = Ok r ->
  count (cheerio_load html "img") < 2 ^ 32 ->
  len (text (cheerio_load html "body")) < 2 ^ 32 ->
  is_integer (metaTagsScore r) = true
  /\ is_integer (altTextPercentage (images_analysis (a_images r))) = true
  /\ is_integer (linksScore r) = true
  /\ is_integer (performanceScore r) = true
  /\ is_integer (mobileScore r) = true
  /\ is_integer (seoScore r) = true
  /\ readabilityScore (metrics (contentAnalysis r))
     = Math_min 100
         (Math_max 0
            (100
             - Math_abs
                 (Z2f (wordCount (metrics (contentAnalysis r)))
                  / Z2f (count (split is_sentence_end
                                  (cleanText (text (cheerio_load html "body")))))
                  - 15) * 3)%float).
Proof.
  intros H Hi Hb.
  destruct (report_ranges html url r H Hi Hb)
    as ([_ M] & _ & [_ A] & [_ L] & [_ P] & [_ Mo] & _ & _ & [_ O]).
  repeat split; try assumption.
  destruct (analyzeSEO_facts _ _ _ _ _ _ _ _ _ _ H)
    as (_ & _ & _ & _ & _ & _ & Ec & _).
  rewrite Ec. unfold analyzeContent. cbn [metrics readabilityScore wordCount].
  fold (cleanText (text (cheerio_load html "body"))).
  assert (S := split_from_bounds is_sentence_end false []
                 (cleanText (text (cheerio_load html "body")))).
  fold (split is_sentence_end (cleanText (text (cheerio_load html "body")))) in S.
  destruct (Z.eqb_spec
              (count (split is_sentence_end
                        (cleanText (text (cheerio_load html "body"))))) 0);
    [lia | reflexivity].
Qed.

End Ranges.

Lemma scores_in_range_witness :
  exists r,
    hi_report = Ok r
    /\ in_0_100 (metaTagsScore r) = true
    /\ in_0_100 (if hasProperH1 (headings_analysis (a_headings r))
                 then 100%float else 50%float) = true
    /\ in_0_100 (altTextPercentage (images_analysis (a_images r))) = true
    /\ in_0_100 (linksScore r) = true
    /\ in_0_100 (performanceScore r) = true
    /\ in_0_100 (mobileScore r) = true
    /\ in_0_100 (contentScore r) = true
    /\ in_0_100 (readabilityScore (metrics (contentAnalysis r))) = true
    /\ in_0_100 (seoScore r) = true.
Proof.
  exists_report hi_report.
  apply (scores_in_range hi_page Host.origin Host.href Host.lower Host.fixed1
           Host.parse Host.print [] (lit "https://example.com"));
    vm_compute; reflexivity.
Defined.

Lemma scores_are_integers_witness :
  exists r,
    hi_report = Ok r
    /\ is_integer (metaTagsScore r) = true
    /\ is_integer (altTextPercentage (images_analysis (a_images r))) = true
    /\ is_integer (linksScore r) = true
    /\ is_integer (performanceScore r) = true
    /\ is_integer (mobileScore r) = true
    /\ is_integer (seoScore r) = true
    /\ readabilityScore (metrics (contentAnalysis r)) = 56.5%float.
Proof.
  exists_report hi_report.
  destruct (scores_are_integers hi_page Host.origin Host.href Host.lower
              Host.fixed1 Host.parse Host.print [] (lit "https://example.com")
              _ eq_refl)
    as (M & A & L & P & Mo & O & R); [vm_compute; reflexivity ..|].
  repeat split; try assumption.
Defined.

(** ** The percentage of images with alt text *)

Lemma Rdiv_ge_of a b L :
  0 < b -> (L * IZR b <= IZR a)%R -> (L <= IZR a / IZR b)%R.
Proof.
  intros Hb H. apply IZR_lt in Hb.
  apply Rmult_le_reg_r with (IZR b); [lra|].
  replace (IZR a / IZR b * IZR b)%R with (IZR a) by (field; lra). exact H.
Qed.

Lemma Rdiv_le_of a b U :
  0 < b -> (IZR a <= U * IZR b)%R -> (IZR a / IZR b <= U)%R.
Proof.
  intros Hb H. apply IZR_lt in Hb.
  apply Rmult_le_reg_r with (IZR b); [lra|].
  replace (IZR a / IZR b * IZR b)%R with (IZR a) by (field; lra). exact H.
Qed.

Lemma two_32 : IZR (2 ^ 32) = 4294967296%R.
Proof. reflexivity. Qed.

Lemma two_53 : IZR (2 ^ 53) = 9007199254740992%R.
Proof. reflexivity. Qed.

(** The quotient of two counters, as the code computes it, between two
    numbers of the format that enclose the exact quotient. *)
Lemma ratio_between a b lo hi :
  0 <= a < 2 ^ 53 -> 0 < b < 2 ^ 53 ->
  finite lo -> finite hi ->
  (B2R lo * IZR b <= IZR a <= B2R hi * IZR b)%R ->
  fbetween (B2R lo) (B2R hi) (Z2f a / Z2f b).
Proof.
  intros Ha Hb Fl Fh [L U].
  destruct (Z2f_exact a ltac:(lia)) as [Fa Va].
  destruct (Z2f_exact b ltac:(lia)) as [Fb Vb].
  apply div_between; auto using srepr_B2R.
  - rewrite Vb. apply not_0_IZR. lia.
  - rewrite Va, Vb. split; [apply Rdiv_ge_of | apply Rdiv_le_of]; auto; lia.
Qed.

(** An integer below [2^53] over a power of two is a number of the
    format. *)
Lemma srepr_dyadic z k :
  0 <= z < 2 ^ 53 -> 0 <= k <= 1000 -> srepr (IZR z / IZR (2 ^ k)).
Proof.
  intros [L U] Hk. destruct z as [|p|p]; [| | lia].
  - unfold Rdiv. rewrite Rmult_0_l. apply srepr_0.
  - assert (D : Zpos (digits2_pos p) <= 53) by (apply digits2_le; lia).
    assert (D0 : 0 < Zpos (digits2_pos p)) by lia.
    destruct (shl_align_ok p (- k) (Zpos (digits2_pos p) + - k - 53))
      as (V & G & E).
    destruct (shl_align p (- k) _) as [mz ez]. cbn [fst snd] in *.
    exists (S754_finite false mz ez). split; [|split; [reflexivity|]].
    + cbn [valid_binary]. unfold SpecFloat.bounded, canonical_mantissa.
      rewrite G, fexp_eq. apply andb_true_iff. split.
      * apply Z.eqb_eq. lia.
      * apply Z.leb_le. change (emax - prec) with 971. lia.
    + rewrite SF2R_finite, V, bpow_opp, bpow_IZR by lia. reflexivity.
Qed.

Lemma Prim2SF_positive x :
  finite x -> (0 < B2R x)%R ->
  exists m e, Prim2SF x = S754_finite false m e.
Proof.
  unfold finite, B2R. destruct (Prim2SF x) as [s| | |s m e]; try discriminate;
    intros _ P; [cbn [SF2R] in P; lra|].
  exists m, e. destruct s; [|reflexivity].
  rewrite SF2R_finite in P. assert (Q := SF2R_pos m e). lra.
Qed.

(** [Math.round] of a positive number below [2^52], as a number. *)
Lemma Math_round_Z2f x :
  finite x -> (0 < B2R x < 4503599627370496)%R ->
  exists n,
    0 <= n < 2 ^ 53
    /\ (IZR n <= B2R x + / 2 < IZR n + 1)%R
    /\ Math_round x = Z2f n.
Proof.
  intros F B. destruct (Math_round_ok x F ltac:(lra)) as (n0 & _ & I0 & _).
  unfold Math_round. assert (V := Prim2SF_valid x).
  unfold finite, B2R in *.
  destruct (Prim2SF x) as [s| | |s m e] eqn:E; try discriminate.
  - cbn [SF2R] in B. lra.
  - cbn [valid_binary] in V. rewrite SF2R_finite in B, I0.
    assert (P := SF2R_pos m e). destruct s; [lra|].
    destruct (bounded_digits _ _ V) as (D & Ee & N).
    destruct (digits2_bpow m) as [Lm _].
    destruct (Z.leb_spec 0 e) as [G|G].
    + exfalso. rewrite N in Lm by lia. change (53 - 1) with 52 in Lm.
      rewrite (proj2 bpow_lit) in Lm.
      assert (1 <= bpow e)%R by (apply bpow_ge_1; lia). nra.
    + cbn [cond_Zopp]. set (k := - e).
      assert (Pk : 0 < 2 ^ k) by (apply Z.pow_pos_nonneg; lia).
      assert (Ek : 2 ^ (k + 1) = 2 * 2 ^ k)
        by (rewrite Z.pow_add_r, Z.pow_1_r by lia; lia).
      set (n := (2 * Zpos m + 2 ^ k) / 2 ^ (k + 1)).
      assert (Q1 := Z.mul_div_le (2 * Zpos m + 2 ^ k) (2 ^ (k + 1)) ltac:(lia)).
      assert (Q2 := Z.mul_succ_div_gt (2 * Zpos m + 2 ^ k) (2 ^ (k + 1))
                      ltac:(lia)).
      fold n in Q1, Q2. rewrite Ek in Q1, Q2.
      assert (Hn : 0 <= n) by (apply Z.div_pos; lia).
      assert (Bk : (bpow e * IZR (2 ^ k) = 1)%R).
      { rewrite <- bpow_IZR by lia. rewrite <- bpow_add. unfold k.
        rewrite Z.add_opp_diag_r. apply bpow_0. }
      assert (Rk : (0 < IZR (2 ^ k))%R) by (apply IZR_lt; lia).
      apply IZR_le in Q1. apply IZR_lt in Q2.
      rewrite ?mult_IZR, ?plus_IZR, ?mult_IZR in Q1, Q2.
      assert (S : (IZR (Z.succ n) = IZR n + 1)%R) by (rewrite succ_IZR; lra).
      rewrite S in Q2.
      assert (I : (IZR n <= IZR (Zpos m) * bpow e + / 2 < IZR n + 1)%R).
      { set (M := IZR (Zpos m)) in *. set (T := IZR (2 ^ k)) in *.
        set (b := bpow e) in *. set (Nn := IZR n) in *.
        assert (M * b * T = M)%R by (rewrite Rmult_assoc, Bk; lra).
        split; nra. }
      exists n. split.
      { split; [exact Hn|]. apply lt_IZR.
        change (2 ^ 53) with 9007199254740992. lra. }
      split; [exact I|].
      destruct (Z.eqb_spec n 0) as [->|NZ]; reflexivity.
Qed.

Lemma two_40 : IZR (2 ^ 40) = 1099511627776%R.
Proof. reflexivity. Qed.

(** The quotient of two counters and its product with 100, as the code
    computes them. *)
Lemma percentage_finite w t :
  0 <= w <= t -> 0 < t < 2 ^ 32 ->
  fbetween 0 1 (Z2f w / Z2f t)
  /\ fbetween 0 100 (Z2f w / Z2f t * 100).
Proof.
  intros Hw Ht.
  assert (T : 2 ^ 32 < 2 ^ 53) by reflexivity.
  lit 0%float. lit 1%float. lit 100%float.
  assert (Q : fbetween (B2R 0) (B2R 1) (Z2f w / Z2f t)).
  { assert (0 <= IZR w)%R by (apply (IZR_le 0); lia).
    assert (IZR w <= IZR t)%R by (apply IZR_le; lia).
    apply ratio_between; auto; try lia. use_values. lra. }
  destruct Q as [Fq Bq]. revert Bq. use_values. intros Bq.
  split; [split; [exact Fq | lra]|].
  assert (M : fbetween (B2R 0) (B2R 100) (Z2f w / Z2f t * 100)).
  { apply mul_between; auto using srepr_lit. use_values. lra. }
  destruct M as [Fm Bm]. revert Bm. use_values. intros Bm.
  split; [exact Fm | lra].
Qed.

(** A half-integer below the exact percentage is below the computed one. *)
Lemma percentage_above h w t :
  0 <= w <= t -> 0 < t < 2 ^ 32 -> 0 <= h -> h * t < 200 * w ->
  (IZR h / 2 <= B2R (Z2f w / Z2f t * 100))%R.
Proof.
  intros Hw Ht Hh H.
  assert (T : 2 ^ 32 = 4294967296) by reflexivity.
  assert (P : 2 ^ 53 = 9007199254740992) by reflexivity.
  assert (H200 : h < 200) by nia.
  set (L := h * 2 ^ 53 / 200 + 1).
  assert (Q1 := Z.mul_div_le (h * 2 ^ 53) 200 ltac:(lia)).
  assert (Q2 := Z.mul_succ_div_gt (h * 2 ^ 53) 200 ltac:(lia)).
  assert (L0 : 0 <= h * 2 ^ 53 / 200) by (apply Z.div_pos; lia).
  assert (BL : 0 <= L < 2 ^ 53) by (unfold L; lia).
  assert (K : L * t <= w * 2 ^ 53).
  { assert (200 * (L * t) <= 200 * (w * 2 ^ 53)); [|lia].
    assert (200 * L <= h * 2 ^ 53 + 200) by (unfold L; lia).
    assert (200 * L * t <= (h * 2 ^ 53 + 200) * t) by nia.
    nia. }
  assert (G : h * 2 ^ 53 < 200 * L) by (unfold L; lia).
  destruct (Z2f_exact w ltac:(lia)) as [Fw Vw].
  destruct (Z2f_exact t ltac:(lia)) as [Ft Vt].
  destruct (percentage_finite w t Hw Ht) as [[Fq Bq] _].
  lit 100%float. lit 1%float.
  assert (Rt : (0 < IZR t)%R) by (apply (IZR_lt 0); lia).
  assert (Rp : IZR (2 ^ 53) = 9007199254740992%R) by reflexivity.
  assert (A : fbetween (IZR L / IZR (2 ^ 53)) (B2R 1) (Z2f w / Z2f t)).
  { apply div_between; auto using srepr_lit.
    - rewrite Vt. lra.
    - apply srepr_dyadic; lia.
    - rewrite Vw, Vt. split.
      + apply Rdiv_ge_of; [lia|]. apply IZR_le in K. rewrite !mult_IZR in K.
        rewrite Rp in *. lra.
      + assert (IZR w <= IZR t)%R by (apply IZR_le; lia).
        apply Rdiv_le_of; [lia|]. use_values. lra. }
  destruct A as [_ [A _]].
  assert (E : (IZR h / 2 = IZR h / IZR (2 ^ 1))%R) by reflexivity.
  assert (M : fbetween (IZR h / IZR (2 ^ 1)) (B2R 100) (Z2f w / Z2f t * 100)).
  { apply mul_between; auto using srepr_lit.
    - apply srepr_dyadic; lia.
    - apply IZR_lt in G. rewrite !mult_IZR in G. rewrite Rp in *.
      change (IZR (2 ^ 1)) with 2%R. use_values. lra. }
  rewrite E. exact (proj1 (proj2 M)).
Qed.

(** A half-integer above the exact percentage is above the computed one. *)
Lemma percentage_below h w t :
  0 <= w <= t -> 0 < t < 2 ^ 32 -> 200 * w < h * t ->
  (B2R (Z2f w / Z2f t * 100) < IZR h / 2)%R.
Proof.
  intros Hw Ht H.
  assert (T : 2 ^ 32 = 4294967296) by reflexivity.
  assert (P : 2 ^ 53 = 9007199254740992) by reflexivity.
  assert (Hh : 1 <= h) by nia.
  destruct (percentage_finite w t Hw Ht) as [[Fq Bq] [Fr Br]].
  destruct (Z_le_gt_dec h 200) as [H200|H200].
  2:{ assert (201 <= IZR h)%R by (apply (IZR_le 201); lia). lra. }
  set (U := (h * 2 ^ 53 - 2 ^ 14) / 200).
  assert (P14 : 2 ^ 14 = 16384) by reflexivity.
  assert (Q1 := Z.mul_div_le (h * 2 ^ 53 - 2 ^ 14) 200 ltac:(lia)).
  assert (Q2 := Z.mul_succ_div_gt (h * 2 ^ 53 - 2 ^ 14) 200 ltac:(lia)).
  assert (U0 : 0 <= U) by (apply Z.div_pos; lia).
  assert (BU : 0 <= U < 2 ^ 53) by (unfold U in *; lia).
  assert (K : w * 2 ^ 53 <= U * t).
  { assert (200 * (w * 2 ^ 53) <= 200 * (U * t)); [|lia].
    assert (h * 2 ^ 53 - 2 ^ 14 - 200 < 200 * U) by (unfold U; lia).
    assert ((h * 2 ^ 53 - 2 ^ 14 - 200) * t <= 200 * U * t) by nia.
    nia. }
  assert (G : 200 * U <= h * 2 ^ 53 - 2 ^ 14) by (unfold U; lia).
  destruct (Z2f_exact w ltac:(lia)) as [Fw Vw].
  destruct (Z2f_exact t ltac:(lia)) as [Ft Vt].
  lit 100%float. lit 0%float.
  assert (Rt : (0 < IZR t)%R) by (apply (IZR_lt 0); lia).
  assert (Rp : IZR (2 ^ 53) = 9007199254740992%R) by reflexivity.
  assert (A : fbetween (B2R 0) (IZR U / IZR (2 ^ 53)) (Z2f w / Z2f t)).
  { apply div_between; auto using srepr_lit.
    - rewrite Vt. lra.
    - apply srepr_dyadic; lia.
    - rewrite Vw, Vt. split.
      + assert (0 <= IZR w)%R by (apply (IZR_le 0); lia).
        apply Rdiv_ge_of; [lia|]. use_values. lra.
      + apply Rdiv_le_of; [lia|]. apply IZR_le in K. rewrite !mult_IZR in K.
        rewrite Rp in *. lra. }
  destruct A as [_ [_ A]].
  assert (M : fbetween (B2R 0) (IZR (h * 2 ^ 39 - 1) / IZR (2 ^ 40))
                (Z2f w / Z2f t * 100)).
  { apply mul_between; auto using srepr_lit.
    - apply srepr_dyadic; [|lia]. change (2 ^ 39) with 549755813888. lia.
    - apply IZR_le in G. rewrite minus_IZR, !mult_IZR in G.
      rewrite minus_IZR, mult_IZR, two_40.
      change (IZR (2 ^ 39)) with 549755813888%R.
      change (IZR (2 ^ 14)) with 16384%R in G. rewrite Rp in *.
      use_values. lra. }
  destruct M as [_ [_ M]]. revert M.
  rewrite minus_IZR, mult_IZR, two_40.
  change (IZR (2 ^ 39)) with 549755813888%R. lra.
Qed.

(** A page with images of which some have an alt text has a positive
    percentage. *)
Lemma percentage_positive w t :
  0 < w <= t -> 0 < t < 2 ^ 32 -> (0 < B2R (Z2f w / Z2f t * 100))%R.
Proof.
  intros Hw Ht.
  assert (T : 2 ^ 32 = 4294967296) by reflexivity.
  assert (H := percentage_above 0 w t ltac:(lia) Ht ltac:(lia) ltac:(lia)).
  destruct (Z_le_gt_dec 200 (200 * w)) as [G|G]; [|lia].
  destruct (Z_lt_le_dec t (200 * w)) as [G1|G1].
  - assert (H1 := percentage_above 1 w t ltac:(lia) Ht ltac:(lia) ltac:(lia)).
    lra.
  - (* fewer than one image in 200: compare with a small half-integer *)
    assert (Rt : (0 < IZR t)%R) by (apply (IZR_lt 0); lia).
    destruct (Z2f_exact w ltac:(lia)) as [Fw Vw].
    destruct (Z2f_exact t ltac:(lia)) as [Ft Vt].
    destruct (percentage_finite w t ltac:(lia) Ht) as [[Fq Bq] _].
    lit 100%float. lit 1%float.
    assert (A : fbetween (IZR 1 / IZR (2 ^ 32)) (B2R 1) (Z2f w / Z2f t)).
    { apply div_between; auto using srepr_lit.
      - rewrite Vt. lra.
      - apply srepr_dyadic; lia.
      - rewrite Vw, Vt. split.
        + apply Rdiv_ge_of; [lia|]. rewrite two_32.
          assert (1 <= IZR w)%R by (apply (IZR_le 1); lia).
          assert (IZR t < 4294967296)%R by (rewrite <- two_32; apply IZR_lt; lia).
          lra.
        + assert (IZR w <= IZR t)%R by (apply IZR_le; lia).
          apply Rdiv_le_of; [lia|]. use_values. lra. }
    destruct A as [_ [A _]].
    assert (M : fbetween (IZR 1 / IZR (2 ^ 32)) (B2R 100) (Z2f w / Z2f t * 100)).
    { apply mul_between; auto using srepr_lit.
      - apply srepr_dyadic; lia.
      - revert A. rewrite two_32. use_values. lra. }
    destruct M as [_ [M _]]. revert M. rewrite two_32. lra.
Qed.

(** With no image with an alt text the computed percentage is [+0]. *)
Lemma percentage_zero t :
  0 < t < 2 ^ 53 -> (Z2f 0 / Z2f t * 100)%float = 0%float.
Proof.
  intros Ht. destruct (Z2f_exact t ltac:(lia)) as [Ft Vt].
  destruct (Prim2SF_positive (Z2f t) Ft) as (m & e & E).
  { rewrite Vt. apply (IZR_lt 0). lia. }
  apply Prim2SF_inj. rewrite mul_spec, div_spec, E. reflexivity.
Qed.

(** [Math.round(withAlt / total * 100)]: the exact percentage rounded to
    the nearest integer, halves upwards, except that a percentage that ends
    in one half may be rounded downwards. *)
Lemma percentage_rounded w t :
  0 <= w <= t -> 0 < t < 2 ^ 32 ->
  let nearest := (200 * w + t) / (2 * t) in
  exists p,
    Math_round (Z2f w / Z2f t * 100) = Z2f p
    /\ nearest - 1 <= p <= nearest
    /\ ((200 * w) mod (2 * t) <> t -> p = nearest).
Proof.
  intros Hw Ht. cbn zeta.
  assert (T : 2 ^ 32 = 4294967296) by reflexivity.
  assert (P : 2 ^ 53 = 9007199254740992) by reflexivity.
  set (k := (200 * w + t) / (2 * t)).
  assert (Q1 := Z.mul_div_le (200 * w + t) (2 * t) ltac:(lia)).
  assert (Q2 := Z.mul_succ_div_gt (200 * w + t) (2 * t) ltac:(lia)).
  fold k in Q1, Q2.
  assert (K0 : 0 <= k) by (apply Z.div_pos; lia).
  destruct (Z.eq_dec w 0) as [->|W].
  { exists 0. rewrite percentage_zero by lia.
    assert (k = 0) by nia. split; [reflexivity|]. lia. }
  destruct (percentage_finite w t Hw Ht) as [_ [Fr Br]].
  assert (Pr := percentage_positive w t ltac:(lia) Ht).
  destruct (Math_round_Z2f (Z2f w / Z2f t * 100) Fr ltac:(lra))
    as (n & Bn & I & E).
  exists n. split; [exact E|].
  assert (U : n <= k).
  { assert (H := percentage_below (2 * k + 1) w t Hw Ht ltac:(lia)).
    rewrite plus_IZR, mult_IZR in H.
    assert (IZR n < IZR (k + 1))%R by (rewrite plus_IZR; lra).
    apply lt_IZR in H0. lia. }
  assert (L : k - 1 <= n).
  { destruct (Z_le_gt_dec k 1) as [G|G]; [lia|].
    assert (H := percentage_above (2 * k - 3) w t Hw Ht ltac:(lia) ltac:(nia)).
    rewrite minus_IZR, mult_IZR in H.
    assert (IZR (k - 2) < IZR n)%R by (rewrite minus_IZR; lra).
    apply lt_IZR in H0. lia. }
  split; [lia|]. intros N.
  destruct (Z.eq_dec k 0) as [K|K]; [lia|].
  assert (S : (2 * k - 1) * t < 200 * w).
  { destruct (Z_lt_le_dec ((2 * k - 1) * t) (200 * w)) as [?|G]; [assumption|].
    exfalso. apply N. assert (Eq : 200 * w = t + (k - 1) * (2 * t)) by lia.
    rewrite Eq, Z.mod_add by lia. apply Z.mod_small. lia. }
  assert (H := percentage_above (2 * k - 1) w t Hw Ht ltac:(lia) S).
  rewrite minus_IZR, mult_IZR in H.
  assert (IZR (k - 1) < IZR n)%R by (rewrite minus_IZR; lra).
  apply lt_IZR in H0. lia.
Qed.

(** C8. The images extractor counts the [<img>] elements and those with a
    non-empty alt text.  With no image the percentage is exactly 100 and the
    status is good.  With images, fewer than [2^32], the percentage is the
    integer nearest to [100 * imagesWithAlt / totalImages], halves upwards,
    whenever the exact percentage does not end in one half; when it does,
    the result is that integer or the one below it: the quotient is rounded
    to a binary64 number before it is multiplied by 100, and
    [Math.round] of the product then goes downwards where the product fell
    below the half. *)
Theorem altTextPercentage_rounding
    (cheerio_load : jsstring -> cheerio)
    (URL_href : jsstring -> jsstring -> option jsstring)
    (html url : jsstring) (facts : Images) :
  extractImages cheerio_load URL_href html url = Ok facts ->
  count (cheerio_load html "img") < 2 ^ 32 ->
  let imgs := cheerio_load html "img" in
  let a := images_analysis facts in
  let withAlt := imagesWithAlt a in
  let total := totalImages a in
  let nearest := (200 * withAlt + total) / (2 * total) in
  total = count imgs
  /\ withAlt = count (filter (fun el => truthy (alt_of el)) imgs)
  /\ (total = 0 -> altTextPercentage a = 100%float /\ image_status a = good)
  /\ (0 < total ->
      exists p,
        altTextPercentage a = Z2f p
        /\ nearest - 1 <= p <= nearest
        /\ ((200 * withAlt) mod (2 * total) <> total -> p = nearest)).
Proof.
  unfold extractImages. intros H B.
  destruct (each_img URL_href url (cheerio_load html "img")) as [imgs|] eqn:E;
    [|discriminate].
  simpl in H. inversion H; subst facts; clear H. cbn zeta.
  cbn [images_analysis totalImages imagesWithAlt altTextPercentage image_status].
  apply each_img_hasAlt in E.
  rewrite (count_map_eq _ _ _ _ E), (count_filter_map _ _ _ _ E).
  set (n := count (cheerio_load html "img")) in *.
  set (w := count (filter _ _)).
  assert (W : 0 <= w <= n).
  { unfold w, n.
    assert (Q := count_filter_le (fun el => truthy (alt_of el))
                   (cheerio_load html "img")).
    unfold count in *. lia. }
  split; [reflexivity|]. split; [reflexivity|]. split.
  - intros ->. split; reflexivity.
  - intros Hn. assert (G := Hn). apply Z.ltb_lt in G. rewrite G.
    apply percentage_rounded; [exact W | lia].
Qed.

(** The page with 23 of 40 images with an alt text: the percentage is 57.5,
    the nearest integer, halves upwards, is 58, and the code gives 57. *)
Lemma altTextPercentage_rounding_witness :
  exists facts,
    extractImages tie_images_page Host.href [] (lit "https://example.com/")
    = Ok facts
    /\ totalImages (images_analysis facts) = 40
    /\ imagesWithAlt (images_analysis facts) = 23
    /\ (200 * 23 + 40) / (2 * 40) = 58
    /\ altTextPercentage (images_analysis facts) = 57%float.
Proof.
  exists_report (extractImages tie_images_page Host.href []
                   (lit "https://example.com/")).
  match goal with
  | |- context [images_analysis ?f] =>
      destruct (altTextPercentage_rounding tie_images_page Host.href []
                  (lit "https://example.com/") f eq_refl)
        as (Ht & Hw & _ & Hp); [vm_compute; reflexivity|]
  end.
  cbn zeta in Ht, Hw, Hp. rewrite Ht, Hw.
  split; [vm_compute; reflexivity|]. split; [vm_compute; reflexivity|].
  split; [reflexivity|].
  destruct Hp as (p & E & _); [rewrite Ht; vm_compute; reflexivity|].
  vm_compute. reflexivity.
Defined.

(** * Further properties *)

(** ** The store *)

Lemma jseqb_eq a b : jseqb a b = true <-> a = b.
Proof.
  revert b. induction a as [|x a IH]; intros [|y b]; simpl;
    try (split; [discriminate | discriminate]); [tauto|].
  rewrite andb_true_iff, N.eqb_eq, IH. split.
  - intros [-> ->]. reflexivity.
  - intros E. injection E as -> ->. auto.
Qed.

Lemma jseqb_refl a : jseqb a a = true.
Proof. now apply jseqb_eq. Qed.

Lemma map_set_fresh k v m :
  Forall (fun kv => fst kv < k) m -> map_set k v m = m ++ [(k, v)].
Proof.
  induction 1 as [|[k' v'] m H _ IH]; [reflexivity|].
  cbn [map_set fst] in *. destruct (Z.eqb_spec k' k); [lia|].
  now rewrite IH.
Qed.

Lemma records_from_keys i l :
  Forall (fun kv => i <= fst kv < i + count l) (records_from i l).
Proof.
  unfold count. revert i. induction l as [|[now a] l IH]; intros i;
    cbn [records_from]; constructor.
  - cbn [fst List.length]. lia.
  - eapply Forall_impl; [|apply IH]. cbn [List.length]. intros kv. lia.
Qed.

Lemma records_from_app i l l' :
  records_from i (l ++ l') = records_from i l ++ records_from (i + count l) l'.
Proof.
  unfold count. revert i. induction l as [|[now a] l IH]; intros i.
  - cbn. now rewrite Z.add_0_r.
  - cbn [app records_from List.length]. rewrite IH. do 3 f_equal. lia.
Qed.

Lemma save_all_records l :
  seoAnalyses (save_all MemStorage_new l) = records_from 1 l
  /\ seoAnalysisCurrentId (save_all MemStorage_new l) = count l + 1.
Proof.
  unfold save_all. induction l as [|[now a] l IH] using rev_ind; [split; reflexivity|].
  rewrite fold_left_app. cbn [fold_left].
  set (st := fold_left _ l MemStorage_new) in *.
  destruct IH as [E N]. unfold saveSeoAnalysis.
  cbn [fst snd seoAnalyses seoAnalysisCurrentId]. rewrite E, N. split.
  - rewrite map_set_fresh.
    + rewrite records_from_app. cbn [records_from].
      replace (1 + count l) with (count l + 1) by lia. reflexivity.
    + eapply Forall_impl; [|apply records_from_keys]. intros kv. cbn beta.
      unfold count. lia.
  - unfold count. rewrite length_app. cbn [List.length]. lia.
Qed.

Lemma find_app_none {A} (f : A -> bool) l l' :
  find f l = None -> find f (l ++ l') = find f l'.
Proof.
  induction l as [|x l IH]; [reflexivity|]. cbn [find app].
  destruct (f x); [discriminate | exact IH].
Qed.

Lemma find_records_none u i l :
  Forall (fun p => url (snd p) <> u) l ->
  find (fun a => jseqb (url (sa_analysis a)) u) (map snd (records_from i l)) = None.
Proof.
  intros H. revert i. induction H as [|[now a] l H _ IH]; intros i; [reflexivity|].
  cbn [records_from map snd find sa_analysis].
  destruct (jseqb (url a) u) eqn:E; [|apply IH].
  apply jseqb_eq in E. now elim H.
Qed.

(** X1. After any sequence of saves into a new store, the lookup by URL
    gives the first analysis that was saved for this URL, with its position
    in the sequence as id and the time of its save, whatever was saved for
    the URL later; the next id is the number of saves plus one. *)
Theorem getSeoAnalysisByUrl_first_saved
    (before after : list (Z * Analysis)) (now : Z) (a : Analysis) :
  Forall (fun p => url (snd p) <> url a) before ->
  let st := save_all MemStorage_new (before ++ (now, a) :: after) in
  getSeoAnalysisByUrl st (url a)
  = Some {| sa_analysis := a; sa_id := count before + 1; sa_createdAt := now |}
  /\ seoAnalysisCurrentId st = count before + count after + 2.
Proof.
  intros H. cbn zeta.
  destruct (save_all_records (before ++ (now, a) :: after)) as [E N].
  split.
  - unfold getSeoAnalysisByUrl. rewrite E, records_from_app, map_app.
    rewrite find_app_none by (now apply find_records_none).
    cbn [records_from map snd find sa_analysis]. rewrite jseqb_refl.
    replace (1 + count before) with (count before + 1) by lia. reflexivity.
  - rewrite N. unfold count. rewrite length_app. cbn [List.length]. lia.
Qed.

Lemma getSeoAnalysisByUrl_first_saved_witness :
  exists a,
    hi_report = Ok a
    /\ exists b,
         other_report = Ok b
         /\ getSeoAnalysisByUrl
              (save_all MemStorage_new [(10, b); (20, a); (30, a)])
              (lit "https://example.com")
            = Some {| sa_analysis := a; sa_id := 2; sa_createdAt := 20 |}.
Proof.
  exists_report hi_report. exists_report other_report.
  match goal with
  | |- getSeoAnalysisByUrl (save_all _ [(_, ?b); (_, ?a); _]) _ = _ =>
      refine (proj1 (getSeoAnalysisByUrl_first_saved [(10, b)] [(30, a)] 20 a _))
  end.
  constructor; [|constructor]. intros E. vm_compute in E. discriminate.
Defined.

(** *** The recent analyses *)

Lemma Forall_firstn_of {A} (P : A -> Prop) n l :
  Forall P l -> Forall P (firstn n l).
Proof.
  intros H. revert n. induction H; intros [|n]; cbn [firstn]; auto.
Qed.

Lemma Forall_skipn_of {A} (P : A -> Prop) n l :
  Forall P l -> Forall P (skipn n l).
Proof.
  intros H. revert n. induction H; intros [|n]; cbn [skipn]; auto.
Qed.

Section Sorting.

Context {A : Type}.
Variable key : A -> Z.

Let cmp (a b : A) : Z := key b - key a.
Let newer_first (a b : A) : Prop := key b <= key a.

Lemma sort_insert_perm x l : Permutation (sort_insert cmp x l) (x :: l).
Proof.
  induction l as [|y l IH]; cbn [sort_insert]; [reflexivity|].
  destruct (cmp x y <=? 0); [reflexivity|].
  rewrite IH. apply perm_swap.
Qed.

Lemma Array_sort_perm l : Permutation (Array_sort cmp l) l.
Proof.
  induction l as [|x l IH]; cbn [Array_sort fold_right]; [reflexivity|].
  fold (Array_sort cmp l). rewrite sort_insert_perm. now constructor.
Qed.

Lemma sort_insert_sorted x l :
  StronglySorted newer_first l -> StronglySorted newer_first (sort_insert cmp x l).
Proof.
  induction 1 as [|y l S IH F]; cbn [sort_insert].
  - repeat constructor.
  - unfold cmp at 1. destruct (Z.leb_spec (key y - key x) 0) as [L|L].
    + constructor; [now constructor|]. constructor.
      * unfold newer_first. lia.
      * eapply Forall_impl; [|exact F]. unfold newer_first. intros z. lia.
    + constructor; [exact IH|].
      rewrite (sort_insert_perm x l). constructor; [|exact F].
      unfold newer_first. lia.
Qed.

Lemma Array_sort_sorted l : StronglySorted newer_first (Array_sort cmp l).
Proof.
  induction l as [|x l IH]; cbn [Array_sort fold_right]; [constructor|].
  now apply sort_insert_sorted.
Qed.

Lemma sorted_firstn n l :
  StronglySorted newer_first l ->
  StronglySorted newer_first (firstn n l)
  /\ Forall (fun old => Forall (fun a => newer_first a old) (firstn n l))
       (skipn n l).
Proof.
  intros S. revert n. induction S as [|x l S IH F]; intros [|n];
    cbn [firstn skipn].
  - split; constructor.
  - split; constructor.
  - split; [constructor|]. apply Forall_forall. intros; constructor.
  - destruct (IH n) as [Q R]. split.
    + constructor; [exact Q|]. now apply Forall_firstn_of.
    + apply (Forall_skipn_of _ n) in F.
      rewrite Forall_forall in *. intros old Ho. constructor; auto.
Qed.

End Sorting.

Lemma count_firstn {A} (n : Z) (l : list A) :
  0 <= n <= count l -> count (firstn (Z.to_nat n) l) = n.
Proof.
  unfold count. intros H. rewrite length_firstn. lia.
Qed.

(** X2. [getRecentSeoAnalyses(limit)] gives the [limit] newest analyses of
    the store, the newest first: their number is [min(limit, size)] (a
    negative [limit] leaves out that many of the oldest instead), they are
    in the order of decreasing creation time, and together with the ones
    left out, none of which is newer than any of them, they are the
    analyses of the store.  [GET /api/recent-analyses] answers 200 with at
    most five of them. *)
Theorem getRecentSeoAnalyses_newest_first (st : MemStorage) (limit : Z) :
  let all := map snd (seoAnalyses st) in
  let recent := getRecentSeoAnalyses st limit in
  count recent
  = (if limit <? 0 then Z.max (count all + limit) 0 else Z.min limit (count all))
  /\ StronglySorted (fun a b => sa_createdAt b <= sa_createdAt a) recent
  /\ (exists rest,
        Permutation (recent ++ rest) all
        /\ Forall (fun old =>
                     Forall (fun a => sa_createdAt old <= sa_createdAt a) recent)
             rest)
  /\ get_recent_analyses st = json 200 (J_analyses (getRecentSeoAnalyses st 5))
  /\ count (getRecentSeoAnalyses st 5) = Z.min 5 (count all).
Proof.
  cbn zeta. unfold get_recent_analyses, getRecentSeoAnalyses.
  set (all := map snd (seoAnalyses st)).
  set (sorted := Array_sort _ all).
  assert (P : Permutation sorted all) by apply (Array_sort_perm sa_createdAt).
  assert (S := Array_sort_sorted sa_createdAt all). fold sorted in S. cbn beta in S.
  assert (C : count sorted = count all).
  { unfold count. now rewrite (Permutation_length P). }
  assert (N : 0 <= count all) by (unfold count; lia).
  assert (L : forall e,
             count (slice0 sorted e)
             = (if e <? 0 then Z.max (count all + e) 0 else Z.min e (count all))).
  { intros e. unfold slice0. rewrite C.
    destruct (Z.ltb_spec e 0); rewrite count_firstn; lia. }
  split; [apply L|]. split; [|split; [|split; [reflexivity | apply L]]].
  - unfold slice0. now apply (sorted_firstn sa_createdAt).
  - unfold slice0. set (n := Z.to_nat _).
    exists (skipn n sorted). split.
    + now rewrite firstn_skipn.
    + now apply (sorted_firstn sa_createdAt).
Qed.

(** *** The users *)

Lemma Map_set_fresh {V} k (v : V) m :
  Forall (fun kv => fst kv < k) m -> Map_set k v m = m ++ [(k, v)].
Proof.
  induction 1 as [|[k' v'] m H _ IH]; [reflexivity|].
  cbn [Map_set fst] in *. destruct (Z.eqb_spec k' k); [lia|].
  now rewrite IH.
Qed.

Lemma users_from_keys i l :
  Forall (fun kv => i <= fst kv < i + count l) (users_from i l).
Proof.
  unfold count. revert i. induction l as [|u l IH]; intros i;
    cbn [users_from]; constructor.
  - cbn [fst List.length]. lia.
  - eapply Forall_impl; [|apply IH]. cbn [List.length]. intros kv. lia.
Qed.

Lemma users_from_app i l l' :
  users_from i (l ++ l') = users_from i l ++ users_from (i + count l) l'.
Proof.
  unfold count. revert i. induction l as [|u l IH]; intros i.
  - cbn. now rewrite Z.add_0_r.
  - cbn [app users_from List.length]. rewrite IH. do 3 f_equal. lia.
Qed.

Lemma create_all_users l :
  users (create_all UserStorage_new l) = users_from 1 l
  /\ userCurrentId (create_all UserStorage_new l) = count l + 1.
Proof.
  unfold create_all. induction l as [|u l IH] using rev_ind; [split; reflexivity|].
  rewrite fold_left_app. cbn [fold_left].
  set (st := fold_left _ l UserStorage_new) in *.
  destruct IH as [E N]. unfold createUser.
  cbn [fst snd users userCurrentId]. rewrite E, N. split.
  - rewrite Map_set_fresh.
    + rewrite users_from_app. cbn [users_from].
      replace (1 + count l) with (count l + 1) by lia. reflexivity.
    + eapply Forall_impl; [|apply users_from_keys]. intros kv. cbn beta.
      unfold count. lia.
  - unfold count. rewrite length_app. cbn [List.length]. lia.
Qed.

Lemma Map_get_users_from i l id :
  Map_get id (users_from i l)
  = if (i <=? id) && (id <? i + count l)
    then option_map (mk_user id) (nth_error l (Z.to_nat (id - i)))
    else None.
Proof.
  unfold count. revert i. induction l as [|u l IH]; intros i;
    cbn [users_from Map_get List.length].
  - destruct (i <=? id) eqn:E1; [|reflexivity].
    destruct (Z.ltb_spec id (i + Z.of_nat 0)); [lia | reflexivity].
  - destruct (Z.eqb_spec i id) as [->|N].
    + rewrite Z.leb_refl. destruct (Z.ltb_spec id (id + Z.of_nat (S (List.length l))));
        [|lia]. rewrite Z.sub_diag. reflexivity.
    + rewrite IH.
      destruct (Z.leb_spec (i + 1) id), (Z.leb_spec i id); try lia;
        cbn [andb]; [|reflexivity].
      destruct (Z.ltb_spec id (i + 1 + Z.of_nat (List.length l))),
               (Z.ltb_spec id (i + Z.of_nat (S (List.length l)))); try lia;
        [|reflexivity].
      replace (Z.to_nat (id - i)) with (S (Z.to_nat (id - (i + 1)))) by lia.
      reflexivity.
Qed.

Lemma find_users_none name i l :
  Forall (fun u => username u <> name) l ->
  find (fun user => jseqb (user_username user) name) (map snd (users_from i l))
  = None.
Proof.
  intros H. revert i. induction H as [|u l H _ IH]; intros i; [reflexivity|].
  cbn [users_from map snd find mk_user user_username].
  destruct (jseqb (username u) name) eqn:E; [|apply IH].
  apply jseqb_eq in E. now elim H.
Qed.

(** X3. After any sequence of [createUser] on a new store, [getUser(id)]
    gives the user created by the [id]-th call, with this id, and nothing
    for an id that is not between 1 and the number of calls; the name and
    the password are those given to the call.  [getUserByUsername] gives
    the first user that was created with the name, whatever was created
    with it later. *)
Theorem getUser_after_createUser (l : list InsertUser) (id : Z) :
  let st := create_all UserStorage_new l in
  getUser st id
  = (if (1 <=? id) && (id <=? count l)
     then
       option_map
         (fun u => {| user_username := username u;
                      user_password := password u;
                      user_id := id |})
         (nth_error l (Z.to_nat (id - 1)))
     else None)
  /\ userCurrentId st = count l + 1
  /\ (forall before u after,
        l = before ++ u :: after ->
        Forall (fun v => username v <> username u) before ->
        getUserByUsername st (username u)
        = Some {| user_username := username u;
                  user_password := password u;
                  user_id := count before + 1 |}).
Proof.
  cbn zeta. destruct (create_all_users l) as [E N].
  split; [|split; [exact N|]].
  - unfold getUser. rewrite E, Map_get_users_from.
    replace (id <? 1 + count l) with (id <=? count l)
      by (destruct (Z.leb_spec id (count l)), (Z.ltb_spec id (1 + count l));
          unfold count in *; lia).
    reflexivity.
  - intros before u after -> H. unfold getUserByUsername.
    rewrite E, users_from_app, map_app.
    rewrite find_app_none by (now apply find_users_none).
    cbn [users_from map snd find mk_user user_username]. rewrite jseqb_refl.
    replace (1 + count before) with (count before + 1) by lia. reflexivity.
Qed.

(** ** When the analysis returns *)

Lemma each_img_returns URL_href url els :
  (exists imgs, each_img URL_href url els = Ok imgs)
  <-> forallb (img_resolves URL_href url) els = true.
Proof.
  induction els as [|el els IH]; cbn [each_img forallb].
  - split; eauto.
  - unfold img_resolves at 1. fold (src_of el).
    destruct (startsWith (src_of el) (lit "http")); cbn [orb andb bind].
    + rewrite <- IH. split; intros [imgs H].
      * destruct (each_img URL_href url els); [eauto | discriminate].
      * rewrite H. cbn [bind]. eauto.
    + destruct (URL_href (src_of el) url); cbn [of_option bind andb].
      * rewrite <- IH. split; intros [imgs H].
        -- destruct (each_img URL_href url els); [eauto | discriminate].
        -- rewrite H. cbn [bind]. eauto.
      * split; [intros [imgs H]; discriminate | discriminate].
Qed.

Lemma analyzeSEO_accepted
    (cheerio_load : jsstring -> cheerio)
    (URL_origin : jsstring -> option jsstring)
    (URL_href : jsstring -> jsstring -> option jsstring)
    (toLowerCase : jsstring -> jsstring)
    (toFixed1 : float -> jsstring) (parseFloat : jsstring -> float)
    (Number_toString : float -> jsstring)
    (html url : jsstring) :
  let outcome :=
    analyzeSEO cheerio_load URL_origin URL_href toLowerCase toFixed1 parseFloat
      Number_toString html url in
  let accepted :=
    forallb (img_resolves URL_href url) (cheerio_load html "img")
    && match URL_origin url with Some _ => true | None => false end in
  ((exists r, outcome = Ok r) <-> accepted = true)
  /\ (outcome = Throw TypeError_InvalidURL <-> accepted = false).
Proof.
  cbn zeta. unfold analyzeSEO, extractImages, extractLinks.
  assert (I := each_img_returns URL_href url (cheerio_load html "img")).
  destruct (forallb _ _).
  - destruct (proj2 I eq_refl) as [imgs ->]. cbn [bind andb].
    destruct (URL_origin url) as [b|]; cbn [of_option bind].
    + destruct (each_a _ _ _ _ _) as [i e]. cbn [bind].
      split; split; eauto; discriminate.
    + split; split; try discriminate; auto. intros [r H]. discriminate.
  - cbn [andb].
    destruct (each_img URL_href url (cheerio_load html "img")) as [imgs|[]].
    + assert (false = true) by (apply I; eauto). discriminate.
    + cbn [bind]. split; split; try discriminate; auto. intros [r H]. discriminate.
Qed.

(** ** The routes *)

Lemma nth_error_set_nth_eq {A} i (x y : A) l :
  nth_error l i = Some y -> nth_error (set_nth i x l) i = Some x.
Proof.
  revert i. induction l as [|z l IH]; intros [|i]; cbn; try discriminate; auto.
Qed.

Lemma nth_error_set_nth_neq {A} i j (x : A) l :
  i <> j -> nth_error (set_nth i x l) j = nth_error l j.
Proof.
  revert i j. induction l as [|z l IH]; intros [|i] [|j] H; cbn; auto;
    try congruence.
Qed.

Lemma set_nth_length {A} i (x : A) l :
  List.length (set_nth i x l) = List.length l.
Proof.
  revert i. induction l as [|z l IH]; intros [|i]; cbn; auto.
Qed.

Lemma set_nth_last {A} (x y : A) l :
  set_nth (List.length l) y (l ++ [x]) = l ++ [y].
Proof. induction l as [|z l IH]; cbn; [reflexivity | now rewrite IH]. Qed.

Lemma nth_error_last {A} (x : A) l :
  nth_error (l ++ [x]) (List.length l) = Some x.
Proof. induction l as [|z l IH]; cbn; auto. Qed.

Lemma Forall_set_nth {A} (P : A -> Prop) i x l :
  Forall P l -> P x -> Forall P (set_nth i x l).
Proof.
  intros H Hx. revert i. induction H as [|z l Hz H IH]; intros [|i]; cbn;
    constructor; auto.
Qed.

Lemma filter_set_nth_grows {A} (f : A -> bool) i x y l :
  nth_error l i = Some y -> (f y = true -> f x = true) ->
  count (filter f l) <= count (filter f (set_nth i x l)).
Proof.
  unfold count. revert i. induction l as [|z l IH]; intros [|i]; cbn;
    try discriminate.
  - intros E H. injection E as ->.
    destruct (f y); destruct (f x) eqn:Fx; cbn [List.length]; try lia.
  - intros E H. specialize (IH i E H). destruct (f z); cbn [List.length]; lia.
Qed.

Lemma filter_set_nth_more {A} (f : A -> bool) i x y l :
  nth_error l i = Some y -> f y = false -> f x = true ->
  count (filter f (set_nth i x l)) = count (filter f l) + 1.
Proof.
  unfold count. revert i. induction l as [|z l IH]; intros [|i]; cbn;
    try discriminate.
  - intros E Hy Hx. injection E as ->. rewrite Hy, Hx. cbn [List.length]. lia.
  - intros E Hy Hx. specialize (IH i E Hy Hx).
    destruct (f z); cbn [List.length]; lia.
Qed.

Lemma stored_urls_records i l :
  map (fun kv => url (sa_analysis (snd kv))) (records_from i l)
  = map (fun p => url (snd p)) l.
Proof.
  revert i. induction l as [|[now a] l IH]; intros i; [reflexivity|].
  cbn [records_from map snd sa_analysis]. now rewrite IH.
Qed.

Lemma count_records i l : count (records_from i l) = count l.
Proof.
  unfold count. f_equal. revert i.
  induction l as [|[now a] l IH]; intros i; [reflexivity|].
  cbn [records_from List.length]. now rewrite IH.
Qed.

Lemma records_ids i l :
  map fst (records_from i l) = map (fun k => i + Z.of_nat k) (seq 0 (List.length l))
  /\ Forall (fun kv => sa_id (snd kv) = fst kv) (records_from i l).
Proof.
  revert i. induction l as [|[now a] l IH]; intros i; [split; constructor|].
  cbn [records_from map fst List.length seq]. destruct (IH (i + 1)) as [E F].
  split.
  - rewrite E, <- seq_shift, map_map. f_equal; [lia|].
    apply map_ext. intros k. lia.
  - constructor; [reflexivity | exact F].
Qed.

Lemma find_app_some {A} (f : A -> bool) l l' x :
  find f l = Some x -> find f (l ++ l') = Some x.
Proof.
  induction l as [|y l IH]; [discriminate|]. cbn [find app].
  destruct (f y); auto.
Qed.

(** The first record of a URL comes no later than any record of it. *)
Lemma find_first_record u i l k r :
  In (k, r) (records_from i l) -> url (sa_analysis r) = u ->
  exists first,
    find (fun a => jseqb (url (sa_analysis a)) u) (map snd (records_from i l))
    = Some first
    /\ i <= sa_id first <= k.
Proof.
  revert i. induction l as [|[now a] l IH]; intros i; [intros []|].
  cbn [records_from map snd find sa_analysis]. intros [E|I] Hu.
  - injection E as <- <-. cbn [sa_analysis] in Hu. subst u.
    rewrite jseqb_refl. eexists. split; [reflexivity|]. cbn [sa_id]. lia.
  - destruct (jseqb (url a) u).
    + eexists. split; [reflexivity|]. cbn [sa_id].
      assert (K := records_from_keys (i + 1) l).
      rewrite Forall_forall in K. specialize (K _ I). cbn [fst] in K. lia.
    + destruct (IH (i + 1) I Hu) as (first & F & B). exists first. split; [exact F|].
      lia.
Qed.

Section RouteFacts.

Variable cheerio_load : jsstring -> cheerio.
Variable URL_origin : jsstring -> option jsstring.
Variable URL_href : jsstring -> jsstring -> option jsstring.
Variable toLowerCase : jsstring -> jsstring.
Variable toFixed1 : float -> jsstring.
Variable parseFloat : jsstring -> float.
Variable Number_toString : float -> jsstring.
Variable urlSchema_parse : jsstring -> bool.
Variable Error_message : error -> jsstring.
Variable extract_json : json_value -> jsstring -> thrown + extracted.

Let analyze :=
  analyzeSEO cheerio_load URL_origin URL_href toLowerCase toFixed1 parseFloat
    Number_toString.
Let analyze_request :=
  analyzeSEO_request cheerio_load URL_origin URL_href toLowerCase toFixed1
    parseFloat Number_toString Error_message extract_json.
Let start := post_start urlSchema_parse.
Let resume :=
  post_resume cheerio_load URL_origin URL_href toLowerCase toFixed1 parseFloat
    Number_toString Error_message extract_json.
Let post :=
  post_analyze cheerio_load URL_origin URL_href toLowerCase toFixed1 parseFloat
    Number_toString urlSchema_parse Error_message extract_json.
Let step_ev :=
  step cheerio_load URL_origin URL_href toLowerCase toFixed1 parseFloat
    Number_toString urlSchema_parse Error_message extract_json.
Let run_evs :=
  run cheerio_load URL_origin URL_href toLowerCase toFixed1 parseFloat
    Number_toString urlSchema_parse Error_message extract_json.
Let store_inv := store_inv urlSchema_parse.
Let handler_inv := handler_inv urlSchema_parse.
Let server_inv := server_inv urlSchema_parse.

Lemma analyzeSEO_url html u r : analyze html u = Ok r -> url r = u.
Proof.
  unfold analyze, analyzeSEO. intros H.
  destruct (extractImages _ _ _ _) as [im|]; [|discriminate].
  cbn [bind] in H. destruct (extractLinks _ _ _ _ _ _) as [li|]; [|discriminate].
  cbn [bind] in H. now inversion H.
Qed.

(** The report of a page is the report of what the extractors give for
    it. *)
Lemma analyzeSEO_report_of html u r :
  analyze html u = Ok r ->
  exists images links,
    extractImages cheerio_load URL_href html u = Ok images
    /\ extractLinks cheerio_load URL_origin URL_href toLowerCase html u = Ok links
    /\ r = report_of Number_toString u
             {| x_metaTags := extractMetaTags cheerio_load html u;
                x_headings := extractHeadings cheerio_load html;
                x_images := images;
                x_links := links;
                x_performance :=
                  estimatePerformance cheerio_load toFixed1 parseFloat
                    Number_toString html;
                x_mobile := checkMobileFriendliness cheerio_load html;
                x_content := analyzeContent cheerio_load toFixed1 html |}.
Proof.
  unfold analyze, analyzeSEO. intros H.
  destruct (extractImages _ _ _ _) as [im|]; [|discriminate].
  cbn [bind] in H. destruct (extractLinks _ _ _ _ _ _) as [li|]; [|discriminate].
  cbn [bind] in H. exists im, li. repeat split. now inversion H.
Qed.

Lemma analyzeSEO_request_url fetched u a :
  analyze_request fetched u = inr a -> url a = u.
Proof.
  unfold analyze_request, analyzeSEO_request.
  destruct fetched as [[html|v]|code status].
  - fold analyze. destruct (analyze html u) eqn:E; [|discriminate].
    intros H. inversion H; subst. now apply analyzeSEO_url in E.
  - destruct (extract_json v u); [discriminate|].
    intros H. inversion H. reflexivity.
  - destruct (match code with Some _ => _ | None => _ end); discriminate.
Qed.

(** *** What a save does to the store *)

Lemma save_records st now a l :
  seoAnalyses st = records_from 1 l -> seoAnalysisCurrentId st = count l + 1 ->
  seoAnalyses (fst (saveSeoAnalysis st now a))
  = seoAnalyses st ++ [(seoAnalysisCurrentId st, snd (saveSeoAnalysis st now a))]
  /\ seoAnalyses (fst (saveSeoAnalysis st now a)) = records_from 1 (l ++ [(now, a)]).
Proof.
  intros E N. unfold saveSeoAnalysis. cbn [fst snd seoAnalyses].
  rewrite map_set_fresh.
  - split; [reflexivity|]. rewrite E, N, records_from_app. cbn [records_from].
    replace (1 + count l) with (count l + 1) by lia. reflexivity.
  - rewrite E, N. eapply Forall_impl; [|apply records_from_keys]. intros kv.
    cbn beta. unfold count. lia.
Qed.

Lemma save_inv st now a :
  store_inv st -> urlSchema_parse (url a) = true ->
  store_inv (fst (saveSeoAnalysis st now a)).
Proof.
  intros (l & E & N & V) Hv. exists (l ++ [(now, a)]).
  destruct (save_records st now a l E N) as [_ R]. split; [exact R|]. split.
  - unfold saveSeoAnalysis. cbn [fst seoAnalysisCurrentId]. rewrite N.
    unfold count. rewrite length_app. cbn [List.length]. lia.
  - apply Forall_app. split; [exact V | repeat constructor; exact Hv].
Qed.

Lemma lookup_after_save st now a u x :
  store_inv st -> getSeoAnalysisByUrl st u = Some x ->
  getSeoAnalysisByUrl (fst (saveSeoAnalysis st now a)) u = Some x.
Proof.
  intros (l & E & N & _) G. destruct (save_records st now a l E N) as [R _].
  unfold getSeoAnalysisByUrl in *. rewrite R, map_app. now apply find_app_some.
Qed.

Lemma stored_after_save st now a r :
  store_inv st -> stored st r -> stored (fst (saveSeoAnalysis st now a)) r.
Proof.
  intros (l & E & N & _) I. destruct (save_records st now a l E N) as [R _].
  unfold stored in *. rewrite R. apply in_or_app. now left.
Qed.

Lemma stored_saved st now a :
  store_inv st ->
  stored (fst (saveSeoAnalysis st now a)) (snd (saveSeoAnalysis st now a)).
Proof.
  intros (l & E & N & _). destruct (save_records st now a l E N) as [R _].
  unfold stored. rewrite R. apply in_or_app. right. left. reflexivity.
Qed.

Lemma count_after_save st now a :
  store_inv st ->
  count (seoAnalyses (fst (saveSeoAnalysis st now a))) = count (seoAnalyses st) + 1.
Proof.
  intros (l & E & N & _). destruct (save_records st now a l E N) as [R _].
  rewrite R. unfold count. rewrite length_app. cbn [List.length]. lia.
Qed.

Lemma handler_inv_after_save st now a rh :
  store_inv st -> handler_inv st rh ->
  handler_inv (fst (saveSeoAnalysis st now a)) rh.
Proof.
  intros I. destruct rh as [[u|] h]; [|exact (fun H => H)].
  destruct h as [u' e|u'|[e|b]|r|res]; cbn; auto.
  - intros (-> & V & L). repeat split; auto. intros r Hr.
    apply lookup_after_save; auto.
  - intros (Hu & V & S). repeat split; auto. now apply stored_after_save.
  - destruct (res_body res); auto. intros (S & Hu & V & K). repeat split; auto.
    now apply stored_after_save.
Qed.

(** A record that the lookup finds is a record of the store for the URL. *)
Lemma lookup_stored st u r :
  store_inv st -> getSeoAnalysisByUrl st u = Some r ->
  url (sa_analysis r) = u /\ stored st r.
Proof.
  intros (l & E & _) G. unfold getSeoAnalysisByUrl in G.
  apply find_some in G. destruct G as [I J]. apply jseqb_eq in J. split; [exact J|].
  apply in_map_iff in I. destruct I as ([k r'] & Q & I). cbn [snd] in Q. subst r'.
  unfold stored. destruct (records_ids 1 l) as [_ F]. rewrite <- E in F.
  rewrite Forall_forall in F. specialize (F _ I). cbn [fst snd] in F.
  now rewrite F.
Qed.

Lemma stored_lookup st u r :
  store_inv st -> stored st r -> url (sa_analysis r) = u ->
  exists first,
    getSeoAnalysisByUrl st u = Some first /\ sa_id first <= sa_id r.
Proof.
  intros (l & E & _) I Hu. unfold stored in I. rewrite E in I.
  destruct (find_first_record u 1 l _ _ I Hu) as (first & F & B).
  exists first. unfold getSeoAnalysisByUrl. rewrite E. split; [exact F | lia].
Qed.

(** *** One event *)

Lemma start_inv st req_url : handler_inv st (req_url, start st req_url).
Proof.
  unfold start, post_start. destruct req_url as [u|]; cbn [negb].
  - destruct (urlSchema_parse u) eqn:V; cbn [negb or_empty].
    + cbn. repeat split; auto.
    + cbn. left. auto.
  - cbn. eexists. reflexivity.
Qed.

(** What a handler does to the store when it goes on. *)
Lemma resume_store st h fetched now :
  (exists a,
     h = Await_analysis (inr a)
     /\ resume st h fetched now
        = (fst (saveSeoAnalysis st now a),
           Await_save (snd (saveSeoAnalysis st now a))))
  \/ (fst (resume st h fetched now) = st
      /\ forall a, h <> Await_analysis (inr a)).
Proof.
  destruct h as [u [e|]|u|[[m|]|a]|r|res];
    try (right; split; [reflexivity | discriminate]).
  left. exists a. split; reflexivity.
Qed.

Lemma resume_inv st req_url h fetched now :
  store_inv st -> handler_inv st (req_url, h) ->
  store_inv (fst (resume st h fetched now))
  /\ handler_inv (fst (resume st h fetched now))
       (req_url, snd (resume st h fetched now)).
Proof.
  intros I H. destruct req_url as [u|].
  - destruct h as [u' [e|]|u'|[[m|]|a]|r|res]; cbn in H |- *.
    + destruct H as (-> & V & L). split; [exact I|].
      destruct (lookup_stored st u e I (L _ eq_refl)) as [Hu S]. auto.
    + destruct H as (-> & V & _). auto.
    + destruct H as (-> & V). split; [exact I|].
      fold analyze_request.
      destruct (analyze_request fetched u) as [e|a] eqn:A; [exact V|].
      split; [|exact V]. now apply (analyzeSEO_request_url fetched).
    + split; [exact I|]. right. auto.
    + split; [exact I|]. right. auto.
    + destruct H as (Hu & V). split.
      * apply save_inv; auto. now rewrite Hu.
      * split; [exact Hu|]. split; [exact V|]. now apply stored_saved.
    + destruct H as (Hu & V & S). auto.
    + auto.
  - destruct H as [m ->]. cbn. split; [exact I|]. eexists. reflexivity.
Qed.

Lemma resume_past_save st req_url h fetched now :
  past_save (req_url, h) = true ->
  past_save (req_url, snd (resume st h fetched now)) = true.
Proof.
  destruct h as [u [e|]|u|[[m|]|a]|r|res]; cbn; auto; discriminate.
Qed.

Lemma step_inv s ev : server_inv s -> server_inv (step_ev s ev).
Proof.
  intros (I & H & C). destruct ev as [req_url|i fetched now].
  - cbn. split; [exact I|]. split.
    + apply Forall_app. split; [exact H|]. repeat constructor. apply start_inv.
    + cbn [storage handlers]. rewrite filter_app. unfold count in *.
      rewrite length_app. lia.
  - unfold step_ev, step. destruct (nth_error (handlers s) i) as [[req_url h]|] eqn:N;
      [|repeat split; assumption].
    fold resume.
    assert (Hi : handler_inv (storage s) (req_url, h)).
    { rewrite Forall_forall in H. apply H. eapply nth_error_In. exact N. }
    destruct (resume_inv (storage s) req_url h fetched now I Hi) as [I' Hi'].
    destruct (resume_store (storage s) h fetched now) as [(a & -> & E)|[E Hn]].
    + rewrite E in *. cbn [fst snd] in *. cbn [storage handlers].
      split; [exact I'|]. split.
      * apply Forall_set_nth; [|exact Hi'].
        eapply Forall_impl; [|exact H]. intros rh. now apply handler_inv_after_save.
      * cbn [storage handlers]. rewrite (count_after_save _ _ _ I).
        rewrite (filter_set_nth_more past_save i _ _ _ N); [lia | | ]; reflexivity.
    + destruct (resume (storage s) h fetched now) as [st' h'] eqn:R.
      cbn [fst snd] in *. subst st'. cbn [storage handlers].
      split; [exact I|]. split.
      * apply Forall_set_nth; assumption.
      * assert (G := filter_set_nth_grows past_save i (req_url, h') _ _ N).
        assert (P := resume_past_save (storage s) req_url h fetched now).
        rewrite R in P. cbn [snd] in P. specialize (G P).
        cbn [storage handlers]. lia.
Qed.

Lemma new_inv : server_inv server_new.
Proof.
  split; [|split].
  - exists []. repeat split; constructor.
  - constructor.
  - cbn. lia.
Qed.

Lemma run_inv s evs : server_inv s -> server_inv (run_evs s evs).
Proof.
  unfold run_evs, run. revert s.
  induction evs as [|ev evs IH]; intros s I; [exact I|].
  cbn [fold_left]. apply IH. now apply step_inv.
Qed.

Lemma run_app s evs evs' :
  run_evs s (evs ++ evs') = run_evs (run_evs s evs) evs'.
Proof. unfold run_evs, run. apply fold_left_app. Qed.

Lemma run_cons s ev evs :
  run_evs s (ev :: evs) = run_evs (step_ev s ev) evs.
Proof. reflexivity. Qed.

Lemma run_one s ev : run_evs s [ev] = step_ev s ev.
Proof. reflexivity. Qed.

Lemma step_handlers s ev :
  count (handlers (step_ev s ev))
  = count (handlers s) + (if is_request ev then 1 else 0).
Proof.
  destruct ev as [req_url|i fetched now]; cbn.
  - unfold count. rewrite length_app. cbn [List.length]. lia.
  - destruct (nth_error (handlers s) i) as [[req_url h]|]; [|lia].
    destruct (post_resume _ _ _ _ _ _ _ _ _ _ _ _ _) as [st' h'].
    cbn [handlers]. unfold count. rewrite set_nth_length. lia.
Qed.

Lemma run_handlers s evs :
  count (handlers (run_evs s evs))
  = count (handlers s) + count (filter is_request evs).
Proof.
  revert s. induction evs as [|ev evs IH]; intros s.
  - cbn. unfold count. cbn. lia.
  - rewrite run_cons, IH, step_handlers. cbn [filter].
    destruct (is_request ev); unfold count; cbn [List.length]; lia.
Qed.

(** *** Requests that are handled one at a time *)

Lemma step_last st hs req_url h fetched now :
  step_ev {| storage := st; handlers := hs ++ [(req_url, h)] |}
    (Resume (List.length hs) fetched now)
  = {| storage := fst (resume st h fetched now);
       handlers := hs ++ [(req_url, snd (resume st h fetched now))] |}.
Proof.
  unfold step_ev, step. cbn [handlers storage]. rewrite nth_error_last.
  fold resume. destruct (resume st h fetched now) as [st' h']. cbn [fst snd].
  now rewrite set_nth_last.
Qed.

Lemma run_alone s rq :
  run_evs s (alone (List.length (handlers s)) rq)
  = {| storage := fst (post (storage s) rq);
       handlers := handlers s ++ [(rq_url rq, snd (post (storage s) rq))] |}.
Proof.
  unfold run_evs, run, alone. fold step_ev. cbn [fold_left].
  change (step_ev s (Request (rq_url rq)))
    with {| storage := storage s;
            handlers := handlers s ++ [(rq_url rq, start (storage s) (rq_url rq))] |}.
  rewrite !step_last. reflexivity.
Qed.

(** The handler that runs alone, as the sequential reading of the code. *)
Lemma post_analyze_alone st rq :
  post st rq
  = match rq_url rq with
    | Some u =>
        if urlSchema_parse u then
          match getSeoAnalysisByUrl st u with
          | Some existingAnalysis =>
              (st, Answered (json 200 (J_analysis existingAnalysis)))
          | None =>
              match analyze_request (rq_fetched rq) u with
              | inr analysis =>
                  (fst (saveSeoAnalysis st (rq_now rq) analysis),
                   Answered (json 200 (J_analysis
                     (snd (saveSeoAnalysis st (rq_now rq) analysis)))))
              | inl (Error message) =>
                  (st, Answered (json 500 (J_message message)))
              | inl Thrown_value =>
                  (st, Answered (json 500 (J_message (lit
                     "An error occurred analyzing the URL"))))
              end
          end
        else
          (st, Answered (json 400 (J_message (lit
             "Invalid URL format. Please enter a valid URL including http:// or https://."))))
    | None =>
        (st, Answered (json 400 (J_message (lit
           "Invalid URL format. Please enter a valid URL including http:// or https://."))))
    end.
Proof.
  unfold post, post_analyze, post_start.
  destruct (rq_url rq) as [u|]; [|reflexivity].
  destruct (urlSchema_parse u); [|reflexivity]. cbn [negb or_empty].
  destruct (getSeoAnalysisByUrl st u) as [e|]; [reflexivity|].
  cbn [post_resume fst snd]. fold analyze_request.
  destruct (analyze_request (rq_fetched rq) u) as [[m|]|a]; reflexivity.
Qed.

Lemma stored_urls_after_save st now a :
  store_inv st ->
  stored_urls (fst (saveSeoAnalysis st now a)) = stored_urls st ++ [url a].
Proof.
  intros (l & E & N & _). destruct (save_records st now a l E N) as [R _].
  unfold stored_urls. rewrite R, map_app. reflexivity.
Qed.

Lemma lookup_none_not_stored st u :
  getSeoAnalysisByUrl st u = None -> ~ In u (stored_urls st).
Proof.
  unfold getSeoAnalysisByUrl, stored_urls.
  induction (seoAnalyses st) as [|[k r] m IH]; [intros _ []|].
  cbn [map snd find]. destruct (jseqb (url (sa_analysis r)) u) eqn:E; [discriminate|].
  intros H [Q|I]; [|now apply IH].
  subst u. now rewrite jseqb_refl in E.
Qed.

Lemma post_nodup st rq :
  store_inv st -> NoDup (stored_urls st) ->
  NoDup (stored_urls (fst (post st rq))).
Proof.
  intros I D. rewrite post_analyze_alone.
  destruct (rq_url rq) as [u|]; [|exact D].
  destruct (urlSchema_parse u); [|exact D].
  destruct (getSeoAnalysisByUrl st u) as [e|] eqn:G; [exact D|].
  destruct (analyze_request (rq_fetched rq) u) as [[m|]|a] eqn:A; try exact D.
  cbn [fst]. rewrite stored_urls_after_save by exact I.
  apply analyzeSEO_request_url in A. subst u.
  apply NoDup_app; [exact D | repeat constructor; intros [] |].
  intros v Hv [<-|[]]. now apply lookup_none_not_stored in G.
Qed.

Lemma one_at_a_time_nodup rqs s :
  server_inv s -> NoDup (stored_urls (storage s)) ->
  NoDup (stored_urls
           (storage (run_evs s (one_at_a_time (List.length (handlers s)) rqs)))).
Proof.
  revert s. induction rqs as [|rq rqs IH]; intros s I D; [exact D|].
  cbn [one_at_a_time]. rewrite run_app.
  assert (I' := run_inv s (alone (List.length (handlers s)) rq) I).
  rewrite run_alone in *.
  set (s' := {| storage := _; handlers := _ |}) in *.
  replace (S (List.length (handlers s))) with (List.length (handlers s'))
    by (unfold s'; cbn [handlers]; rewrite length_app; cbn [List.length]; lia).
  apply IH; [exact I'|]. unfold s'. cbn [storage].
  apply post_nodup; [apply I | exact D].
Qed.

(** X4. Whatever the requests to [POST /api/analyze] and however their
    handlers interleave, the records of the store have the ids 1, 2, ... in
    the order of their saves and each carries its id, the next id is the
    number of records plus one, every stored URL passed the validation, and
    there are no more records than requests.  When each request is answered
    before the next arrives, the store holds at most one analysis for a
    URL. *)
Theorem store_records_numbered (evs : list event) :
  let s := run_evs server_new evs in
  let st := storage s in
  map fst (seoAnalyses st)
  = map (fun k => 1 + Z.of_nat k) (seq 0 (List.length (seoAnalyses st)))
  /\ Forall (fun kv => sa_id (snd kv) = fst kv) (seoAnalyses st)
  /\ seoAnalysisCurrentId st = count (seoAnalyses st) + 1
  /\ Forall (fun u => urlSchema_parse u = true) (stored_urls st)
  /\ count (seoAnalyses st) <= count (handlers s)
  /\ count (handlers s) = count (filter is_request evs)
  /\ (forall rqs, evs = one_at_a_time 0 rqs -> NoDup (stored_urls st)).
Proof.
  cbn zeta. destruct (run_inv server_new evs new_inv) as ((l & E & N & V) & H & C).
  assert (L := run_handlers server_new evs).
  unfold stored_urls. rewrite E in *. rewrite stored_urls_records.
  destruct (records_ids 1 l) as [I S].
  assert (K : List.length (records_from 1 l) = List.length l).
  { assert (Q := count_records 1 l). unfold count in Q. lia. }
  repeat split; auto.
  - rewrite K. exact I.
  - rewrite N, count_records. reflexivity.
  - rewrite Forall_map. exact V.
  - assert (Q : count (filter past_save (handlers (run_evs server_new evs)))
                <= count (handlers (run_evs server_new evs))).
    { unfold count. apply inj_le, filter_length_le. }
    lia.
  - intros rqs ->. rewrite <- stored_urls_records with (i := 1), <- E.
    apply (one_at_a_time_nodup rqs server_new new_inv). constructor.
Qed.

(** *** The analysis that the store has for a URL *)

Lemma step_lookup s ev u r :
  server_inv s -> getSeoAnalysisByUrl (storage s) u = Some r ->
  getSeoAnalysisByUrl (storage (step_ev s ev)) u = Some r.
Proof.
  intros (I & _) G. destruct ev as [req_url|i fetched now]; [exact G|].
  unfold step_ev, step. destruct (nth_error (handlers s) i) as [[req_url h]|];
    [|exact G].
  fold resume.
  destruct (resume_store (storage s) h fetched now) as [(a & -> & E)|[E _]].
  - rewrite E. cbn [storage]. now apply lookup_after_save.
  - destruct (resume (storage s) h fetched now) as [st' h']. cbn [fst] in E.
    subst st'. exact G.
Qed.

Lemma run_lookup s evs u r :
  server_inv s -> getSeoAnalysisByUrl (storage s) u = Some r ->
  getSeoAnalysisByUrl (storage (run_evs s evs)) u = Some r.
Proof.
  revert s. induction evs as [|ev evs IH]; intros s I G; [exact G|].
  rewrite run_cons. apply IH; [now apply step_inv | now apply step_lookup].
Qed.

Lemma step_serves s ev j u first :
  serves first u (nth_error (handlers s) j) ->
  serves first u (nth_error (handlers (step_ev s ev)) j).
Proof.
  intros H. assert (J : (j < List.length (handlers s))%nat).
  { apply nth_error_Some. destruct H as [-> | ->]; discriminate. }
  destruct ev as [req_url|i fetched now].
  - cbn [step_ev step handlers]. now rewrite nth_error_app1.
  - unfold step_ev, step. destruct (nth_error (handlers s) i) as [[req_url h]|] eqn:N;
      [|exact H].
    fold resume. destruct (resume (storage s) h fetched now) as [st' h'] eqn:R.
    cbn [handlers]. destruct (Nat.eq_dec i j) as [->|D].
    + rewrite (nth_error_set_nth_eq _ _ _ _ N). rewrite N in H.
      destruct H as [H|H]; injection H as -> ->; cbn in R; injection R as <- <-;
        right; reflexivity.
    + now rewrite nth_error_set_nth_neq.
Qed.

Lemma run_serves s evs j u first :
  serves first u (nth_error (handlers s) j) ->
  serves first u (nth_error (handlers (run_evs s evs)) j).
Proof.
  revert s. induction evs as [|ev evs IH]; intros s H; [exact H|].
  rewrite run_cons. apply IH. now apply step_serves.
Qed.

(** X5. Once a request for a URL was answered with status 200, the store
    has an analysis for the URL, and every request for the URL that arrives
    from then on is answered with status 200 and the first analysis that
    was stored for it, without a fetch or a save, whatever the network has
    for the page by then and however the handlers of other requests
    interleave.  That analysis is the one of the answer, or one that an
    overlapping request for the URL saved before it. *)
Theorem analysis_served_from_store
    (evs1 : list event) (i : nat) (u : jsstring) (r : SeoAnalysis) :
  let s1 := run_evs server_new evs1 in
  nth_error (handlers s1) i = Some (Some u, Answered (json 200 (J_analysis r))) ->
  exists first,
    getSeoAnalysisByUrl (storage s1) u = Some first
    /\ url (sa_analysis first) = u
    /\ sa_id first <= sa_id r
    /\ forall evs2 evs3,
         let s2 := run_evs s1 evs2 in
         let s3 := run_evs s2 (Request (Some u) :: evs3) in
         getSeoAnalysisByUrl (storage s3) u = Some first
         /\ (nth_error (handlers s3) (List.length (handlers s2))
             = Some (Some u, Await_lookup u (Some first))
             \/ nth_error (handlers s3) (List.length (handlers s2))
                = Some (Some u, Answered (json 200 (J_analysis first)))).
Proof.
  cbn zeta. intros A.
  assert (I1 := run_inv server_new evs1 new_inv).
  set (s1 := run_evs server_new evs1) in *.
  assert (H : handler_inv (storage s1)
                (Some u, Answered (json 200 (J_analysis r)))).
  { destruct I1 as (_ & H & _). rewrite Forall_forall in H. apply H.
    eapply nth_error_In. exact A. }
  cbn in H. destruct H as (_ & Hu & V & S).
  destruct (stored_lookup (storage s1) u r (proj1 I1) S Hu) as (first & G & B).
  exists first. split; [exact G|]. split.
  { now apply (lookup_stored (storage s1) u first (proj1 I1)). }
  split; [exact B|]. intros evs2 evs3.
  assert (I2 := run_inv s1 evs2 I1).
  assert (G2 := run_lookup s1 evs2 u first I1 G).
  set (s2 := run_evs s1 evs2) in *.
  rewrite run_cons. split.
  - apply run_lookup; [now apply step_inv | now apply step_lookup].
  - apply (run_serves _ evs3 _ u first). left.
    cbn [step_ev step handlers]. rewrite nth_error_last.
    unfold post_start. rewrite V. cbn [negb or_empty]. now rewrite G2.
Qed.

(** *** The handler of a request among the others *)

Lemma step_others s ev i :
  others i [ev] -> (i < List.length (handlers s))%nat ->
  nth_error (handlers (step_ev s ev)) i = nth_error (handlers s) i.
Proof.
  intros O L. inversion O as [|? ? Hev _]; subst.
  destruct ev as [req_url|j fetched now].
  - cbn [step_ev step handlers]. now rewrite nth_error_app1.
  - unfold step_ev, step. destruct (nth_error (handlers s) j) as [[req_url h]|];
      [|reflexivity].
    destruct (post_resume _ _ _ _ _ _ _ _ _ _ _ _ _) as [st' h']. cbn [handlers].
    now apply nth_error_set_nth_neq.
Qed.

Lemma run_others s evs i :
  others i evs -> (i < List.length (handlers s))%nat ->
  nth_error (handlers (run_evs s evs)) i = nth_error (handlers s) i.
Proof.
  revert s. induction evs as [|ev evs IH]; intros s O L; [reflexivity|].
  inversion O as [|? ? Hev O']; subst. rewrite run_cons, IH; auto.
  - apply step_others; [repeat constructor; exact Hev | exact L].
  - assert (Q := step_handlers s ev). unfold count in Q.
    destruct (is_request ev); lia.
Qed.

Lemma step_resume s i req_url h fetched now :
  nth_error (handlers s) i = Some (req_url, h) ->
  storage (step_ev s (Resume i fetched now))
  = fst (resume (storage s) h fetched now)
  /\ nth_error (handlers (step_ev s (Resume i fetched now))) i
     = Some (req_url, snd (resume (storage s) h fetched now)).
Proof.
  intros N. unfold step_ev, step. rewrite N. fold resume.
  destruct (resume (storage s) h fetched now) as [st' h']. cbn [storage handlers fst snd].
  split; [reflexivity|]. now apply (nth_error_set_nth_eq _ _ _ _ N).
Qed.

Lemma nth_error_length {A} (l : list A) i x :
  nth_error l i = Some x -> (i < List.length l)%nat.
Proof. intros H. apply nth_error_Some. now rewrite H. Qed.

(** *** Two requests for a URL that overlap *)

Lemma step_request s req_url :
  step_ev s (Request req_url)
  = {| storage := storage s;
       handlers := handlers s ++ [(req_url, start (storage s) req_url)] |}.
Proof. reflexivity. Qed.

Lemma step_at s pre req_url h post' fetched now :
  handlers s = pre ++ (req_url, h) :: post' ->
  step_ev s (Resume (List.length pre) fetched now)
  = {| storage := fst (resume (storage s) h fetched now);
       handlers :=
         pre ++ (req_url, snd (resume (storage s) h fetched now)) :: post' |}.
Proof.
  intros E. unfold step_ev, step. rewrite E.
  rewrite nth_error_app2, Nat.sub_diag by lia. cbn [nth_error].
  fold resume. destruct (resume (storage s) h fetched now) as [st' h'].
  cbn [fst snd]. f_equal. clear. induction pre as [|x pre IH]; cbn; [reflexivity|].
  now rewrite IH.
Qed.

Lemma step_at_next s pre x req_url h fetched now :
  handlers s = pre ++ [x; (req_url, h)] ->
  step_ev s (Resume (S (List.length pre)) fetched now)
  = {| storage := fst (resume (storage s) h fetched now);
       handlers :=
         pre ++ [x; (req_url, snd (resume (storage s) h fetched now))] |}.
Proof.
  intros E.
  replace (S (List.length pre)) with (List.length (pre ++ [x]))
    by (rewrite length_app; cbn [List.length]; lia).
  rewrite (step_at s (pre ++ [x]) req_url h [] fetched now).
  - now rewrite <- app_assoc.
  - now rewrite <- app_assoc.
Qed.

(** X21. Two requests for a URL that is not in the store, the second
    arriving while the first waits for the page, are both fetched, analysed
    and saved: the store then holds two analyses of the URL with consecutive
    ids, each request is answered with its own, and from then on the lookup
    gives the one that was saved first. *)
Theorem overlapping_requests_save_twice
    (evs0 : list event) (u : jsstring) (f1 f2 : axios_result)
    (a1 a2 : Analysis) (now1 now2 : Z) :
  let s0 := run_evs server_new evs0 in
  let i := List.length (handlers s0) in
  let j := S i in
  let n := seoAnalysisCurrentId (storage s0) in
  let r1 := {| sa_analysis := a1; sa_id := n; sa_createdAt := now1 |} in
  let r2 := {| sa_analysis := a2; sa_id := n + 1; sa_createdAt := now2 |} in
  let s :=
    run_evs s0
      [Request (Some u); Resume i f1 now1;
       Request (Some u); Resume j f2 now2;
       Resume i f1 now1; Resume i f1 now1; Resume i f1 now1;
       Resume j f2 now2; Resume j f2 now2; Resume j f2 now2] in
  urlSchema_parse u = true ->
  getSeoAnalysisByUrl (storage s0) u = None ->
  analyze_request f1 u = inr a1 ->
  analyze_request f2 u = inr a2 ->
  seoAnalyses (storage s) = seoAnalyses (storage s0) ++ [(n, r1); (n + 1, r2)]
  /\ nth_error (handlers s) i = Some (Some u, Answered (json 200 (J_analysis r1)))
  /\ nth_error (handlers s) j = Some (Some u, Answered (json 200 (J_analysis r2)))
  /\ getSeoAnalysisByUrl (storage s) u = Some r1
  /\ ~ NoDup (stored_urls (storage s)).
Proof.
  cbn zeta. intros V G A1 A2.
  assert (I0 := run_inv server_new evs0 new_inv).
  fold run_evs in I0.
  set (s0 := run_evs server_new evs0) in *.
  set (hs := handlers s0). set (st := storage s0) in *.
  set (n := seoAnalysisCurrentId st).
  set (r1 := {| sa_analysis := a1; sa_id := n; sa_createdAt := now1 |}).
  set (r2 := {| sa_analysis := a2; sa_id := n + 1; sa_createdAt := now2 |}).
  destruct I0 as (I0 & _).
  assert (S1 : saveSeoAnalysis st now1 a1
               = ({| seoAnalyses := seoAnalyses st ++ [(n, r1)];
                     seoAnalysisCurrentId := n + 1 |}, r1)).
  { destruct I0 as (l & E & N & _).
    destruct (save_records st now1 a1 l E N) as [R _].
    unfold saveSeoAnalysis in *. cbn [fst snd seoAnalyses] in R.
    fold n in R |- *. fold r1 in R |- *. now rewrite R. }
  assert (I1 : store_inv (fst (saveSeoAnalysis st now1 a1))).
  { apply save_inv; [exact I0|]. apply analyzeSEO_request_url in A1.
    now rewrite A1. }
  set (st1 := {| seoAnalyses := seoAnalyses st ++ [(n, r1)];
                 seoAnalysisCurrentId := n + 1 |}) in *.
  rewrite S1 in I1. cbn [fst] in I1.
  assert (S2 : saveSeoAnalysis st1 now2 a2
               = ({| seoAnalyses := seoAnalyses st ++ [(n, r1); (n + 1, r2)];
                     seoAnalysisCurrentId := n + 1 + 1 |}, r2)).
  { destruct I1 as (l & E & N & _).
    destruct (save_records st1 now2 a2 l E N) as [R _].
    unfold saveSeoAnalysis in *. cbn [fst snd seoAnalyses seoAnalysisCurrentId st1] in R.
    cbn [seoAnalyses seoAnalysisCurrentId st1]. fold r2 in R |- *.
    rewrite R, <- app_assoc. reflexivity. }
  assert (H0 : start st (Some u) = Await_lookup u None).
  { unfold start, post_start. rewrite V. cbn [negb or_empty]. now rewrite G. }
  unfold run_evs, run. fold step_ev. cbn [fold_left].
  rewrite (step_request s0). fold hs st. rewrite H0.
  repeat
    (match goal with
     | |- context [step_ev {| storage := ?a; handlers := hs ++ (?q, ?h) :: ?p |}
                     (Resume (List.length hs) ?f ?m)] =>
         rewrite (step_at {| storage := a; handlers := hs ++ (q, h) :: p |}
                    hs q h p f m eq_refl)
     | |- context [step_ev {| storage := ?a; handlers := hs ++ [?x; (?q, ?h)] |}
                     (Resume (S (List.length hs)) ?f ?m)] =>
         rewrite (step_at_next {| storage := a; handlers := hs ++ [x; (q, h)] |}
                    hs x q h f m eq_refl)
     | |- context [step_ev {| storage := ?a; handlers := ?l |} (Request ?q)] =>
         rewrite (step_request {| storage := a; handlers := l |});
         cbn [storage handlers]; rewrite <- app_assoc; cbn [app]; rewrite H0
     end;
     cbn [storage]; unfold resume; cbn [post_resume fst snd];
     fold analyze_request; try rewrite A1; try rewrite A2;
     try rewrite S1; try rewrite S2; cbn [fst snd]).
  apply analyzeSEO_request_url in A1, A2.
  cbn [seoAnalyses handlers]. split; [reflexivity|]. split.
  { rewrite nth_error_app2, Nat.sub_diag by lia. reflexivity. }
  split.
  { rewrite nth_error_app2 by lia.
    replace (S (List.length hs) - List.length hs)%nat with 1%nat by lia.
    reflexivity. }
  split.
  - unfold getSeoAnalysisByUrl in *. cbn [seoAnalyses]. rewrite map_app.
    rewrite find_app_none by exact G. cbn [map snd find]. unfold r1 at 1.
    cbn [sa_analysis]. now rewrite A1, jseqb_refl.
  - unfold stored_urls. cbn [seoAnalyses]. rewrite map_app. intros D.
    apply NoDup_app_remove_l in D. cbn [map snd r1 r2 sa_analysis] in D.
    rewrite A1, A2 in D. inversion D as [|? ? N _]. apply N. now left.
Qed.

(** *** The answer to a request for a new URL *)

(** X18. A request to [POST /api/analyze] for a URL that passes the
    validation and is not in the store when it arrives, whatever the
    handlers of other requests do in between: after its four [await]s the
    handler has answered - with 200 and the record of the analysis of what
    was fetched, numbered with the next id of the store at the time of the
    save and dated with the clock, or with 500 and the message of what the
    analysis threw, the handler then leaving the store as it is.  For a
    body that axios hands over as a string, the analysis returns a report
    if it accepts the page and else throws the TypeError of the [URL]
    constructor; a failed request for the page is an [Error]. *)
Theorem post_analyze_new_url
    (s0 : server) (u : jsstring) (evs1 evs2 evs3 evs4 : list event)
    (f1 fetched f3 f4 : axios_result) (n1 n2 now n4 : Z) :
  let i := List.length (handlers s0) in
  let s1 := run_evs s0 (Request (Some u) :: evs1 ++ [Resume i f1 n1]) in
  let s2 := run_evs s1 (evs2 ++ [Resume i fetched n2]) in
  let s3 := run_evs s2 evs3 in
  let s4 := run_evs s3 (Resume i f3 now :: evs4 ++ [Resume i f4 n4]) in
  urlSchema_parse u = true ->
  getSeoAnalysisByUrl (storage s0) u = None ->
  others i evs1 -> others i evs2 -> others i evs3 -> others i evs4 ->
  nth_error (handlers s4) i
  = Some (Some u,
          Answered
            match analyze_request fetched u with
            | inr analysis =>
                json 200
                  (J_analysis {| sa_analysis := analysis;
                                 sa_id := seoAnalysisCurrentId (storage s3);
                                 sa_createdAt := now |})
            | inl (Error message) => json 500 (J_message message)
            | inl Thrown_value =>
                json 500 (J_message (lit "An error occurred analyzing the URL"))
            end)
  /\ storage (step_ev s3 (Resume i f3 now))
     = match analyze_request fetched u with
       | inr analysis => fst (saveSeoAnalysis (storage s3) now analysis)
       | inl _ => storage s3
       end
  /\ (forall html,
        fetched = AxiosResponse (Data_string html) ->
        if forallb (img_resolves URL_href u) (cheerio_load html "img")
           && match URL_origin u with Some _ => true | None => false end
        then exists a, analyze html u = Ok a /\ analyze_request fetched u = inr a
        else analyze_request fetched u
             = inl (Error (Error_message TypeError_InvalidURL)))
  /\ (forall code status,
        fetched = AxiosError code status ->
        exists message, analyze_request fetched u = inl (Error message)).
Proof.
  cbn zeta. intros V G O1 O2 O3 O4.
  set (i := List.length (handlers s0)).
  rewrite !run_cons, !run_app, !run_one.
  (* the arrival *)
  set (sa := step_ev s0 (Request (Some u))).
  assert (Na : nth_error (handlers sa) i = Some (Some u, Await_lookup u None)).
  { unfold sa. cbn [step_ev step handlers]. unfold i. rewrite nth_error_last.
    unfold post_start. rewrite V. cbn [negb or_empty]. now rewrite G. }
  (* the lookup *)
  set (sb := run_evs sa evs1).
  assert (Nb : nth_error (handlers sb) i = Some (Some u, Await_lookup u None)).
  { unfold sb. rewrite run_others; [exact Na | exact O1 |].
    now apply nth_error_length in Na. }
  destruct (step_resume sb i _ _ f1 n1 Nb) as [_ N1].
  fold step_ev in N1. cbn [post_resume snd] in N1.
  set (s1 := step_ev sb (Resume i f1 n1)) in *.
  (* the request for the page *)
  set (sc := run_evs s1 evs2).
  assert (Nc : nth_error (handlers sc) i = Some (Some u, Await_fetch u)).
  { unfold sc. rewrite run_others; [exact N1 | exact O2 |].
    now apply nth_error_length in N1. }
  destruct (step_resume sc i _ _ fetched n2 Nc) as [_ N2].
  fold step_ev in N2. cbn [post_resume snd] in N2. fold analyze_request in N2.
  set (s2 := step_ev sc (Resume i fetched n2)) in *.
  (* the analysis *)
  set (s3 := run_evs s2 evs3).
  assert (N3 : nth_error (handlers s3) i
               = Some (Some u, Await_analysis (analyze_request fetched u))).
  { unfold s3. rewrite run_others; [exact N2 | exact O3 |].
    now apply nth_error_length in N2. }
  destruct (step_resume s3 i _ _ f3 now N3) as [S4 N4].
  fold step_ev in S4, N4.
  set (sd := step_ev s3 (Resume i f3 now)) in *.
  (* the save *)
  set (se := run_evs sd evs4).
  assert (Ne : nth_error (handlers se) i = nth_error (handlers sd) i).
  { unfold se. rewrite run_others; [reflexivity | exact O4 |].
    now apply nth_error_length in N4. }
  rewrite N4 in Ne.
  destruct (step_resume se i _ _ f4 n4 Ne) as [_ N5].
  fold step_ev in N5. rewrite N5. clear N5 Ne N4.
  split; [|split; [|split]].
  - destruct (analyze_request fetched u) as [[m|]|a]; reflexivity.
  - rewrite S4. destruct (analyze_request fetched u) as [[m|]|a]; reflexivity.
  - intros html ->. unfold analyze_request, analyzeSEO_request. fold analyze.
    destruct (analyzeSEO_accepted cheerio_load URL_origin URL_href toLowerCase
                toFixed1 parseFloat Number_toString html u) as [Y Nn].
    fold analyze in Y, Nn.
    destruct (forallb _ _ && _).
    + destruct (proj2 Y eq_refl) as [a E]. exists a. now rewrite E.
    + now rewrite (proj2 Nn eq_refl).
  - intros code status ->. unfold analyze_request, analyzeSEO_request.
    destruct (match code with Some _ => _ | None => _ end); eexists; reflexivity.
Qed.

End RouteFacts.

Lemma analysis_served_from_store_witness :
  exists r,
    nth_error (handlers (sample_run server_new (alone 0 rq_first))) 0
    = Some (rq_url rq_first, Answered (json 200 (J_analysis r)))
    /\ exists first,
         getSeoAnalysisByUrl
           (storage (sample_run server_new (alone 0 rq_first ++ alone 1 rq_again)))
           (lit "https://example.com")
         = Some first
         /\ nth_error
              (handlers
                 (sample_run server_new (alone 0 rq_first ++ alone 1 rq_again)))
              1
            = Some (rq_url rq_again, Answered (json 200 (J_analysis first)))
         /\ sa_id first <= sa_id r.
Proof.
  let v := eval vm_compute in
             (nth_error (handlers (sample_run server_new (alone 0 rq_first))) 0) in
  match v with
  | Some (_, Answered {| res_status := _; res_body := J_analysis ?r |}) =>
      exists r; split; [vm_compute; reflexivity|];
      destruct (analysis_served_from_store hi_page Host.origin Host.href
                  Host.lower Host.fixed1 Host.parse Host.print
                  sample_urlSchema_parse sample_Error_message
                  sample_extract_json (alone 0 rq_first) 0
                  (lit "https://example.com") r)
        as (first & _ & _ & B & K); [vm_compute; reflexivity|]
  end.
  exists first.
  destruct (K [] (tl (alone 1 rq_again))) as [G [A|A]]; cbn zeta in G, A.
  - exfalso. revert A. vm_compute. discriminate.
  - split; [exact G|]. split; [|exact B].
    etransitivity; [|exact A]. reflexivity.
Defined.

Lemma post_analyze_new_url_witness :
  exists a,
    hi_report = Ok a
    /\ nth_error
         (handlers
            (sample_run server_new
               [Request (rq_url rq_first); Resume 0 (rq_fetched rq_first) 0;
                Request (rq_url rq_other); Resume 1 (rq_fetched rq_other) 0;
                Resume 1 (rq_fetched rq_other) 0;
                Resume 1 (rq_fetched rq_other) 2000;
                Resume 1 (rq_fetched rq_other) 0;
                Resume 0 (rq_fetched rq_first) 0;
                Resume 0 (rq_fetched rq_first) 3000;
                Resume 0 (rq_fetched rq_first) 0]))
         0
       = Some (rq_url rq_first,
               Answered (json 200 (J_analysis {| sa_analysis := a;
                                                sa_id := 2;
                                                sa_createdAt := 3000 |}))).
Proof.
  exists_report hi_report.
  assert (W := proj1 (post_analyze_new_url hi_page Host.origin Host.href
                        Host.lower Host.fixed1 Host.parse Host.print
                        sample_urlSchema_parse sample_Error_message
                        sample_extract_json server_new (lit "https://example.com")
                        []
                        [Request (rq_url rq_other);
                         Resume 1 (rq_fetched rq_other) 0;
                         Resume 1 (rq_fetched rq_other) 0;
                         Resume 1 (rq_fetched rq_other) 2000;
                         Resume 1 (rq_fetched rq_other) 0]
                        [] []
                        (rq_fetched rq_first) (rq_fetched rq_first)
                        (rq_fetched rq_first) (rq_fetched rq_first)
                        0 0 3000 0 eq_refl eq_refl
                        ltac:(repeat constructor)
                        ltac:(repeat constructor; discriminate)
                        ltac:(repeat constructor)
                        ltac:(repeat constructor))).
  vm_compute in W |- *. exact W.
Defined.

Lemma overlapping_requests_save_twice_witness :
  exists a,
    hi_report = Ok a
    /\ stored_urls
         (storage
            (sample_run server_new
               [Request (rq_url rq_first); Resume 0 (rq_fetched rq_first) 1000;
                Request (rq_url rq_first); Resume 1 (rq_fetched rq_first) 2000;
                Resume 0 (rq_fetched rq_first) 1000;
                Resume 0 (rq_fetched rq_first) 1000;
                Resume 0 (rq_fetched rq_first) 1000;
                Resume 1 (rq_fetched rq_first) 2000;
                Resume 1 (rq_fetched rq_first) 2000;
                Resume 1 (rq_fetched rq_first) 2000]))
       = [lit "https://example.com"; lit "https://example.com"]
    /\ getSeoAnalysisByUrl
         (storage
            (sample_run server_new
               [Request (rq_url rq_first); Resume 0 (rq_fetched rq_first) 1000;
                Request (rq_url rq_first); Resume 1 (rq_fetched rq_first) 2000;
                Resume 0 (rq_fetched rq_first) 1000;
                Resume 0 (rq_fetched rq_first) 1000;
                Resume 0 (rq_fetched rq_first) 1000;
                Resume 1 (rq_fetched rq_first) 2000;
                Resume 1 (rq_fetched rq_first) 2000;
                Resume 1 (rq_fetched rq_first) 2000]))
         (lit "https://example.com")
       = Some {| sa_analysis := a; sa_id := 1; sa_createdAt := 1000 |}.
Proof.
  exists_report hi_report. split; [vm_compute; reflexivity|].
  match goal with
  | |- _ = Some {| sa_analysis := ?a; sa_id := _; sa_createdAt := _ |} =>
      destruct (overlapping_requests_save_twice hi_page Host.origin Host.href
                  Host.lower Host.fixed1 Host.parse Host.print
                  sample_urlSchema_parse sample_Error_message
                  sample_extract_json [] (lit "https://example.com")
                  (rq_fetched rq_first) (rq_fetched rq_first) a a 1000 2000
                  eq_refl eq_refl)
        as (_ & _ & _ & G & _); [vm_compute; reflexivity ..|]
  end.
  exact G.
Defined.

(** X6. When axios hands the body over as a string, the analysis of the
    page returns a report, for the URL of the request, exactly when the
    [URL] constructor accepts this URL and the source of every [<img>]
    starts with "http" or resolves against it; in every other case it
    throws the TypeError of the constructor, the one exception that the
    extractors raise on a string.  (A body that is JSON text reaches the
    extractors as the value it denotes, and not as a string: what they do
    with it is the library's business and is not stated here.) *)
Theorem analyzeSEO_returns_iff
    (cheerio_load : jsstring -> cheerio)
    (URL_origin : jsstring -> option jsstring)
    (URL_href : jsstring -> jsstring -> option jsstring)
    (toLowerCase : jsstring -> jsstring)
    (toFixed1 : float -> jsstring) (parseFloat : jsstring -> float)
    (Number_toString : float -> jsstring)
    (Error_message : error -> jsstring)
    (extract_json : json_value -> jsstring -> thrown + extracted)
    (html u : jsstring) :
  let outcome :=
    analyzeSEO_request cheerio_load URL_origin URL_href toLowerCase toFixed1
      parseFloat Number_toString Error_message extract_json
      (AxiosResponse (Data_string html)) u in
  let accepted :=
    forallb (img_resolves URL_href u) (cheerio_load html "img")
    && match URL_origin u with Some _ => true | None => false end in
  ((exists r, outcome = inr r) <-> accepted = true)
  /\ (outcome = inl (Error (Error_message TypeError_InvalidURL))
      <-> accepted = false)
  /\ (forall r,
        outcome = inr r ->
        analyzeSEO cheerio_load URL_origin URL_href toLowerCase toFixed1
          parseFloat Number_toString html u = Ok r
        /\ url r = u).
Proof.
  cbn zeta. unfold analyzeSEO_request.
  destruct (analyzeSEO_accepted cheerio_load URL_origin URL_href toLowerCase
              toFixed1 parseFloat Number_toString html u) as [Y N].
  destruct (analyzeSEO cheerio_load URL_origin URL_href toLowerCase toFixed1
              parseFloat Number_toString html u) as [a|[]] eqn:E.
  - assert (A : forallb (img_resolves URL_href u) (cheerio_load html "img")
                && match URL_origin u with Some _ => true | None => false end
                = true) by (apply Y; eauto).
    rewrite A. split; [split; eauto|]. split; [split; discriminate|].
    intros r H. injection H as <-. split; [reflexivity|].
    now apply (analyzeSEO_url cheerio_load URL_origin URL_href toLowerCase
                 toFixed1 parseFloat Number_toString html).
  - assert (A : forallb (img_resolves URL_href u) (cheerio_load html "img")
                && match URL_origin u with Some _ => true | None => false end
                = false) by (now apply N).
    rewrite A. split; [split; [intros [r H]|]; discriminate|].
    split; [split; reflexivity | discriminate].
Qed.

(** ** The two sequences of links *)

Section LinkLists.

Variable URL_href : jsstring -> jsstring -> option jsstring.
Variable toLowerCase : jsstring -> jsstring.
Variables url baseUrl : jsstring.

Lemma each_a_partition els :
  Forall (fun l => startsWith (il_url l) baseUrl = true)
    (fst (each_a URL_href toLowerCase url baseUrl els))
  /\ Forall (fun l => startsWith (el_url l) baseUrl = false)
       (snd (each_a URL_href toLowerCase url baseUrl els)).
Proof.
  induction els as [|el els [IHi IHe]]; cbn [each_a]; [split; constructor|].
  destruct (each_a URL_href toLowerCase url baseUrl els) as [i e].
  cbn [fst snd] in *.
  destruct (visit_a URL_href toLowerCase url baseUrl el) as [[l|l]|] eqn:V;
    cbn [fst snd]; auto; split; auto; constructor; auto;
    revert V; unfold visit_a;
    destruct (negb _ || _ || _); try discriminate;
    destruct (if startsWith _ (lit "http") then _ else _) as [u|];
    try discriminate;
    destruct (startsWith u baseUrl) eqn:S; try discriminate;
    intros H; inversion H; subst l; exact S.
Qed.

Lemma each_a_bound els :
  count (fst (each_a URL_href toLowerCase url baseUrl els))
  + count (snd (each_a URL_href toLowerCase url baseUrl els)) <= count els.
Proof.
  rewrite each_a_count. unfold count.
  assert (H := filter_length_le
                 (fun el => negb (skipped URL_href url el)) els).
  lia.
Qed.

End LinkLists.

(** X7. In the facts of the links extractor every internal link has a URL
    that starts with the origin of the page and no external link has one;
    the total is the sum of the two lengths and at most the number of
    anchors of the page; the generic internal links are counted among the
    internal ones and the external links without rel among the external
    ones. *)
Theorem extractLinks_partition
    (cheerio_load : jsstring -> cheerio)
    (URL_origin : jsstring -> option jsstring)
    (URL_href : jsstring -> jsstring -> option jsstring)
    (toLowerCase : jsstring -> jsstring)
    (html url : jsstring) (facts : Links) :
  extractLinks cheerio_load URL_origin URL_href toLowerCase html url = Ok facts ->
  let a := links_analysis facts in
  (exists baseUrl,
     URL_origin url = Some baseUrl
     /\ Forall (fun l => startsWith (il_url l) baseUrl = true)
          (links_internal facts)
     /\ Forall (fun l => startsWith (el_url l) baseUrl = false)
          (links_external facts))
  /\ internalLinks a = count (links_internal facts)
  /\ externalLinks a = count (links_external facts)
  /\ totalLinks a = internalLinks a + externalLinks a
  /\ totalLinks a <= count (cheerio_load html "a")
  /\ 0 <= genericInternalLinks a <= internalLinks a
  /\ 0 <= externalLinksWithoutRel a <= externalLinks a.
Proof.
  unfold extractLinks. destruct (URL_origin url) as [b|]; [|discriminate].
  cbn [of_option bind].
  assert (P := each_a_partition URL_href toLowerCase url b (cheerio_load html "a")).
  assert (B := each_a_bound URL_href toLowerCase url b (cheerio_load html "a")).
  destruct (each_a _ _ _ _ _) as [i e]. cbn [fst snd] in *.
  intros H. inversion H; subst facts; clear H. cbn zeta.
  cbn [links_analysis links_internal links_external internalLinks externalLinks
       totalLinks genericInternalLinks externalLinksWithoutRel].
  assert (G := count_filter_le isGeneric i).
  assert (W := count_filter_le (fun l => negb (hasRel l)) e).
  repeat split; try lia. exists b. destruct P. auto.
Qed.

Lemma extractLinks_partition_witness :
  exists facts,
    extractLinks anchors_page Host.origin Host.href Host.lower []
      (lit "https://example.com") = Ok facts
    /\ Forall (fun l => startsWith (il_url l) (lit "https://example.com") = true)
         (links_internal facts)
    /\ Forall (fun l => startsWith (el_url l) (lit "https://example.com") = false)
         (links_external facts)
    /\ totalLinks (links_analysis facts) = 2
    /\ totalLinks (links_analysis facts) <= 6.
Proof.
  exists_report (extractLinks anchors_page Host.origin Host.href Host.lower []
                   (lit "https://example.com")).
  match goal with
  | |- context [links_internal ?f] =>
      destruct (extractLinks_partition anchors_page Host.origin Host.href
                  Host.lower [] (lit "https://example.com") f)
        as ((b & Hb & Fi & Fe) & _ & _ & _ & L & _)
  end.
  - vm_compute. reflexivity.
  - injection Hb as <-. repeat split; [exact Fi | exact Fe | exact L].
Defined.

(** ** Ratios of counters against a threshold *)


(** [wordCount / paragraphCount < 150] holds exactly when there are fewer
    than 150 words per paragraph. *)
Lemma ratio_below_150 a b :
  0 <= a < 2 ^ 53 -> 0 < b < 2 ^ 32 ->
  (Z2f a / Z2f b <? 150)%float = (a <? 150 * b).
Proof.
  intros Ha Hb.
  assert (Hb' : 0 < b < 2 ^ 53)
    by (change (2 ^ 53) with 9007199254740992;
        change (2 ^ 32) with 4294967296 in Hb; lia).
  assert (Ra : (0 <= IZR a < 9007199254740992)%R).
  { rewrite <- two_53. split; [apply (IZR_le 0) | apply IZR_lt]; lia. }
  assert (Rb : (0 < IZR b < 4294967296)%R).
  { rewrite <- two_32. split; [apply (IZR_lt 0) | apply IZR_lt]; lia. }
  assert (Ib : (1 <= IZR b)%R) by (apply (IZR_le 1); lia).
  lit 0%float. lit 150%float. lit 9007199254740992%float.
  closed_float (next_down 150)%float.
  destruct (Z.ltb_spec a (150 * b)) as [G|G].
  - assert (Q : (IZR a + 1 <= 150 * IZR b)%R).
    { rewrite <- (plus_IZR a 1), <- mult_IZR. apply IZR_le. lia. }
    destruct (ratio_between a b 0 149.99999999999997) as [F B]; auto;
      [use_values; lra |].
    apply ltb_B2R; auto. revert B. use_values. lra.
  - assert (Q : (150 * IZR b <= IZR a)%R).
    { rewrite <- mult_IZR. apply IZR_le. lia. }
    destruct (ratio_between a b 150 9007199254740992) as [F B]; auto;
      [use_values; lra |].
    destruct (ltb_cases (Z2f a / Z2f b) 150) as [[_ C]|[E _]]; auto.
    revert B C. use_values. lra.
Qed.

(** ** The status of the links *)




(** ** Strengths and improvement areas *)

Lemma leb_ltb_finite x y :
  finite x -> finite y -> (x <=? y)%float = negb (y <? x)%float.
Proof.
  intros Fx Fy. destruct (ltb_cases y x Fy Fx) as [[-> L]|[-> L]]; cbn [negb].
  - destruct (x <=? y)%float eqn:E; [|reflexivity].
    apply leb_B2R in E; auto. lra.
  - now apply leb_B2R.
Qed.

Lemma in_0_100_finite x : in_0_100 x = true -> finite x.
Proof. intros H. apply in_0_100_iff in H. exact (proj1 H). Qed.

Lemma has_type_app ty l l' :
  has_type ty (l ++ l') = has_type ty l || has_type ty l'.
Proof. apply existsb_app. Qed.

Lemma has_type_when ty c f :
  has_type ty (when c f) = c && String.eqb (f_type f) ty.
Proof. destruct c; cbn; [apply orb_false_r | reflexivity]. Qed.

Lemma has_issue_app ty sev l l' :
  has_issue ty sev (l ++ l') = has_issue ty sev l || has_issue ty sev l'.
Proof. apply existsb_app. Qed.

Lemma has_issue_when ty sev c f :
  has_issue ty sev (when c f)
  = c && (String.eqb (f_type f) ty
          && match f_severity f with
             | Some s => String.eqb s sev
             | None => false
             end).
Proof. destruct c; cbn; [apply orb_false_r | reflexivity]. Qed.

Section Findings.

Variable Number_toString : float -> jsstring.

Lemma strengths_types m h i l p mo c :
  let s := identifyStrengths m h i l p mo c in
  has_type "heading" s
  = hasProperH1 (headings_analysis h) && hasLogicalStructure (headings_analysis h)
  /\ has_type "image" s = (90 <=? altTextPercentage (images_analysis i))%float
  /\ has_type "link" s = status_eqb (link_status (links_analysis l)) good
  /\ has_type "performance" s = (80 <=? perf_score p)%float
  /\ has_type "mobile" s = (80 <=? mobile_score mo)%float
  /\ has_type "content" s = (80 <=? content_score c)%float.
Proof.
  cbn zeta. unfold identifyStrengths.
  rewrite !has_type_app, !has_type_when.
  destruct (80 <=? meta_score m)%float;
    [|destruct (status_eqb (st_status (title (basic m))) good)];
    cbn; rewrite ?andb_true_r, ?andb_false_r, ?orb_false_r; repeat split.
Qed.

Lemma improvements_types m h i l p mo c :
  let s := identifyImprovementAreas Number_toString m h i l p mo c in
  has_type "image" s = (0 <? missingAltCount (images_analysis i))
  /\ has_type "link" s = (0 <? genericInternalLinks (links_analysis l))
  /\ has_type "performance" s = (perf_score p <? 80)%float
  /\ has_type "mobile" s = (mobile_score mo <? 80)%float
  /\ has_type "content" s = (wordCount (metrics c) <? 300).
Proof.
  cbn zeta. unfold identifyImprovementAreas.
  rewrite !has_type_app, !has_type_when.
  cbn; rewrite ?andb_true_r, ?andb_false_r, ?orb_false_r; repeat split.
Qed.

Lemma issues_severities m h i l p :
  let s := identifyCriticalIssues Number_toString m h i l p in
  has_issue "heading" "critical" s = (h1Count (headings_analysis h) =? 0)
  /\ has_issue "heading" "warning" s
     = negb (h1Count (headings_analysis h) =? 0)
       && (1 <? h1Count (headings_analysis h))
  /\ has_issue "image" "critical" s = (0 <? missingAltCount (images_analysis i))
  /\ has_issue "image" "warning" s = false.
Proof.
  cbn zeta. unfold identifyCriticalIssues.
  rewrite !has_issue_app, !has_issue_when.
  destruct (h1Count (headings_analysis h) =? 0);
    [|destruct (1 <? h1Count (headings_analysis h))];
    (destruct (perf_score p <? 50)%float;
     [|destruct (3 <? estimatedLoadTimeValue (perf_metrics_of p))%float]);
    cbn; rewrite ?andb_true_r, ?andb_false_r, ?orb_false_r, ?orb_true_r;
    repeat split.
Qed.

End Findings.

(** With at most 300 words the content score is at most 70. *)
Lemma content_tail_low base r :
  finite base -> (0 <= B2R base <= 20)%R -> fbetween 0 100 r ->
  fbetween 0 70 (Math_min 100 (base + r * 0.5)%float).
Proof.
  intros Fb Bb [Fr Br].
  lit 0%float. lit 100%float. lit 0.5%float. lit 50%float. lit 70%float.
  assert (A : fbetween (B2R 0) (B2R 50) (r * 0.5)).
  { apply mul_between; auto using srepr_lit. use_values. lra. }
  destruct A as [F1 B1].
  assert (A : fbetween (B2R 0) (B2R 70) (base + r * 0.5)).
  { apply add_between; auto using srepr_lit. revert B1. use_values. lra. }
  destruct A as [F2 B2].
  destruct (Math_min_ok 100 _ H1 F2) as [F3 V3].
  split; [exact F3|]. rewrite V3. revert B2. use_values.
  unfold Rmin. destruct (Rle_dec _ _); lra.
Qed.

Lemma calculateContentScore_low w p r :
  w <= 300 -> fbetween 0 100 r ->
  (80 <=? calculateContentScore w p r)%float = false.
Proof.
  intros Hw Hr. unfold calculateContentScore.
  destruct (Z.ltb_spec 1000 w); [lia|].
  destruct (Z.ltb_spec 500 w); [lia|].
  destruct (Z.ltb_spec 300 w); [lia|].
  destruct ((0 <? p) && _); [|destruct (0 <? p)];
    match goal with
    | |- (80 <=? Math_min 100 (?b + _))%float = false =>
        assert (B : fbetween 0 70 (Math_min 100 (b + r * 0.5)%float))
          by (apply content_tail_low;
              [closed_float b; assumption
              |closed_float b; use_values; lra
              |exact Hr])
    end;
    destruct B as [F B]; lit 80%float;
    (destruct (80 <=? _)%float eqn:E; [|reflexivity]);
    apply leb_B2R in E; auto; revert E; use_values; lra.
Qed.

Section ReportFindings.

Variable cheerio_load : jsstring -> cheerio.
Variable URL_origin : jsstring -> option jsstring.
Variable URL_href : jsstring -> jsstring -> option jsstring.
Variable toLowerCase : jsstring -> jsstring.
Variable toFixed1 : float -> jsstring.
Variable parseFloat : jsstring -> float.
Variable Number_toString : float -> jsstring.

Let analyze :=
  analyzeSEO cheerio_load URL_origin URL_href toLowerCase toFixed1 parseFloat
    Number_toString.

(** The report carries the findings of the classifier. *)
Lemma analyzeSEO_findings html url r :
  analyze html url = Ok r ->
  let mobile := checkMobileFriendliness cheerio_load html in
  criticalIssues r
  = identifyCriticalIssues Number_toString (metaTags r) (a_headings r)
      (a_images r) (links r) (performanceMetrics r)
  /\ strengths r
     = identifyStrengths (metaTags r) (a_headings r) (a_images r) (links r)
         (performanceMetrics r) mobile (contentAnalysis r)
  /\ improvementAreas r
     = identifyImprovementAreas Number_toString (metaTags r) (a_headings r)
         (a_images r) (links r) (performanceMetrics r) mobile
         (contentAnalysis r).
Proof.
  unfold analyze, analyzeSEO. intros H.
  destruct (extractImages cheerio_load URL_href html url) as [im|]; [|discriminate].
  cbn [bind] in H.
  destruct (extractLinks cheerio_load URL_origin URL_href toLowerCase html url)
    as [li|]; [|discriminate].
  cbn [bind] in H. inversion H; subst r; clear H. cbn. repeat split.
Qed.

Lemma extractHeadings_status html :
  let a := headings_analysis (extractHeadings cheerio_load html) in
  0 <= h1Count a
  /\ hasProperH1 a = (h1Count a =? 1)
  /\ (hasLogicalStructure a = true -> h1Count a = 1)
  /\ heading_status a = calculateHeadingStatus (h1Count a) (hasLogicalStructure a).
Proof.
  cbn zeta. unfold extractHeadings.
  cbn [headings_analysis h1Count hasProperH1 hasLogicalStructure heading_status
       headings h1].
  set (hs := Build_heading_lists _ _ _ _ _ _).
  repeat split; [unfold count; lia|].
  apply (checkLogicalHeadingStructure_h1 hs).
Qed.

Lemma extractImages_missing html url facts :
  extractImages cheerio_load URL_href html url = Ok facts ->
  let a := images_analysis facts in
  0 <= missingAltCount a <= totalImages a
  /\ totalImages a = count (cheerio_load html "img")
  /\ missingAltCount a
     = count (filter (fun el => negb (truthy (alt_of el))) (cheerio_load html "img"))
  /\ image_status a = calculateImageStatus (totalImages a) (missingAltCount a).
Proof.
  unfold extractImages. intros H.
  destruct (each_img URL_href url (cheerio_load html "img")) as [imgs|] eqn:E;
    [|discriminate].
  cbn [bind] in H. inversion H; subst facts; clear H. cbn zeta.
  cbn [images_analysis totalImages missingAltCount image_status].
  apply each_img_hasAlt in E.
  rewrite (count_map_eq _ _ _ _ E), (count_filter_map _ _ _ _ E).
  assert (W := count_filter_le (fun el => truthy (alt_of el))
                 (cheerio_load html "img")).
  repeat split; try lia.
  unfold count. clear. induction (cheerio_load html "img") as [|el l IH];
    [reflexivity|].
  cbn [filter]. destruct (truthy (alt_of el)); cbn [negb List.length] in *; lia.
Qed.

(** X9. In every report the findings on headings and images follow the
    statuses.  The strength on headings is listed exactly when the heading
    status is good.  The heading status is poor exactly when the page has no
    h1 or several: with no h1 the critical issue "Missing H1 heading" is
    listed, with several the warning "Multiple H1 headings", and with one h1
    neither, so that a page never gets the strength together with one of
    them.  The critical issue on images, which is never a warning, and the
    improvement area on images are listed exactly when the image status is
    not good, that is when some image has no alt text; the strength on links
    is listed exactly when the link status is good. *)
Theorem findings_follow_statuses (html url : jsstring) (r : Analysis) :
  analyze html url = Ok r ->
  let h := headings_analysis (a_headings r) in
  let i := images_analysis (a_images r) in
  has_type "heading" (strengths r) = status_eqb (heading_status h) good
  /\ has_issue "heading" "critical" (criticalIssues r) = (h1Count h =? 0)
  /\ has_issue "heading" "warning" (criticalIssues r) = (1 <? h1Count h)
  /\ status_eqb (heading_status h) poor = (h1Count h =? 0) || (1 <? h1Count h)
  /\ has_issue "image" "critical" (criticalIssues r)
     = negb (status_eqb (image_status i) good)
  /\ has_issue "image" "warning" (criticalIssues r) = false
  /\ has_type "image" (improvementAreas r)
     = negb (status_eqb (image_status i) good)
  /\ negb (status_eqb (image_status i) good) = (0 <? missingAltCount i)
  /\ has_type "link" (strengths r)
     = status_eqb (link_status (links_analysis (links r))) good.
Proof.
  intros H. cbn zeta.
  destruct (analyzeSEO_findings _ _ _ H) as (Ec & Es & Ei).
  destruct (analyzeSEO_facts _ _ _ _ _ _ _ _ _ _ H)
    as (_ & Eh & Eim & _).
  destruct (strengths_types (metaTags r) (a_headings r) (a_images r) (links r)
              (performanceMetrics r) (checkMobileFriendliness cheerio_load html)
              (contentAnalysis r)) as (S1 & _ & S3 & _).
  destruct (improvements_types Number_toString (metaTags r) (a_headings r)
              (a_images r) (links r) (performanceMetrics r)
              (checkMobileFriendliness cheerio_load html) (contentAnalysis r))
    as (I1 & _).
  destruct (issues_severities Number_toString (metaTags r) (a_headings r)
              (a_images r) (links r) (performanceMetrics r))
    as (C1 & C2 & C3 & C4).
  rewrite Ec, Es, Ei, S1, S3, I1, C1, C2, C3, C4.
  destruct (extractHeadings_status html) as (Hn & Hp & Hl & Hs).
  rewrite <- Eh in Hn, Hp, Hl, Hs.
  destruct (extractImages_missing _ _ _ Eim) as (Hm & _ & _ & Hi).
  rewrite Hs, Hp, Hi. unfold calculateHeadingStatus, calculateImageStatus.
  set (n := h1Count (headings_analysis (a_headings r))) in *.
  set (m := missingAltCount (images_analysis (a_images r))) in *.
  set (t := totalImages (images_analysis (a_images r))) in *.
  assert (Q : negb (status_eqb
                (if (t =? 0) || (m =? 0) then good
                 else if (Z2f m / Z2f t <? 0.2)%float then needs_improvement
                 else poor) good) = (0 <? m)).
  { destruct (Z.eqb_spec t 0), (Z.eqb_spec m 0), (Z.ltb_spec 0 m); try lia;
      cbn [orb]; try reflexivity.
    destruct (_ <? _)%float; reflexivity. }
  rewrite Q.
  destruct (hasLogicalStructure (headings_analysis (a_headings r))) eqn:L.
  - rewrite (Hl eq_refl). repeat split.
  - destruct (Z.eqb_spec n 1), (Z.eqb_spec n 0), (Z.ltb_spec 1 n); try lia;
      repeat split.
Qed.

(** X10. In every report exactly one of the strength and the improvement
    area on performance is listed, and exactly one of the two on mobile
    friendliness; the strength on mobile friendliness is listed exactly
    when the page has a viewport tag, a media query and a responsive class
    together.  On a page whose body text has fewer than [2^32] code units
    the strength on content is never listed with the improvement area on
    content: a content score of 80 or more needs more than 300 words. *)
Theorem strengths_exclude_improvements (html url : jsstring) (r : Analysis) :
  analyze html url = Ok r ->
  len (text (cheerio_load html "body")) < 2 ^ 32 ->
  let f := features (checkMobileFriendliness cheerio_load html) in
  has_type "performance" (strengths r)
  = negb (has_type "performance" (improvementAreas r))
  /\ has_type "mobile" (strengths r)
     = negb (has_type "mobile" (improvementAreas r))
  /\ has_type "mobile" (strengths r)
     = hasViewport f && hasMediaQueries f && hasResponsiveIndicators f
  /\ has_type "content" (strengths r) && has_type "content" (improvementAreas r)
     = false
  /\ (has_type "content" (strengths r) = true
      -> 300 < wordCount (metrics (contentAnalysis r))).
Proof.
  intros H Hb. cbn zeta.
  destruct (analyzeSEO_findings _ _ _ H) as (_ & Es & Ei).
  destruct (analyzeSEO_facts _ _ _ _ _ _ _ _ _ _ H)
    as (_ & _ & _ & _ & Ep & _ & Ec & _).
  destruct (strengths_types (metaTags r) (a_headings r) (a_images r) (links r)
              (performanceMetrics r) (checkMobileFriendliness cheerio_load html)
              (contentAnalysis r)) as (_ & _ & _ & S4 & S5 & S6).
  destruct (improvements_types Number_toString (metaTags r) (a_headings r)
              (a_images r) (links r) (performanceMetrics r)
              (checkMobileFriendliness cheerio_load html) (contentAnalysis r))
    as (_ & _ & I3 & I4 & I5).
  rewrite Es, Ei, S4, S5, S6, I3, I4, I5.
  lit 80%float.
  assert (Fp : finite (perf_score (performanceMetrics r))).
  { rewrite Ep. unfold estimatePerformance. cbn [perf_score].
    apply in_0_100_finite, calculatePerformanceScore_range. }
  rewrite Ec. clear Es Ei S4 S5 S6 I3 I4 I5 Ec.
  assert (C : (80 <=? content_score (analyzeContent cheerio_load toFixed1 html))%float
              = true ->
              300 < wordCount (metrics (analyzeContent cheerio_load toFixed1 html))).
  { intros E.
    destruct (Z_lt_le_dec 300
                (wordCount (metrics (analyzeContent cheerio_load toFixed1 html))))
      as [?|L]; [assumption|]. exfalso.
    destruct (analyzeContent_range cheerio_load toFixed1 html Hb) as [R _].
    revert E L R. unfold analyzeContent.
    cbn [content_score metrics wordCount readabilityScore]. intros E L R.
    rewrite calculateContentScore_low in E; [discriminate | exact L | exact R]. }
  repeat split.
  - now apply leb_ltb_finite.
  - unfold checkMobileFriendliness. cbn [mobile_score].
    destruct (0 <? _), (includes _ _), (_ || _); vm_compute; reflexivity.
  - unfold checkMobileFriendliness. cbn [mobile_score features hasViewport
      hasMediaQueries hasResponsiveIndicators].
    destruct (0 <? _), (includes _ _), (_ || _); vm_compute; reflexivity.
  - destruct (80 <=? content_score _)%float; [|reflexivity].
    specialize (C eq_refl). cbn [andb]. apply Z.ltb_ge. lia.
  - exact C.
Qed.

End ReportFindings.

Lemma findings_follow_statuses_witness :
  exists r,
    hi_report = Ok r
    /\ heading_status (headings_analysis (a_headings r)) = poor
    /\ has_type "heading" (strengths r) = false
    /\ has_issue "heading" "critical" (criticalIssues r) = true
    /\ has_issue "heading" "warning" (criticalIssues r) = false
    /\ image_status (images_analysis (a_images r)) = good
    /\ has_issue "image" "critical" (criticalIssues r) = false
    /\ has_type "image" (improvementAreas r) = false.
Proof.
  exists_report hi_report.
  match goal with
  | |- context [a_headings ?r] =>
      destruct (findings_follow_statuses hi_page Host.origin Host.href
                  Host.lower Host.fixed1 Host.parse Host.print []
                  (lit "https://example.com") r)
        as (A & B & C & _ & D & _ & E & _)
  end.
  - vm_compute. reflexivity.
  - rewrite A, B, C, D, E. vm_compute. repeat split.
Defined.

Lemma strengths_exclude_improvements_witness :
  exists r,
    hi_report = Ok r
    /\ has_type "performance" (strengths r) = true
    /\ has_type "performance" (improvementAreas r) = false
    /\ has_type "mobile" (strengths r) = false
    /\ has_type "mobile" (improvementAreas r) = true
    /\ has_type "content" (strengths r) && has_type "content" (improvementAreas r)
       = false.
Proof.
  exists_report hi_report.
  match goal with
  | |- context [strengths ?r] =>
      destruct (strengths_exclude_improvements hi_page Host.origin Host.href
                  Host.lower Host.fixed1 Host.parse Host.print []
                  (lit "https://example.com") r)
        as (P & M & _ & C & _)
  end.
  - vm_compute. reflexivity.
  - vm_compute. reflexivity.
  - rewrite P, M, C. vm_compute. repeat split.
Defined.

(** ** The meta tags score *)

Lemma truthy_len s : truthy s = (0 <? len s).
Proof. destruct s; reflexivity. Qed.

Lemma len_nonneg s : 0 <= len s.
Proof. unfold len. lia. Qed.

(** X11. The meta tags score is the sum of the points that go with the
    reported statuses: 20 for a title of a good length (30 to 70 code
    units) and 15 for one that is too short or too long, the same for the
    description (120 to 160), 10 each for a canonical link, a viewport, an
    Open Graph image and a Twitter card, 5 each for an Open Graph title and
    description, and 10 more when the Twitter card is "summary" or
    "summary_large_image".  The robots tag, og:url, og:type and the other
    Twitter tags do not count.  The sum is computed without rounding
    error. *)
Theorem meta_score_from_statuses
    (cheerio_load : jsstring -> cheerio) (html url : jsstring) :
  let m := extractMetaTags cheerio_load html url in
  let card := tag_content (tw_card (twitter m)) in
  meta_score m
  = Z2f (length_points (st_status (title (basic m)))
         + length_points (st_status (description (basic m)))
         + presence_points 10 (tag_status (canonical (basic m)))
         + presence_points 10 (tag_status (viewport (basic m)))
         + presence_points 5 (tag_status (og_title (openGraph m)))
         + presence_points 5 (tag_status (og_description (openGraph m)))
         + presence_points 10 (tag_status (og_image (openGraph m)))
         + presence_points 10 (tag_status (tw_card (twitter m)))
         + (if jseqb card (lit "summary")
               || jseqb card (lit "summary_large_image")
            then 10 else 0)).
Proof.
  cbn zeta. unfold extractMetaTags.
  cbn [meta_score basic openGraph twitter title description canonical viewport
       og_title og_description og_image tw_card st_status tag_status
       tag_content mk_tag].
  set (t := text (cheerio_load html "title")).
  set (d := or_empty (attr "content" (cheerio_load html (attr_sel "meta" "name" "description")))).
  set (c := or_empty (attr "href" _)).
  set (v := or_empty (attr "content" (cheerio_load html (attr_sel "meta" "name" "viewport")))).
  set (ot := or_empty (attr "content" (cheerio_load html (attr_sel "meta" "property" "og:title")))).
  set (od := or_empty (attr "content" (cheerio_load html (attr_sel "meta" "property" "og:description")))).
  set (oi := or_empty (attr "content" (cheerio_load html (attr_sel "meta" "property" "og:image")))).
  set (tc := or_empty (attr "content" (cheerio_load html (attr_sel "meta" "name" "twitter:card")))).
  unfold calculateMetaTagsScore, presence. cbn zeta.
  rewrite (truthy_len t), (truthy_len d).
  assert (Nt := len_nonneg t). assert (Nd := len_nonneg d).
  assert (Tc : truthy tc = false ->
               jseqb tc (lit "summary") || jseqb tc (lit "summary_large_image")
               = false).
  { destruct tc; [reflexivity | discriminate]. }
  generalize dependent (len t). generalize dependent (len d).
  intros nd Nd nt Nt.
  destruct (Z.ltb_spec 0 nt), (Z.leb_spec 30 nt), (Z.leb_spec nt 70),
           (Z.ltb_spec 70 nt), (Z.ltb_spec nt 30); try lia;
    destruct (Z.ltb_spec 0 nd), (Z.leb_spec 120 nd), (Z.leb_spec nd 160),
             (Z.ltb_spec 160 nd), (Z.ltb_spec nd 120); try lia;
    clear - Tc;
    destruct (jseqb tc (lit "summary") || jseqb tc (lit "summary_large_image"));
    destruct (truthy tc); try (specialize (Tc eq_refl); discriminate); clear Tc;
    destruct (truthy c), (truthy v), (truthy ot), (truthy od), (truthy oi);
    vm_compute; reflexivity.
Qed.

(** ** Rounding to nearest: the error of a division *)

Lemma round_nearest_even_near m l v :
  inbetween m l v ->
  (Rabs (IZR (round_nearest_even m l) - v) <= / 2)%R.
Proof.
  intros H. destruct l as [|[]]; cbn [inbetween round_nearest_even] in *.
  - subst v. rewrite Rminus_diag, Rabs_R0. lra.
  - subst v. destruct (Z.even m); [|rewrite plus_IZR];
      apply Rabs_le; lra.
  - apply Rabs_le. lra.
  - rewrite plus_IZR. apply Rabs_le. lra.
Qed.

(** The binade of a positive value fixes the exponent. *)
Lemma binade_unique x j k :
  (bpow (j - 1) <= x < bpow j)%R -> (bpow (k - 1) <= x < bpow k)%R -> j = k.
Proof.
  intros [L1 U1] [L2 U2].
  assert (A : (bpow (j - 1) < bpow k)%R) by lra.
  assert (B : (bpow (k - 1) < bpow j)%R) by lra.
  apply bpow_lt_inv in A, B. lia.
Qed.

(** The rounding of a positive value [v * 2^ex] in the binade [k] is a
    multiple of [2^fexp(k)] at most half of it away from the value. *)
Lemma round_aux_near mx ex lx v b k :
  0 < mx -> inbetween mx lx v ->
  ex <= fexp prec emax (Zdigits2 mx + ex) ->
  repr b -> (v * bpow ex <= b)%R ->
  (bpow (k - 1) <= v * bpow ex < bpow k)%R ->
  let e1 := fexp prec emax k in
  exists m1,
    SF2R (binary_round_aux prec emax false mx ex lx) = (IZR m1 * bpow e1)%R
    /\ (Rabs (IZR m1 * bpow e1 - v * bpow ex) <= bpow e1 / 2)%R.
Proof.
  intros Hmx Hin Hn Hb Hvb Hk. cbn zeta.
  assert (Hmx0 : 0 <= mx) by lia.
  assert (Hv := inbetween_bounds _ _ _ Hin).
  destruct (Zdigits2_bpow mx Hmx0) as (Hd0 & Hdu & Hdl). specialize (Hdl Hmx).
  assert (Hv0 : (0 <= v * bpow ex)%R).
  { assert (G := bpow_gt_0 ex). assert (0 <= IZR mx)%R by (apply IZR_le; lia).
    nra. }
  (* the digits of [mx] give the binade *)
  assert (Ek : Zdigits2 mx + ex = k).
  { apply (binade_unique (v * bpow ex)); [|exact Hk].
    assert (G := bpow_gt_0 ex).
    replace (Zdigits2 mx + ex - 1) with (Zdigits2 mx - 1 + ex) by lia.
    rewrite !bpow_add. split; [nra|].
    assert (IZR mx + 1 <= bpow (Zdigits2 mx))%R.
    { rewrite bpow_IZR in * by lia. rewrite <- plus_IZR.
      apply IZR_le. apply lt_IZR in Hdu. lia. }
    nra. }
  assert (Z := round_aux_ok false mx ex lx v 0 b Hmx0 Hin Hn (or_introl eq_refl)
                 Hb (conj Hv0 Hvb)).
  cbn zeta in Z. revert Z. unfold binary_round_aux. rewrite Ek in *.
  set (e1 := fexp prec emax k) in *.
  assert (Fe : e1 = Z.max (k - 53) (-1074)) by apply fexp_eq.
  change (shr_fexp prec emax mx ex lx)
    with (shr (shr_record_of_loc mx lx) ex
            (fexp prec emax (Zdigits2 mx + ex) - ex)).
  rewrite Ek. fold e1.
  destruct (shr_ok (shr_record_of_loc mx lx) ex (e1 - ex) v ltac:(lia)
              (rec_of_loc _ _ _ Hmx0 Hin)) as [[Hm' Hin'] He'].
  destruct (shr (shr_record_of_loc mx lx) ex (e1 - ex)) as [mrs' e'].
  cbn [fst snd] in *. assert (Ee : e' = e1) by lia. clear He'. subst e'.
  set (m' := shr_m mrs') in *. set (l' := loc_of_shr_record mrs') in *.
  set (v' := (v * bpow (- (e1 - ex)))%R) in *.
  destruct (round_nearest_even_ok _ _ _ Hin') as (Hm1 & _ & _).
  assert (N1 := round_nearest_even_near _ _ _ Hin').
  assert (Hv' := inbetween_bounds _ _ _ Hin').
  remember (round_nearest_even m' l') as m1 eqn:Em1. clear Em1.
  assert (K1 : (v * bpow ex = v' * bpow e1)%R).
  { unfold v'. rewrite Rmult_assoc, <- bpow_add. f_equal. f_equal. lia. }
  assert (G1 := bpow_gt_0 e1).
  assert (Near : (Rabs (IZR m1 * bpow e1 - v * bpow ex) <= bpow e1 / 2)%R).
  { rewrite K1, <- Rmult_minus_distr_r, Rabs_mult,
      (Rabs_pos_eq (bpow e1)) by lra. nra. }
  assert (P52 := proj2 bpow_lit). assert (P53 := proj1 bpow_lit).
  assert (G0 := bpow_gt_0 ex). assert (G' := bpow_gt_0 (- (e1 - ex))).
  assert (U : m' < 2 ^ 53).
  { apply lt_IZR. change (2 ^ 53) with 9007199254740992. rewrite <- P53.
    assert (v' < bpow (k - e1))%R.
    { unfold v'. replace (k - e1) with (k - ex + - (e1 - ex)) by lia.
      rewrite bpow_add.
      assert (v < bpow (k - ex))%R.
      { destruct Hk as [_ Hk]. replace k with (k - ex + ex) in Hk by lia.
        rewrite bpow_add in Hk. nra. }
      nra. }
    assert (bpow (k - e1) <= bpow 53)%R by (apply bpow_le; lia). lra. }
  assert (L : -1074 < e1 -> 2 ^ 52 <= m').
  { intros G. assert (bpow 52 <= v')%R.
    { unfold v'. replace 52 with (k - 1 - ex + - (e1 - ex)) by lia.
      rewrite bpow_add.
      assert (bpow (k - 1 - ex) <= v)%R.
      { destruct Hk as [Hk _]. replace (k - 1) with (k - 1 - ex + ex) in Hk by lia.
        rewrite bpow_add in Hk. nra. }
      nra. }
    assert (IZR (2 ^ 52) < IZR (m' + 1))%R.
    { change (2 ^ 52) with 4503599627370496. rewrite plus_IZR. lra. }
    apply lt_IZR in H0. lia. }
  intros Z. exists m1. split; [|exact Near].
  destruct (Z.eq_dec m1 0) as [->|NZ].
  - (* the rounded mantissa is 0 *)
    rewrite Rmult_0_l. revert Z. unfold shr_fexp.
    cbn [Zdigits2 shr_record_of_loc].
    pose (r0 := {| shr_m := 0; shr_r := false; shr_s := false |}).
    fold r0.
    assert (R0 : rec_ok r0 0) by (split; [cbn; lia | reflexivity]).
    set (n1 := fexp prec emax (0 + e1) - e1).
    destruct (Z_le_gt_dec 0 n1) as [G|G].
    + destruct (shr_ok r0 e1 n1 0 G R0) as [[Q1 Q2] _].
      destruct (shr r0 e1 n1) as [mrs2 e2]. cbn [fst snd] in *.
      apply inbetween_bounds in Q2. rewrite Rmult_0_l in Q2.
      assert (shr_m mrs2 = 0).
      { assert (IZR (shr_m mrs2) < IZR 1)%R by lra. apply lt_IZR in H. lia. }
      rewrite H. reflexivity.
    + destruct n1; try lia. reflexivity.
  - destruct (second_shift false m1 e1 ltac:(lia) ltac:(lia) ltac:(lia))
      as (m2 & e2 & E & _ & V2). rewrite E in *.
    destruct (e2 <=? 971).
    + rewrite SF2R_finite. exact V2.
    + exfalso. destruct Z as [[Z _]|(m & e & Z & _)]; discriminate.
Qed.

Lemma SFdiv_near mx ex my ey k b :
  let q := (IZR (Zpos mx) * bpow ex / (IZR (Zpos my) * bpow ey))%R in
  (bpow (k - 1) <= q < bpow k)%R -> -1073 <= k ->
  repr b -> (q <= b)%R ->
  exists m1,
    SF2R (SFdiv prec emax (S754_finite false mx ex) (S754_finite false my ey))
    = (IZR m1 * bpow (fexp prec emax k))%R
    /\ (Rabs (IZR m1 * bpow (fexp prec emax k) - q) <= bpow (fexp prec emax k) / 2)%R.
Proof.
  cbn zeta. intros Hk Kn Hb Hq. cbn [SFdiv xorb].
  destruct (div_core_ok mx ex my ey) as (v & Pq & Hin & V & Hn).
  destruct (SFdiv_core_binary prec emax (Zpos mx) ex (Zpos my) ey)
    as [[q e'] l].
  cbn [fst snd] in *. rewrite <- V in *.
  apply round_aux_near with (b := b); auto.
  destruct (Z.eq_dec q 0) as [->|N]; [exfalso|lia].
  apply inbetween_bounds in Hin. cbn [Zdigits2] in Hn. rewrite fexp_eq in Hn.
  assert (bpow e' <= bpow (k - 1))%R by (apply bpow_le; lia).
  assert (G := bpow_gt_0 e'). nra.
Qed.

(** One fifth: the quotient of [a] by [5 * a] is the number [0.2]. *)
Lemma fifth_exact a :
  0 < a -> 5 * a < 2 ^ 53 ->
  finite (Z2f a / Z2f (5 * a)) /\ B2R (Z2f a / Z2f (5 * a)) = B2R 0.2.
Proof.
  intros Ha Hb.
  destruct (Z2f_exact a ltac:(lia)) as [Fa Va].
  destruct (Z2f_exact (5 * a) ltac:(lia)) as [Fb Vb].
  assert (Pa : (0 < IZR a)%R) by (apply (IZR_lt 0); lia).
  assert (Q : (IZR a / IZR (5 * a) = / 5)%R) by (rewrite mult_IZR; field; lra).
  destruct (Prim2SF_positive _ Fa ltac:(lra)) as (mx & ex & Ex).
  destruct (Prim2SF_positive _ Fb ltac:(rewrite Vb, mult_IZR; lra))
    as (my & ey & Ey).
  lit 0.2%float. lit 0%float.
  assert (F : fbetween (B2R 0) (B2R 0.2) (Z2f a / Z2f (5 * a))).
  { apply div_between; auto using srepr_B2R.
    - rewrite Vb, mult_IZR. lra.
    - rewrite Va, Vb, Q. use_values. lra. }
  destruct F as [F _]. split; [exact F|].
  unfold B2R in Va, Vb |- *. rewrite div_spec, Ex, Ey in *.
  rewrite SF2R_finite in Va, Vb.
  destruct (SFdiv_near mx ex my ey (-2) (B2R 0.2)) as (m1 & E & N).
  - rewrite Va, Vb, Q.
    change (bpow (-2 - 1)) with (bpow (- Zpos 3)).
    change (bpow (-2)) with (bpow (- Zpos 2)).
    rewrite (bpow_opp (Zpos 2)), (bpow_opp (Zpos 3)), !bpow_IZR by lia.
    change (IZR (2 ^ 2)) with 4%R. change (IZR (2 ^ 3)) with 8%R. lra.
  - lia.
  - apply srepr_repr; [now apply srepr_B2R | rewrite H0; lra].
  - rewrite Va, Vb, Q, H0. lra.
  - unfold SF64div. rewrite E. rewrite Va, Vb, Q in N.
    change (fexp prec emax (-2)) with (- Zpos 55) in *.
    rewrite (bpow_opp (Zpos 55)), bpow_IZR in * by lia.
    change (IZR (2 ^ 55)) with 36028797018963968%R in *.
    assert (A : (IZR 7205759403792793 < IZR m1 < IZR 7205759403792795)%R).
    { revert N. unfold Rabs. destruct (Rcase_abs _); intros N; lra. }
    assert (m1 = 7205759403792794).
    { destruct A as [A B]. apply lt_IZR in A, B. lia. }
    subst m1. fold (B2R 0.2). rewrite H0. lra.
Qed.

(** [missingAltCount / totalImages < 0.2] holds exactly when fewer than a
    fifth of the images have no alt text. *)
Lemma ratio_below_fifth a b :
  0 <= a < 2 ^ 32 -> 0 < b < 2 ^ 32 ->
  (Z2f a / Z2f b <? 0.2)%float = (5 * a <? b).
Proof.
  intros Ha Hb.
  assert (Ha' : 0 <= a < 2 ^ 53)
    by (change (2 ^ 53) with 9007199254740992;
        change (2 ^ 32) with 4294967296 in Ha; lia).
  assert (Hb' : 0 < b < 2 ^ 53)
    by (change (2 ^ 53) with 9007199254740992;
        change (2 ^ 32) with 4294967296 in Hb; lia).
  assert (Ra : (0 <= IZR a < 4294967296)%R).
  { rewrite <- two_32. split; [apply (IZR_le 0) | apply IZR_lt]; lia. }
  assert (Rb : (0 < IZR b < 4294967296)%R).
  { rewrite <- two_32. split; [apply (IZR_lt 0) | apply IZR_lt]; lia. }
  assert (Ib : (1 <= IZR b)%R) by (apply (IZR_le 1); lia).
  lit 0%float. lit 0.2%float. lit 9007199254740992%float.
  closed_float (next_down 0.2)%float.
  destruct (Z.ltb_spec (5 * a) b) as [G|G].
  - assert (Q : (5 * IZR a + 1 <= IZR b)%R).
    { rewrite <- mult_IZR, <- (plus_IZR _ 1). apply IZR_le. lia. }
    destruct (ratio_between a b 0 0.19999999999999998) as [F B]; auto;
      [use_values; lra |].
    apply ltb_B2R; auto. revert B. use_values. lra.
  - destruct (Z.eq_dec b (5 * a)) as [->|N].
    + destruct (fifth_exact a) as [F E]; [lia | lia |].
      destruct (ltb_cases (Z2f a / Z2f (5 * a)) 0.2) as [[_ C]|[-> _]]; auto.
      lra.
    + assert (Q : (IZR b + 1 <= 5 * IZR a)%R).
      { rewrite <- (plus_IZR b 1), <- mult_IZR. apply IZR_le. lia. }
      destruct (ratio_between a b 0.2 9007199254740992) as [F B]; auto;
        [use_values; lra |].
      destruct (ltb_cases (Z2f a / Z2f b) 0.2) as [[_ C]|[E _]]; auto.
      revert B C. use_values. lra.
Qed.

(** ** The status of the images *)

Lemma calculateImageStatus_thresholds t m :
  0 <= m <= t -> t < 2 ^ 32 ->
  calculateImageStatus t m
  = if m =? 0 then good
    else if 5 * m <? t then needs_improvement
    else poor.
Proof.
  intros Hm Ht. unfold calculateImageStatus.
  destruct (Z.eqb_spec m 0) as [->|N]; [now rewrite orb_true_r|].
  destruct (Z.eqb_spec t 0) as [->|Nt]; [lia|]. cbn [orb].
  rewrite ratio_below_fifth by lia. reflexivity.
Qed.

Lemma each_img_alt URL_href url els imgs :
  each_img URL_href url els = Ok imgs ->
  map img_alt imgs = map alt_of els.
Proof.
  revert imgs. induction els as [|el els IH]; cbn [each_img]; intros imgs H.
  - now inversion H.
  - destruct (if startsWith _ _ then _ else _) as [fullSrc|]; [|discriminate].
    cbn [bind] in H. destruct (each_img URL_href url els) as [rest|];
      [|discriminate].
    cbn [bind] in H. inversion H; subst; clear H. cbn [map img_alt].
    f_equal. now apply IH.
Qed.

(** X12. The images extractor lists one image for each [<img>] of the
    page, in the order of the document, with its alt text.  The status of
    the images of a page with fewer than [2^32] images is good when no
    image lacks an alt text (also when there is no image),
    needs_improvement when some but fewer than one fifth of the images lack
    one, and poor from exactly one fifth on.  The comparison of the
    quotient with 0.2 in binary64 decides exactly this, the boundary
    included: the quotient of [n] by [5 * n] is the number 0.2 itself. *)
Theorem image_status_thresholds
    (cheerio_load : jsstring -> cheerio)
    (URL_href : jsstring -> jsstring -> option jsstring)
    (html url : jsstring) (facts : Images) :
  extractImages cheerio_load URL_href html url = Ok facts ->
  count (cheerio_load html "img") < 2 ^ 32 ->
  let a := images_analysis facts in
  map img_alt (images facts) = map alt_of (cheerio_load html "img")
  /\ missingAltCount a
     = count (filter (fun el => negb (truthy (alt_of el))) (cheerio_load html "img"))
  /\ imagesWithAlt a + missingAltCount a = totalImages a
  /\ image_status a
     = if missingAltCount a =? 0 then good
       else if 5 * missingAltCount a <? totalImages a then needs_improvement
       else poor.
Proof.
  intros H Hn. cbn zeta.
  destruct (extractImages_missing _ _ _ _ _ H) as (Hm & Ht & Hc & Hs).
  split; [|split; [exact Hc|split]].
  - revert H. unfold extractImages.
    destruct (each_img _ _ _) as [imgs|] eqn:E; [|discriminate].
    cbn [bind]. intros H. inversion H; subst facts. cbn [images].
    now apply each_img_alt in E.
  - revert H. unfold extractImages.
    destruct (each_img _ _ _) as [imgs|]; [|discriminate].
    cbn [bind]. intros H. inversion H; subst facts. cbn. lia.
  - rewrite Hs. apply calculateImageStatus_thresholds; lia.
Qed.

Lemma image_status_thresholds_witness :
  exists facts,
    extractImages two_images_page Host.href [] (lit "https://example.com/")
    = Ok facts
    /\ totalImages (images_analysis facts) = 2
    /\ missingAltCount (images_analysis facts) = 1
    /\ image_status (images_analysis facts) = poor.
Proof.
  exists_report (extractImages two_images_page Host.href []
                   (lit "https://example.com/")).
  split; [reflexivity|].
  match goal with
  | |- context [images_analysis ?f] =>
      destruct (image_status_thresholds two_images_page Host.href []
                  (lit "https://example.com/") f)
        as (_ & M & _ & S)
  end.
  - vm_compute. reflexivity.
  - vm_compute. reflexivity.
  - rewrite S, M. vm_compute. split; reflexivity.
Defined.

(** ** The range of the overall score *)

Lemma calculatePerformanceScore_floor tot lt sc :
  (25 <=? calculatePerformanceScore tot lt sc)%float = true.
Proof.
  unfold calculatePerformanceScore. cbn zeta.
  generalize (50 <? tot) (30 <? tot) (15 <? tot) (3 <? lt)%float
    (2 <? lt)%float (1 <? lt)%float (15 <? sc) (10 <? sc) (5 <? sc).
  intros b1 b2 b3 b4 b5 b6 b7 b8 b9.
  destruct b1, b2, b3, b4, b5, b6, b7, b8, b9; vm_compute; reflexivity.
Qed.

Lemma weighted_between x wgt xlo xhi lo hi :
  fbetween (B2R xlo) (B2R xhi) x -> finite wgt -> finite lo -> finite hi ->
  (0 <= B2R wgt)%R ->
  (B2R lo <= B2R xlo * B2R wgt)%R -> (B2R xhi * B2R wgt <= B2R hi)%R ->
  fbetween (B2R lo) (B2R hi) (x * wgt).
Proof.
  intros [Fx Bx] Fw Fl Fh Pw Hl Hh.
  apply mul_between; auto using srepr_lit. nra.
Qed.

Lemma sum_between acc x alo ahi xlo xhi lo hi :
  fbetween (B2R alo) (B2R ahi) acc -> fbetween (B2R xlo) (B2R xhi) x ->
  finite lo -> finite hi ->
  (B2R lo <= B2R alo + B2R xlo)%R -> (B2R ahi + B2R xhi <= B2R hi)%R ->
  fbetween (B2R lo) (B2R hi) (acc + x).
Proof.
  intros [Fa Ba] [Fx Bx] Fl Fh Hl Hh.
  apply add_between; auto using srepr_lit. lra.
Qed.

Lemma fbetween_lit lo hi x :
  finite lo -> finite hi ->
  (fbetween (B2R lo) (B2R hi) x
   <-> (lo <=? x)%float = true /\ (x <=? hi)%float = true).
Proof.
  intros Fl Fh. split.
  - intros [F B]. split; apply leb_B2R; auto; lra.
  - intros [L U]. assert (F := leb_finite _ _ _ Fl Fh L U).
    apply leb_B2R in L, U; auto. split; [exact F | lra].
Qed.

Lemma calculateOverallScore_bounds m h a l p mo c :
  fbetween (B2R 0) (B2R 100) m -> fbetween (B2R 50) (B2R 100) h ->
  fbetween (B2R 0) (B2R 100) a -> fbetween (B2R 40) (B2R 80) l ->
  fbetween (B2R 25) (B2R 100) p -> fbetween (B2R 0) (B2R 100) mo ->
  fbetween (B2R 0) (B2R 100) c ->
  fbetween (B2R 16) (B2R 97) (calculateOverallScore m h a l p mo c).
Proof.
  intros Hm Hh Ha Hl Hp Hmo Hc. unfold calculateOverallScore. cbn zeta.
  lit 0%float. lit 100%float. lit 50%float. lit 40%float. lit 80%float.
  lit 25%float. lit 16%float. lit 97%float.
  lit 0.2%float. lit 0.1%float. lit 0.15%float.
  lit 20.0625%float. lit 10.0625%float. lit 15.0625%float. lit 12.0625%float.
  lit 5%float. lit 5.9375%float.
  lit 30.125%float. lit 40.1875%float. lit 52.25%float. lit 72.3125%float.
  lit 87.375%float. lit 97.4375%float.
  lit 10.9375%float. lit 15.9375%float.
  assert (T1 : fbetween (B2R 0) (B2R 20.0625) (m * 0.2))
    by (apply (weighted_between m 0.2 0 100 0 20.0625); auto; use_values; lra).
  assert (T2 : fbetween (B2R 5) (B2R 10.0625) (h * 0.1))
    by (apply (weighted_between h 0.1 50 100 5 10.0625); auto; use_values; lra).
  assert (T3 : fbetween (B2R 0) (B2R 10.0625) (a * 0.1))
    by (apply (weighted_between a 0.1 0 100 0 10.0625); auto; use_values; lra).
  assert (T4 : fbetween (B2R 5.9375) (B2R 12.0625) (l * 0.15))
    by (apply (weighted_between l 0.15 40 80 5.9375 12.0625); auto; use_values; lra).
  assert (T5 : fbetween (B2R 5) (B2R 20.0625) (p * 0.2))
    by (apply (weighted_between p 0.2 25 100 5 20.0625); auto; use_values; lra).
  assert (T6 : fbetween (B2R 0) (B2R 15.0625) (mo * 0.15))
    by (apply (weighted_between mo 0.15 0 100 0 15.0625); auto; use_values; lra).
  assert (T7 : fbetween (B2R 0) (B2R 10.0625) (c * 0.1))
    by (apply (weighted_between c 0.1 0 100 0 10.0625); auto; use_values; lra).
  assert (S2 : fbetween (B2R 5) (B2R 30.125) (m * 0.2 + h * 0.1))
    by (apply (sum_between (m * 0.2)%float (h * 0.1)%float 0 20.0625 5 10.0625 5 30.125);
        auto; use_values; lra).
  assert (S3 : fbetween (B2R 5) (B2R 40.1875) (m * 0.2 + h * 0.1 + a * 0.1))
    by (apply (sum_between (m * 0.2 + h * 0.1)%float (a * 0.1)%float 5 30.125 0 10.0625 5 40.1875);
        auto; use_values; lra).
  assert (S4 : fbetween (B2R 10.9375) (B2R 52.25)
                 (m * 0.2 + h * 0.1 + a * 0.1 + l * 0.15))
    by (apply (sum_between (m * 0.2 + h * 0.1 + a * 0.1)%float (l * 0.15)%float 5 40.1875 5.9375 12.0625 10.9375 52.25);
        auto; use_values; lra).
  assert (S5 : fbetween (B2R 15.9375) (B2R 72.3125)
                 (m * 0.2 + h * 0.1 + a * 0.1 + l * 0.15 + p * 0.2))
    by (apply (sum_between (m * 0.2 + h * 0.1 + a * 0.1 + l * 0.15)%float (p * 0.2)%float 10.9375 52.25 5 20.0625 15.9375 72.3125);
        auto; use_values; lra).
  assert (S6 : fbetween (B2R 15.9375) (B2R 87.375)
                 (m * 0.2 + h * 0.1 + a * 0.1 + l * 0.15 + p * 0.2
                  + mo * 0.15))
    by (apply (sum_between (m * 0.2 + h * 0.1 + a * 0.1 + l * 0.15 + p * 0.2)%float (mo * 0.15)%float 15.9375 72.3125 0 15.0625 15.9375 87.375);
        auto; use_values; lra).
  assert (S7 : fbetween (B2R 15.9375) (B2R 97.4375)
                 (m * 0.2 + h * 0.1 + a * 0.1 + l * 0.15 + p * 0.2
                  + mo * 0.15 + c * 0.1))
    by (apply (sum_between (m * 0.2 + h * 0.1 + a * 0.1 + l * 0.15 + p * 0.2 + mo * 0.15)%float (c * 0.1)%float 15.9375 87.375 0 10.0625 15.9375 97.4375);
        auto; use_values; lra).
  destruct S7 as [F B]. revert B. use_values. intros B.
  destruct (Math_round_ok _ F ltac:(lra)) as (n & Hn & I & Fn & Vn).
  split; [exact Fn|]. rewrite Vn.
  assert (A : (IZR 15 < IZR n < IZR 98)%R) by lra.
  destruct A as [A1 A2]. apply lt_IZR in A1, A2.
  assert (IZR 16 <= IZR n <= IZR 97)%R by (split; apply IZR_le; lia).
  use_values. lra.
Qed.

Lemma in_0_100_between x :
  in_0_100 x = true -> fbetween (B2R 0) (B2R 100) x.
Proof.
  unfold in_0_100. intros H. apply andb_true_iff in H.
  apply fbetween_lit; [reflexivity | reflexivity | exact H].
Qed.

(** X13. On a page within the size limits of the host the overall score
    is an integer between 16 and 97: no page reaches 100, because the
    links count for at most 80, and none falls below 16, because the
    headings count for at least 50, the links for at least 40 and the
    performance score is never below 25. *)
Theorem overall_score_between_16_and_97
    (cheerio_load : jsstring -> cheerio)
    (URL_origin : jsstring -> option jsstring)
    (URL_href : jsstring -> jsstring -> option jsstring)
    (toLowerCase : jsstring -> jsstring)
    (toFixed1 : float -> jsstring) (parseFloat : jsstring -> float)
    (Number_toString : float -> jsstring)
    (html url : jsstring) (r : Analysis) :
  analyzeSEO cheerio_load URL_origin URL_href toLowerCase toFixed1 parseFloat
    Number_toString html url = Ok r ->
  count (cheerio_load html "img") < 2 ^ 32 ->
  len (text (cheerio_load html "body")) < 2 ^ 32 ->
  (16 <=? seoScore r)%float = true
  /\ (seoScore r <=? 97)%float = true
  /\ is_integer (seoScore r) = true
  /\ (25 <=? performanceScore r)%float = true
  /\ (linksScore r <=? 80)%float = true.
Proof.
  intros H Hi Hb.
  destruct (report_ranges _ _ _ _ _ _ _ _ _ _ H Hi Hb)
    as ([M _] & _ & [A _] & _ & [P _] & [Mo _] & C & _ & [_ I]).
  destruct (analyzeSEO_facts _ _ _ _ _ _ _ _ _ _ H)
    as (_ & _ & _ & _ & Ep & _ & _ & _ & _ & Eps & Els & Es).
  assert (Pf : (25 <=? performanceScore r)%float = true).
  { rewrite Eps, Ep. unfold estimatePerformance. cbn [perf_score].
    apply calculatePerformanceScore_floor. }
  assert (Hh : fbetween (B2R 50) (B2R 100) (headingsProxy (a_headings r))).
  { unfold headingsProxy. destruct (hasProperH1 _);
      apply fbetween_lit; try reflexivity; split; reflexivity. }
  assert (Hl : fbetween (B2R 40) (B2R 80) (linksScore r)).
  { rewrite Els. unfold linksProxy.
    destruct (status_eqb _ good); [|destruct (status_eqb _ needs_improvement)];
      apply fbetween_lit; try reflexivity; split; reflexivity. }
  assert (Hp : fbetween (B2R 25) (B2R 100) (performanceScore r)).
  { apply fbetween_lit; try reflexivity. split; [exact Pf|].
    unfold in_0_100 in P. apply andb_true_iff in P. tauto. }
  assert (S := calculateOverallScore_bounds _ _ _ _ _ _ _
                 (in_0_100_between _ M) Hh (in_0_100_between _ A) Hl Hp
                 (in_0_100_between _ Mo) (in_0_100_between _ C)).
  rewrite <- Es in S. apply fbetween_lit in S; try reflexivity.
  apply fbetween_lit in Hl; try reflexivity.
  repeat split; tauto.
Qed.

Lemma overall_score_between_16_and_97_witness :
  exists r,
    hi_report = Ok r
    /\ (16 <=? seoScore r)%float = true
    /\ (seoScore r <=? 97)%float = true
    /\ is_integer (seoScore r) = true
    /\ (25 <=? performanceScore r)%float = true
    /\ (linksScore r <=? 80)%float = true.
Proof.
  exists_report hi_report.
  apply (overall_score_between_16_and_97 hi_page Host.origin Host.href
           Host.lower Host.fixed1 Host.parse Host.print []
           (lit "https://example.com"));
    vm_compute; reflexivity.
Defined.

(** ** The words of a body with some text *)

Lemma tokens_collapse s :
  (forall p, tokens_from p (collapse_from false s) = tokens_from p s)
  /\ tokens_from true (collapse_from true s) = tokens_from true s.
Proof.
  induction s as [|c s [IHf IHt]]; [split; reflexivity|].
  cbn [collapse_from tokens_from]. destruct (is_space c) eqn:E; split.
  - intros p. cbn [tokens_from]. change (is_space 32) with true. exact IHt.
  - exact IHt.
  - intros p. cbn [tokens_from]. rewrite E, IHf. reflexivity.
  - cbn [tokens_from]. rewrite E, IHf. reflexivity.
Qed.

Lemma tokens_trimStart s : tokens_from true (trimStart s) = tokens_from true s.
Proof.
  induction s as [|c s IH]; [reflexivity|]. cbn [trimStart tokens_from].
  destruct (is_space c) eqn:E; [exact IH|].
  cbn [tokens_from]. now rewrite E.
Qed.

Lemma trimStart_blank_prefix s :
  exists p, s = p ++ trimStart s /\ blank p = true.
Proof.
  induction s as [|c s (p & IH & B)]; cbn [trimStart]; [now exists []|].
  destruct (is_space c) eqn:E; [|now exists []].
  exists (c :: p). cbn [app blank forallb]. rewrite E. split; [now f_equal|].
  exact B.
Qed.

Lemma blank_rev p : blank p = true -> blank (rev p) = true.
Proof.
  unfold blank. rewrite !forallb_forall. intros H x I. apply H.
  now apply in_rev.
Qed.

Lemma tokens_blank_suffix q s p :
  blank p = true -> tokens_from q (s ++ p) = tokens_from q s.
Proof.
  intros B. revert q. induction s as [|c s IH]; intros q.
  - cbn [app]. revert q. induction p as [|c p IHp]; intros q; [reflexivity|].
    cbn [blank forallb] in B. apply andb_true_iff in B. destruct B as [E B].
    cbn [tokens_from]. rewrite E. now apply IHp.
  - cbn [app tokens_from]. now rewrite !IH.
Qed.

Lemma tokens_trim s : tokens (trim s) = tokens s.
Proof.
  unfold tokens, trim. rewrite <- (tokens_trimStart s).
  set (y := trimStart s).
  destruct (trimStart_blank_prefix (rev y)) as (p & E & B).
  assert (Y : y = rev (trimStart (rev y)) ++ rev p).
  { rewrite <- (rev_involutive y) at 1. rewrite E at 1.
    now rewrite rev_app_distr. }
  rewrite Y at 2. now rewrite tokens_blank_suffix by now apply blank_rev.
Qed.

Lemma tokens_cleanText raw : tokens (cleanText raw) = tokens raw.
Proof.
  unfold cleanText. rewrite tokens_trim. unfold replace_spaces, tokens.
  apply (proj1 (tokens_collapse raw)).
Qed.

Lemma tokens_from_nonneg q s : 0 <= tokens_from q s.
Proof.
  revert q. induction s as [|c s IH]; intros q; cbn [tokens_from]; [lia|].
  destruct (is_space c); [apply IH|]. specialize (IH false). destruct q; lia.
Qed.

Lemma tokens_not_blank s : blank s = false -> 1 <= tokens s.
Proof.
  unfold tokens. induction s as [|c s IH]; [discriminate|].
  cbn [blank forallb tokens_from]. destruct (is_space c); cbn [andb].
  - exact IH.
  - intros _. assert (H := tokens_from_nonneg false s). lia.
Qed.

(** X14. On a page whose body has some text that is not white space,
    [wordCount] is the number of white-space-separated tokens of the body
    text: neither the collapsing of the white space nor the trimming
    changes it, and the split gives one piece for each token.  It is then
    at least 1. *)
Theorem wordCount_counts_tokens
    (cheerio_load : jsstring -> cheerio) (toFixed1 : float -> jsstring)
    (html : jsstring) :
  blank (text (cheerio_load html "body")) = false ->
  wordCount (metrics (analyzeContent cheerio_load toFixed1 html))
  = tokens (text (cheerio_load html "body"))
  /\ 1 <= wordCount (metrics (analyzeContent cheerio_load toFixed1 html)).
Proof.
  intros B. unfold analyzeContent. cbn [metrics wordCount].
  fold (cleanText (text (cheerio_load html "body"))).
  assert (T := tokens_not_blank _ B).
  rewrite <- tokens_cleanText in T |- *.
  rewrite wordCount_tokens.
  - split; [reflexivity | lia].
  - intros E. rewrite E in T. cbn in T. lia.
Qed.

Lemma wordCount_counts_tokens_witness :
  blank (text (hi_page [] "body")) = false
  /\ wordCount (metrics (analyzeContent hi_page Host.fixed1 [])) = 1
  /\ tokens (text (hi_page [] "body")) = 1.
Proof.
  split; [reflexivity|].
  destruct (wordCount_counts_tokens hi_page Host.fixed1 [] eq_refl) as [E _].
  rewrite E. split; reflexivity.
Defined.

(** ** The headings of the page *)

Lemma count_collect S tg : count (collect_headings S tg) = count (S tg).
Proof. unfold collect_headings, count. now rewrite length_map. Qed.

(** X15. The headings extractor lists, for each level, one entry for each
    element of the page, in the order of the document, with the trimmed
    text of the element and the count 1.  The structure is logical exactly
    when the page has one h1 and, if it has an h3 or an h4, also an h2; the
    h5 and h6 elements have no influence, and an h4 without an h3 is
    accepted. *)
Theorem heading_structure_of_page
    (cheerio_load : jsstring -> cheerio) (html : jsstring) :
  let S := cheerio_load html in
  let r := extractHeadings cheerio_load html in
  let entries tg :=
    map (fun el => {| h_text := trim (el_text el); h_count := 1 |}) (S tg) in
  headings r
  = {| h1 := entries "h1"; h2 := entries "h2"; h3 := entries "h3";
       h4 := entries "h4"; h5 := entries "h5"; h6 := entries "h6" |}
  /\ h1Count (headings_analysis r) = count (S "h1")
  /\ hasLogicalStructure (headings_analysis r)
     = (count (S "h1") =? 1)
       && ((0 <? count (S "h2"))
           || ((count (S "h3") =? 0) && (count (S "h4") =? 0))).
Proof.
  cbn zeta. unfold extractHeadings.
  cbn [headings headings_analysis h1Count hasLogicalStructure].
  assert (E : forall tg,
             collect_headings (cheerio_load html) tg
             = map (fun el => {| h_text := trim (el_text el); h_count := 1 |})
                 (cheerio_load html tg)).
  { intros tg. unfold collect_headings. apply map_ext. intros el.
    unfold text. cbn [map List.concat]. now rewrite app_nil_r. }
  split; [now rewrite !E|]. split; [apply count_collect|].
  unfold checkLogicalHeadingStructure. cbn [h1 h2 h3 h4].
  rewrite !count_collect.
  assert (N2 : 0 <= count (cheerio_load html "h2")) by (unfold count; lia).
  assert (N3 : 0 <= count (cheerio_load html "h3")) by (unfold count; lia).
  assert (N4 : 0 <= count (cheerio_load html "h4")) by (unfold count; lia).
  destruct (count (cheerio_load html "h1") =? 1); [|reflexivity].
  destruct (Z.eqb_spec (count (cheerio_load html "h2")) 0),
           (Z.ltb_spec 0 (count (cheerio_load html "h2"))),
           (Z.eqb_spec (count (cheerio_load html "h3")) 0),
           (Z.ltb_spec 0 (count (cheerio_load html "h3"))),
           (Z.eqb_spec (count (cheerio_load html "h4")) 0),
           (Z.ltb_spec 0 (count (cheerio_load html "h4")));
    try lia; reflexivity.
Qed.

(** ** Generic link texts *)

Lemma startsWith_app s p q :
  startsWith s (p ++ q) = true ->
  startsWith s p = true /\ startsWith (skipn (List.length p) s) q = true.
Proof.
  revert s. induction p as [|y p IH]; intros s; cbn [app startsWith skipn List.length].
  - intros H. split; [now destruct s | exact H].
  - destruct s as [|x s]; cbn [startsWith skipn]; [discriminate|].
    intros H. apply andb_true_iff in H. destruct H as [E H].
    destruct (IH _ H) as [A B]. rewrite E, A. auto.
Qed.

Lemma includes_here s : includes s [] = true.
Proof. destruct s; reflexivity. Qed.

Lemma includes_skipn n s q :
  includes (skipn n s) q = true -> includes s q = true.
Proof.
  revert s. induction n as [|n IH]; intros s; [auto|].
  destruct s as [|x s]; [auto|]. cbn [skipn]. intros H.
  cbn [includes]. rewrite (IH _ H). apply orb_true_r.
Qed.

Lemma includes_starts s q : startsWith s q = true -> includes s q = true.
Proof. intros H. destruct s; cbn [includes]; rewrite H; reflexivity. Qed.

(** A text that includes [p ++ q] includes [q]. *)
Lemma includes_suffix s p q :
  includes s (p ++ q) = true -> includes s q = true.
Proof.
  induction s as [|x s IH]; cbn [includes]; intros H.
  - rewrite orb_false_r in H. apply startsWith_app in H. destruct H as [_ H].
    destruct p; cbn [skipn List.length] in H; now apply includes_starts in H.
  - apply orb_true_iff in H. destruct H as [H|H].
    + apply startsWith_app in H. destruct H as [_ H].
      apply includes_starts in H. now apply includes_skipn in H.
    + rewrite (IH H). apply orb_true_r.
Qed.

(** X16. A link text is generic exactly when its lower-case form contains
    "here", "details", "read more", "learn more" or "more info" anywhere,
    also inside a word: the entry "click here" of the list adds nothing,
    since every text that contains it contains "here". *)
Theorem isGenericLinkText_substrings
    (toLowerCase : jsstring -> jsstring) (txt : jsstring) :
  let lower := toLowerCase txt in
  isGenericLinkText toLowerCase txt
  = includes lower (lit "read more") || includes lower (lit "learn more")
    || includes lower (lit "more info") || includes lower (lit "details")
    || includes lower (lit "here").
Proof.
  cbn zeta. unfold isGenericLinkText, genericTexts. cbn [map existsb].
  rewrite orb_false_r.
  destruct (includes (toLowerCase txt) (lit "click here")) eqn:C.
  - change (lit "click here") with (lit "click " ++ lit "here") in C.
    apply includes_suffix in C. rewrite C.
    now rewrite !orb_true_r.
  - cbn [orb]. now rewrite !orb_assoc.
Qed.

(** ** The estimated load time and the performance score *)

(** The integer that [toFixed(1)] prints. *)
Lemma tenths_ok x :
  finite x -> (0 <= B2R x)%R ->
  (IZR (tenths x) <= 10 * B2R x + / 2 < IZR (tenths x) + 1)%R.
Proof.
  unfold finite, B2R, tenths.
  destruct (Prim2SF x) as [s| | |s m e]; try discriminate; intros _ P.
  - cbn [SF2R]. lra.
  - rewrite SF2R_finite in *. assert (Q := SF2R_pos m e).
    destruct s; [lra|].
    destruct (Z.leb_spec 0 e) as [G|G].
    + rewrite !mult_IZR, <- bpow_IZR by lia. lra.
    + set (k := - e).
      assert (Pk : 0 < 2 ^ k) by (apply Z.pow_pos_nonneg; lia).
      assert (Ek : 2 ^ (k + 1) = 2 * 2 ^ k)
        by (rewrite Z.pow_add_r, Z.pow_1_r by lia; lia).
      set (n := (2 * (10 * Zpos m) + 2 ^ k) / 2 ^ (k + 1)).
      assert (Q1 := Z.mul_div_le (2 * (10 * Zpos m) + 2 ^ k) (2 ^ (k + 1))
                      ltac:(lia)).
      assert (Q2 := Z.mul_succ_div_gt (2 * (10 * Zpos m) + 2 ^ k) (2 ^ (k + 1))
                      ltac:(lia)).
      fold n in Q1, Q2. rewrite Ek in Q1, Q2.
      assert (Bk : (bpow e * IZR (2 ^ k) = 1)%R).
      { rewrite <- bpow_IZR by lia. rewrite <- bpow_add. unfold k.
        rewrite Z.add_opp_diag_r. apply bpow_0. }
      assert (Rk : (0 < IZR (2 ^ k))%R) by (apply IZR_lt; lia).
      apply IZR_le in Q1. apply IZR_lt in Q2.
      rewrite ?mult_IZR, ?plus_IZR, ?mult_IZR in Q1, Q2.
      assert (S : (IZR (Z.succ n) = IZR n + 1)%R) by (rewrite succ_IZR; lra).
      rewrite S in Q2.
      set (M := IZR (Zpos m)) in *. set (T := IZR (2 ^ k)) in *.
      set (b := bpow e) in *. set (Nn := IZR n) in *.
      assert (M * b * T = M)%R by (rewrite Rmult_assoc, Bk; lra).
      split; nra.
Qed.

(** Half a second and a tenth for each resource: the number to be printed
    differs from [(t + 5) / 10] by less than [1 / 32]. *)
Lemma load_time_between t :
  0 <= t < 2 ^ 32 ->
  finite (0.5 + Z2f t * 0.1)%float
  /\ (IZR t / 10 + / 2 - / 32 <= B2R (0.5 + Z2f t * 0.1)%float
      <= IZR t / 10 + / 2 + / 32)%R.
Proof.
  intros Ht.
  assert (T53 : 2 ^ 32 < 2 ^ 53) by reflexivity.
  assert (Rt : (0 <= IZR t < 4294967296)%R).
  { rewrite <- two_32. split; [apply (IZR_le 0) | apply IZR_lt]; lia. }
  destruct (Z2f_exact t ltac:(lia)) as [Ft Vt].
  lit 0.1%float. lit 0.5%float.
  set (a := 16 * t / 5).
  assert (A1 := Z.mul_div_le (16 * t) 5 ltac:(lia)).
  assert (A2 := Z.mul_succ_div_gt (16 * t) 5 ltac:(lia)).
  fold a in A1, A2.
  assert (Pa : 0 <= a) by (apply Z.div_pos; lia).
  assert (B1 : (5 * IZR a <= 16 * IZR t)%R).
  { rewrite <- !mult_IZR. apply IZR_le. lia. }
  assert (B2 : (16 * IZR t + 1 <= 5 * (IZR a + 1))%R).
  { rewrite <- (plus_IZR a 1), <- !mult_IZR, <- (plus_IZR _ 1).
    apply IZR_le. lia. }
  assert (E32 : IZR (2 ^ 5) = 32%R) by reflexivity.
  assert (S1 : srepr (IZR a / 32)).
  { rewrite <- E32. apply srepr_dyadic; lia. }
  assert (S2 : srepr (IZR (a + 1) / 32)).
  { rewrite <- E32. apply srepr_dyadic; lia. }
  assert (S3 : srepr (IZR (a + 16) / 32)).
  { rewrite <- E32. apply srepr_dyadic; lia. }
  assert (S4 : srepr (IZR (a + 17) / 32)).
  { rewrite <- E32. apply srepr_dyadic; lia. }
  rewrite plus_IZR in S2, S3, S4.
  assert (Y : fbetween (IZR a / 32) ((IZR a + 1) / 32) (Z2f t * 0.1)).
  { apply mul_between; auto. rewrite Vt. use_values. lra. }
  destruct Y as [Fy By].
  assert (X : fbetween ((IZR a + 16) / 32) ((IZR a + 17) / 32)
                (0.5 + Z2f t * 0.1)).
  { apply add_between; auto. use_values. lra. }
  destruct X as [Fx Bx]. split; [exact Fx | lra].
Qed.

Lemma tenths_load_time t :
  0 <= t < 2 ^ 32 -> tenths (0.5 + Z2f t * 0.1)%float = t + 5.
Proof.
  intros Ht. destruct (load_time_between t Ht) as [F B].
  destruct (tenths_ok _ F ltac:(assert (0 <= IZR t)%R by (apply (IZR_le 0); lia);
                               lra)) as [L U].
  set (n := tenths _) in *.
  assert (A : (IZR (t + 4) < IZR n < IZR (t + 6))%R)
    by (rewrite !plus_IZR; lra).
  destruct A as [A1 A2]. apply lt_IZR in A1, A2. lia.
Qed.

(** The load time read back against the thresholds 1, 2 and 3. *)
Lemma parse_tenths_above c n :
  1 <= c <= 3 -> 0 <= n < 2 ^ 53 ->
  (Z2f c <? parse_tenths n)%float = (10 * c <? n).
Proof.
  intros Hc Hn. unfold parse_tenths.
  assert (Rn : (0 <= IZR n < 9007199254740992)%R).
  { rewrite <- two_53. split; [apply (IZR_le 0) | apply IZR_lt]; lia. }
  assert (C : c = 1 \/ c = 2 \/ c = 3) by lia.
  lit 0%float. lit 1%float. lit 2%float. lit 3%float.
  lit 9007199254740992%float.
  closed_float (next_up 1)%float. closed_float (next_up 2)%float.
  closed_float (next_up 3)%float.
  destruct (Z.ltb_spec (10 * c) n) as [G|G].
  - assert (Q : (10 * IZR c + 1 <= IZR n)%R).
    { rewrite <- mult_IZR, <- (plus_IZR _ 1). apply IZR_le. lia. }
    destruct C as [-> | [-> | ->] ].
    + change (Z2f 1) with 1%float.
      destruct (ratio_between n 10 1.0000000000000002 9007199254740992)
        as [F B]; auto; [lia | use_values; lra |].
      apply ltb_B2R; auto. revert B. use_values. lra.
    + change (Z2f 2) with 2%float.
      destruct (ratio_between n 10 2.0000000000000004 9007199254740992)
        as [F B]; auto; [lia | use_values; lra |].
      apply ltb_B2R; auto. revert B. use_values. lra.
    + change (Z2f 3) with 3%float.
      destruct (ratio_between n 10 3.0000000000000004 9007199254740992)
        as [F B]; auto; [lia | use_values; lra |].
      apply ltb_B2R; auto. revert B. use_values. lra.
  - assert (Q : (IZR n <= 10 * IZR c)%R).
    { rewrite <- mult_IZR. apply IZR_le. lia. }
    destruct C as [-> | [-> | ->] ].
    + change (Z2f 1) with 1%float.
      destruct (ratio_between n 10 0 1) as [F B]; auto;
        [lia | use_values; lra |].
      destruct (ltb_cases 1 (Z2f n / Z2f 10)) as [[_ C]|[E _]]; auto.
      revert B C. use_values. lra.
    + change (Z2f 2) with 2%float.
      destruct (ratio_between n 10 0 2) as [F B]; auto;
        [lia | use_values; lra |].
      destruct (ltb_cases 2 (Z2f n / Z2f 10)) as [[_ C]|[E _]]; auto.
      revert B C. use_values. lra.
    + change (Z2f 3) with 3%float.
      destruct (ratio_between n 10 0 3) as [F B]; auto;
        [lia | use_values; lra |].
      destruct (ltb_cases 3 (Z2f n / Z2f 10)) as [[_ C]|[E _]]; auto.
      revert B C. use_values. lra.
Qed.

Lemma estimatePerformance_counts
    (cheerio_load : jsstring -> cheerio)
    (toFixed1 : float -> jsstring) (parseFloat : jsstring -> float)
    (Number_toString : float -> jsstring) (html : jsstring) :
  let S := cheerio_load html in
  let scripts := count (S "script") in
  let total :=
    scripts + count (S (attr_sel "link" "rel" "stylesheet")) + count (S "img")
    + count (S "iframe") in
  let p := estimatePerformance cheerio_load toFixed1 parseFloat Number_toString
             html in
  total < 2 ^ 32 ->
  parseFloat (toFixed1 (0.5 + Z2f total * 0.1)%float)
  = parse_tenths (tenths (0.5 + Z2f total * 0.1)%float) ->
  estimatedLoadTimeValue (perf_metrics_of p) = parse_tenths (total + 5)
  /\ perf_score p = Z2f (100 - resource_penalty total - script_penalty scripts)
  /\ 0 <= scripts <= total.
Proof.
  cbn zeta. unfold estimatePerformance.
  cbn [perf_metrics_of estimatedLoadTimeValue perf_score].
  set (sc := count (cheerio_load html "script")).
  set (cs := count (cheerio_load html (attr_sel "link" "rel" "stylesheet"))).
  set (im := count (cheerio_load html "img")).
  set (fr := count (cheerio_load html "iframe")).
  assert (0 <= sc) by (unfold sc, count; lia).
  assert (0 <= cs) by (unfold cs, count; lia).
  assert (0 <= im) by (unfold im, count; lia).
  assert (0 <= fr) by (unfold fr, count; lia).
  set (t := sc + cs + im + fr) in *.
  intros Ht Hp. rewrite Hp, tenths_load_time by lia.
  split; [reflexivity|]. split; [|lia].
  assert (T53 : 2 ^ 32 + 5 < 2 ^ 53) by reflexivity.
  unfold calculatePerformanceScore. cbn zeta.
  change 3%float with (Z2f 3). change 2%float with (Z2f 2).
  change 1%float with (Z2f 1).
  rewrite !parse_tenths_above by lia.
  unfold resource_penalty, script_penalty.
  assert (sc <= t) by lia. clearbody t. clear - H3.
  destruct (Z.ltb_spec 50 t), (Z.ltb_spec 30 t), (Z.ltb_spec 25 t),
           (Z.ltb_spec 15 t), (Z.ltb_spec 5 t); try lia;
    destruct (Z.ltb_spec (10 * 3) (t + 5)), (Z.ltb_spec (10 * 2) (t + 5)),
             (Z.ltb_spec (10 * 1) (t + 5)); try lia;
    destruct (Z.ltb_spec 15 sc), (Z.ltb_spec 10 sc), (Z.ltb_spec 5 sc);
    try lia; vm_compute; reflexivity.
Qed.

(** X17. When [toFixed(1)] and [parseFloat] do on the estimated load time
    what the language defines - print the nearest number of tenths, the
    larger one at a tie, and read it back - the load time of a page with
    [t < 2^32] resources is the number nearest to [(t + 5) / 10], and the
    performance score is 100 minus a penalty for the resources and a
    penalty for the scripts: with more than 5 resources 5 points are lost,
    with more than 15 of them 25, more than 25: 40, more than 30: 50, more
    than 50: 60; with more than 5 scripts 5 points, more than 10: 10, more
    than 15: 15.  The rounding errors of [0.5 + t * 0.1] never reach the
    printed digit. *)
Theorem performance_score_by_counts
    (cheerio_load : jsstring -> cheerio)
    (toFixed1 : float -> jsstring) (parseFloat : jsstring -> float)
    (Number_toString : float -> jsstring) (html : jsstring) :
  let S := cheerio_load html in
  let scripts := count (S "script") in
  let total :=
    scripts + count (S (attr_sel "link" "rel" "stylesheet")) + count (S "img")
    + count (S "iframe") in
  let p := estimatePerformance cheerio_load toFixed1 parseFloat Number_toString
             html in
  total < 2 ^ 32 ->
  parseFloat (toFixed1 (0.5 + Z2f total * 0.1)%float)
  = parse_tenths (tenths (0.5 + Z2f total * 0.1)%float) ->
  estimatedLoadTimeValue (perf_metrics_of p) = parse_tenths (total + 5)
  /\ perf_score p = Z2f (100 - resource_penalty total - script_penalty scripts)
  /\ 0 <= scripts <= total.
Proof. apply estimatePerformance_counts. Qed.

Lemma performance_score_by_counts_witness :
  estimatedLoadTimeValue
    (perf_metrics_of
       (estimatePerformance scripts_page sample_toFixed1 sample_parseFloat
          Host.print []))
  = 1.2%float
  /\ perf_score
       (estimatePerformance scripts_page sample_toFixed1 sample_parseFloat
          Host.print [])
     = 90%float.
Proof.
  destruct (performance_score_by_counts scripts_page sample_toFixed1
              sample_parseFloat Host.print []) as (L & P & _).
  - vm_compute. reflexivity.
  - vm_compute. reflexivity.
  - rewrite L, P. vm_compute. split; reflexivity.
Defined.

(** ** The points of the content score *)

(** X19. The content score of a page with fewer than [2^32] paragraphs
    and a body text of fewer than [2^32] code units is the smaller of 100
    and the sum of the points for the words (10, 20 or 30 with more than
    300, 500 or 1000 words), the points for the paragraphs (20 with fewer
    than 150 words per paragraph, else 10, and none without paragraphs) and
    half the readability score.  The comparison of the quotient with 150 in
    binary64 decides exactly whether there are fewer than 150 words per
    paragraph. *)
Theorem content_score_points
    (cheerio_load : jsstring -> cheerio) (toFixed1 : float -> jsstring)
    (html : jsstring) :
  let c := analyzeContent cheerio_load toFixed1 html in
  let w := wordCount (metrics c) in
  let p := paragraphCount (metrics c) in
  len (text (cheerio_load html "body")) < 2 ^ 32 ->
  count (cheerio_load html "p") < 2 ^ 32 ->
  p = count (cheerio_load html "p")
  /\ content_score c
     = Math_min 100
         (Z2f (word_points w + paragraph_points w p)
          + readabilityScore (metrics c) * 0.5)%float.
Proof.
  cbn zeta. intros Hb Hp. unfold analyzeContent.
  cbn [metrics wordCount paragraphCount readabilityScore content_score].
  fold (cleanText (text (cheerio_load html "body"))).
  assert (L := cleanText_length (text (cheerio_load html "body"))).
  set (clean := cleanText (text (cheerio_load html "body"))) in *.
  assert (W := split_from_bounds is_space false [] clean).
  fold (split is_space clean) in W.
  set (w := count (split is_space clean)) in *.
  set (p := count (cheerio_load html "p")) in *.
  assert (P0 : 0 <= p) by (unfold p, count; lia).
  split; [reflexivity|].
  generalize (Math_min 100
                (Math_max 0
                   (100 - Math_abs
                            (Z2f w
                             / Z2f (if (count (split is_sentence_end clean) =? 0)%Z
                                    then 1%Z
                                    else count (split is_sentence_end clean)) - 15)
                          * 3)%float)).
  intros r. unfold calculateContentScore, word_points, paragraph_points.
  assert (R : (0 <? p) = true -> (Z2f w / Z2f p <? 150)%float = (w <? 150 * p)).
  { intros G. apply Z.ltb_lt in G.
    assert (T53 : 2 ^ 32 + 1 < 2 ^ 53) by reflexivity.
    apply ratio_below_150; lia. }
  destruct (0 <? p) eqn:G; [rewrite (R eq_refl)|]; clear R;
    destruct (1000 <? w), (500 <? w), (300 <? w);
    cbn [andb]; try destruct (w <? 150 * p);
    match goal with
    | |- Math_min _ (?a + _)%float = Math_min _ (?b + _)%float =>
        replace a with b by (vm_compute; reflexivity); reflexivity
    end.
Qed.

Lemma content_score_points_witness :
  paragraphCount (metrics (analyzeContent hi_page Host.fixed1 [])) = 0
  /\ content_score (analyzeContent hi_page Host.fixed1 []) = 28.25%float.
Proof.
  destruct (content_score_points hi_page Host.fixed1 []) as [P C].
  - vm_compute. reflexivity.
  - vm_compute. reflexivity.
  - rewrite C, P. vm_compute. split; reflexivity.
Defined.

(** ** The findings on performance *)

Lemma issues_performance Number_toString m h i l p :
  let s := identifyCriticalIssues Number_toString m h i l p in
  has_issue "performance" "critical" s = (perf_score p <? 50)%float
  /\ has_issue "performance" "warning" s
     = negb (perf_score p <? 50)%float
       && (3 <? estimatedLoadTimeValue (perf_metrics_of p))%float.
Proof.
  cbn zeta. unfold identifyCriticalIssues.
  rewrite !has_issue_app, !has_issue_when.
  destruct (h1Count (headings_analysis h) =? 0);
    [|destruct (1 <? h1Count (headings_analysis h))];
    (destruct (perf_score p <? 50)%float;
     [|destruct (3 <? estimatedLoadTimeValue (perf_metrics_of p))%float]);
    cbn; rewrite ?andb_true_r, ?andb_false_r, ?orb_false_r, ?orb_true_r;
    repeat split.
Qed.

(** X20. With [toFixed(1)] and [parseFloat] as the language defines them,
    the findings on the performance of a page with [t < 2^32] resources,
    [s] of them scripts, depend on the two counts only: the strength is
    listed with at most 15 resources and the improvement area with more;
    an issue is listed with more than 25 resources; it is the critical one
    with more than 50 resources, with more than 30 resources and more than 5
    scripts, or with more than 15 scripts, and else the warning on the load
    time. *)
Theorem performance_findings_by_counts
    (cheerio_load : jsstring -> cheerio)
    (URL_origin : jsstring -> option jsstring)
    (URL_href : jsstring -> jsstring -> option jsstring)
    (toLowerCase : jsstring -> jsstring)
    (toFixed1 : float -> jsstring) (parseFloat : jsstring -> float)
    (Number_toString : float -> jsstring)
    (html url : jsstring) (r : Analysis) :
  let S := cheerio_load html in
  let scripts := count (S "script") in
  let total :=
    scripts + count (S (attr_sel "link" "rel" "stylesheet")) + count (S "img")
    + count (S "iframe") in
  let critical :=
    (50 <? total) || ((30 <? total) && (5 <? scripts))
    || ((25 <? total) && (15 <? scripts)) in
  analyzeSEO cheerio_load URL_origin URL_href toLowerCase toFixed1 parseFloat
    Number_toString html url = Ok r ->
  total < 2 ^ 32 ->
  parseFloat (toFixed1 (0.5 + Z2f total * 0.1)%float)
  = parse_tenths (tenths (0.5 + Z2f total * 0.1)%float) ->
  has_type "performance" (strengths r) = (total <=? 15)
  /\ has_type "performance" (improvementAreas r) = (15 <? total)
  /\ has_issue "performance" "critical" (criticalIssues r) = critical
  /\ has_issue "performance" "warning" (criticalIssues r)
     = (25 <? total) && negb critical.
Proof.
  cbn zeta. intros H Ht Hp.
  destruct (analyzeSEO_findings _ _ _ _ _ _ _ _ _ _ H) as (Ec & Es & Ei).
  destruct (analyzeSEO_facts _ _ _ _ _ _ _ _ _ _ H)
    as (_ & _ & _ & _ & Ep & _).
  destruct (strengths_types (metaTags r) (a_headings r) (a_images r) (links r)
              (performanceMetrics r) (checkMobileFriendliness cheerio_load html)
              (contentAnalysis r)) as (_ & _ & _ & S4 & _).
  destruct (improvements_types Number_toString (metaTags r) (a_headings r)
              (a_images r) (links r) (performanceMetrics r)
              (checkMobileFriendliness cheerio_load html) (contentAnalysis r))
    as (_ & _ & I3 & _).
  destruct (issues_performance Number_toString (metaTags r) (a_headings r)
              (a_images r) (links r) (performanceMetrics r)) as (C1 & C2).
  rewrite Ec, Es, Ei, S4, I3, C1, C2, Ep.
  destruct (estimatePerformance_counts cheerio_load toFixed1 parseFloat
              Number_toString html Ht Hp) as (L & P & Hs).
  rewrite L, P.
  set (sc := count (cheerio_load html "script")) in *.
  set (t := sc + count (cheerio_load html (attr_sel "link" "rel" "stylesheet"))
            + count (cheerio_load html "img")
            + count (cheerio_load html "iframe")) in *.
  assert (T53 : 2 ^ 32 + 5 < 2 ^ 53) by reflexivity.
  change 3%float with (Z2f 3). rewrite parse_tenths_above by lia.
  unfold resource_penalty, script_penalty. clearbody t. clear - Hs.
  destruct (Z.ltb_spec 50 t), (Z.ltb_spec 30 t), (Z.ltb_spec 25 t),
           (Z.ltb_spec 15 t), (Z.ltb_spec 5 t), (Z.leb_spec t 15); try lia;
    destruct (Z.ltb_spec (10 * 3) (t + 5)); try lia;
    destruct (Z.ltb_spec 15 sc), (Z.ltb_spec 10 sc), (Z.ltb_spec 5 sc);
    try lia; vm_compute; repeat split.
Qed.

Lemma performance_findings_by_counts_witness :
  exists r,
    scripts_report = Ok r
    /\ has_type "performance" (strengths r) = true
    /\ has_type "performance" (improvementAreas r) = false
    /\ has_issue "performance" "critical" (criticalIssues r) = false
    /\ has_issue "performance" "warning" (criticalIssues r) = false.
Proof.
  exists_report scripts_report.
  match goal with
  | |- context [strengths ?r] =>
      destruct (performance_findings_by_counts scripts_page Host.origin
                  Host.href Host.lower sample_toFixed1 sample_parseFloat
                  Host.print [] (lit "https://example.com") r)
        as (A & B & C & D)
  end.
  - vm_compute. reflexivity.
  - vm_compute. reflexivity.
  - vm_compute. reflexivity.
  - rewrite A, B, C, D. vm_compute. repeat split.
Defined.
